(** * Reconciliation engine of the riff system controllers

    A shallow embedding of the Go sources:
    - [DeployerSpec.Default] (knative/v1alpha1 defaulting webhook),
    - the FunctionBuild [Reconciler] ([Reconcile], [reconcile],
      [updateStatus], [reconcileBuildCache], [reconcileBuild],
      [createBuildCache], [createBuild] and the two semantic-equality
      predicates),
    together with the condition aggregator and the multi-instance child
    synchronizer, whose Go sources are not part of the tree and which are
    modelled from the specification.

    Go values are immutable Rocq values, so every [DeepCopy] is the
    identity; pointers that may be nil are [option]s; Go maps are [gmap]s
    wrapped in an [option] where nil and empty maps must be told apart. *)

From Stdlib Require Import ZArith List Bool Lia.
From stdpp Require Import base decidable option list strings gmap.

Local Open Scope Z_scope.
Local Open Scope string_scope.

(** ** Kubernetes object model (the fields the sources read or write) *)

(** [map[string]string]; [None] is the nil map. *)
Abbreviation StringMap := (option (gmap string string)).

Record OwnerReference := mkOwnerReference {
  orKind : string;
  orName : string;
  orUID : string;
  orController : option bool
}.

Record ObjectMeta := mkObjectMeta {
  Name : string;
  Namespace : string;
  UID : string;
  ResourceVersion : string;
  Generation : Z;
  CreationTimestamp : Z;
  DeletionTimestamp : option Z;
  Labels : StringMap;
  Annotations : StringMap;
  OwnerReferences : list OwnerReference
}.

#[global] Instance OwnerReference_eq_dec : EqDecision OwnerReference.
Proof. solve_decision. Defined.
#[global] Instance ObjectMeta_eq_dec : EqDecision ObjectMeta.
Proof. solve_decision. Defined.

Definition emptyMeta : ObjectMeta :=
  mkObjectMeta "" "" "" "" 0 0 None None None [].

(** [resource.Quantity]: a numeric value and the format it was written in.
    [equality.Semantic] compares quantities by value only. *)
Record Quantity := mkQuantity { qValue : Z; qFormat : string }.

#[global] Instance Quantity_eq_dec : EqDecision Quantity.
Proof. solve_decision. Defined.

(** [corev1.ResourceList] *)
Abbreviation ResourceList := (option (gmap string Quantity)).

Record ResourceRequirements := mkResourceRequirements {
  Limits : ResourceList;
  Requests : ResourceList
}.

#[global] Instance ResourceRequirements_eq_dec : EqDecision ResourceRequirements.
Proof. solve_decision. Defined.

Record Container := mkContainer {
  cName : string;
  cImage : string;
  cResources : ResourceRequirements
}.

#[global] Instance Container_eq_dec : EqDecision Container.
Proof. solve_decision. Defined.

(** [corev1.Container{}] *)
Definition zeroContainer : Container :=
  mkContainer "" "" (mkResourceRequirements None None).

Record PodSpec := mkPodSpec {
  ServiceAccountName : string;
  Containers : list Container;
  Volumes : list string
}.

Record PodTemplateSpec := mkPodTemplateSpec {
  ptMeta : ObjectMeta;
  ptSpec : PodSpec
}.

#[global] Instance PodSpec_eq_dec : EqDecision PodSpec.
Proof. solve_decision. Defined.
#[global] Instance PodTemplateSpec_eq_dec : EqDecision PodTemplateSpec.
Proof. solve_decision. Defined.

(** [&corev1.PodTemplateSpec{}] *)
Definition zeroPodTemplateSpec : PodTemplateSpec :=
  mkPodTemplateSpec emptyMeta (mkPodSpec "" [] []).

(** ** [DeployerSpec.Default] *)

Module Deployer.

Definition IngressPolicyClusterLocal : string := "ClusterLocal".

Record DeployerSpec := mkDeployerSpec {
  Template : option PodTemplateSpec;
  IngressPolicy : string
}.

#[global] Instance DeployerSpec_eq_dec : EqDecision DeployerSpec.
Proof. solve_decision. Defined.

Definition setAnnotations (t : PodTemplateSpec) (a : StringMap) : PodTemplateSpec :=
  let m := ptMeta t in
  mkPodTemplateSpec
    (mkObjectMeta (Name m) (Namespace m) (UID m) (ResourceVersion m)
       (Generation m) (CreationTimestamp m) (DeletionTimestamp m)
       (Labels m) a (OwnerReferences m))
    (ptSpec t).

Definition setLabels (t : PodTemplateSpec) (l : StringMap) : PodTemplateSpec :=
  let m := ptMeta t in
  mkPodTemplateSpec
    (mkObjectMeta (Name m) (Namespace m) (UID m) (ResourceVersion m)
       (Generation m) (CreationTimestamp m) (DeletionTimestamp m)
       l (Annotations m) (OwnerReferences m))
    (ptSpec t).

Definition setContainers (t : PodTemplateSpec) (cs : list Container) : PodTemplateSpec :=
  mkPodTemplateSpec (ptMeta t)
    (mkPodSpec (ServiceAccountName (ptSpec t)) cs (Volumes (ptSpec t))).

(** The five guarded assignments of [func (s *DeployerSpec) Default()],
    in source order.  After the first one the template is non-nil. *)
Definition Default (s : DeployerSpec) : DeployerSpec :=
  let t := match Template s with None => zeroPodTemplateSpec | Some t => t end in
  let t := match Annotations (ptMeta t) with
           | None => setAnnotations t (Some ∅)
           | Some _ => t
           end in
  let t := match Labels (ptMeta t) with
           | None => setLabels t (Some ∅)
           | Some _ => t
           end in
  let t := if (length (Containers (ptSpec t)) =? 0)%nat
           then setContainers t (Containers (ptSpec t) ++ [zeroContainer])%list
           else t in
  let p := if String.eqb (IngressPolicy s) "" then IngressPolicyClusterLocal
           else IngressPolicy s in
  mkDeployerSpec (Some t) p.

End Deployer.

(** ** Conditions *)

Inductive ConditionStatus := ConditionTrue | ConditionFalse | ConditionUnknown.

#[global] Instance ConditionStatus_eq_dec : EqDecision ConditionStatus.
Proof. solve_decision. Defined.

(** A condition without its type: the type is the key under which the
    condition is stored, which makes it unique within the set. *)
Record Condition := mkCondition {
  Status : ConditionStatus;
  Reason : string;
  Message : string
}.

#[global] Instance Condition_eq_dec : EqDecision Condition.
Proof. solve_decision. Defined.

Abbreviation ConditionType := string.
Abbreviation Conditions := (gmap string Condition).

(** ** Children of a FunctionBuild *)

Record PersistentVolumeClaimSpec := mkPVCSpec {
  AccessModes : list string;
  Resources : ResourceRequirements;
  VolumeName : string;
  StorageClassName : option string
}.

Record PersistentVolumeClaimStatus := mkPVCStatus {
  Phase : string;
  Capacity : ResourceList
}.

Record PersistentVolumeClaim := mkPVC {
  pvcMeta : ObjectMeta;
  pvcSpec : PersistentVolumeClaimSpec;
  pvcStatus : PersistentVolumeClaimStatus
}.

Record BuildSpec := mkBuildSpec {
  bsServiceAccountName : string;
  bsSteps : list Container;
  bsTemplate : option string
}.

Record BuildStatus := mkBuildStatus {
  bsConditions : Conditions
}.

Record Build := mkBuild {
  buildMeta : ObjectMeta;
  buildSpec : BuildSpec;
  buildStatus : BuildStatus
}.

#[global] Instance PersistentVolumeClaimSpec_eq_dec : EqDecision PersistentVolumeClaimSpec.
Proof. solve_decision. Defined.
#[global] Instance PersistentVolumeClaimStatus_eq_dec : EqDecision PersistentVolumeClaimStatus.
Proof. solve_decision. Defined.
#[global] Instance PersistentVolumeClaim_eq_dec : EqDecision PersistentVolumeClaim.
Proof. solve_decision. Defined.
#[global] Instance BuildSpec_eq_dec : EqDecision BuildSpec.
Proof. solve_decision. Defined.
#[global] Instance BuildStatus_eq_dec : EqDecision BuildStatus.
Proof. solve_decision. Defined.
#[global] Instance Build_eq_dec : EqDecision Build.
Proof. solve_decision. Defined.

(** ** The owner: FunctionBuild *)

Record FunctionBuildSpec := mkFunctionBuildSpec {
  Image : string
}.

Record FunctionBuildStatus := mkFunctionBuildStatus {
  StatusConditions : Conditions;
  ObservedGeneration : Z;
  BuildCacheName : string;
  BuildName : string;
  LatestImage : string
}.

Record FunctionBuild := mkFunctionBuild {
  fbMeta : ObjectMeta;
  fbSpec : FunctionBuildSpec;
  fbStatus : FunctionBuildStatus
}.

#[global] Instance FunctionBuildSpec_eq_dec : EqDecision FunctionBuildSpec.
Proof. solve_decision. Defined.
#[global] Instance FunctionBuildStatus_eq_dec : EqDecision FunctionBuildStatus.
Proof. solve_decision. Defined.
#[global] Instance FunctionBuild_eq_dec : EqDecision FunctionBuild.
Proof. solve_decision. Defined.

(** ** Errors and results *)

Inductive StatusReason :=
| StatusReasonNotFound
| StatusReasonAlreadyExists
| StatusReasonConflict
| StatusReasonInternalError.

(** A Go [error]: an API status error, or one built by [fmt.Errorf]. *)
Inductive error :=
| StatusError (r : StatusReason) (msg : string)
| Errorf (msg : string).

#[global] Instance StatusReason_eq_dec : EqDecision StatusReason.
Proof. solve_decision. Defined.
#[global] Instance error_eq_dec : EqDecision error.
Proof. solve_decision. Defined.

(** [err.Error()] *)
Definition Error (e : error) : string :=
  match e with StatusError _ msg => msg | Errorf msg => msg end.

(** [apierrs.IsNotFound] *)
Definition IsNotFound (e : error) : bool :=
  match e with StatusError StatusReasonNotFound _ => true | _ => false end.

(** A Go result pair [(T, error)] with exactly one side set. *)
Inductive Result (A : Type) := Ok (a : A) | Err (e : error).
Arguments Ok {A} a.
Arguments Err {A} e.

(** [metav1.GetControllerOf]: the first owner reference whose controller
    flag is set and true. *)
Definition GetControllerOf (m : ObjectMeta) : option OwnerReference :=
  find (fun r => match orController r with Some true => true | _ => false end)
       (OwnerReferences m).

(** [metav1.IsControlledBy] *)
Definition IsControlledBy (obj owner : ObjectMeta) : bool :=
  match GetControllerOf obj with
  | None => false
  | Some r => String.eqb (orUID r) (UID owner)
  end.

(** ** [equality.Semantic.DeepEqual] on the types it is applied to

    Nil and empty maps are equal and quantities are compared by value;
    everything else is structural. *)

Definition semanticStringMap (a b : StringMap) : bool :=
  bool_decide (default ∅ a = default ∅ b).

Definition semanticResourceList (a b : ResourceList) : bool :=
  bool_decide (qValue <$> default ∅ a = qValue <$> default ∅ b).

Definition semanticResourceRequirements (a b : ResourceRequirements) : bool :=
  semanticResourceList (Limits a) (Limits b)
  && semanticResourceList (Requests a) (Requests b).

Definition semanticContainer (a b : Container) : bool :=
  String.eqb (cName a) (cName b) && String.eqb (cImage a) (cImage b)
  && semanticResourceRequirements (cResources a) (cResources b).

Fixpoint semanticContainers (a b : list Container) : bool :=
  match a, b with
  | [], [] => true
  | x :: a', y :: b' => semanticContainer x y && semanticContainers a' b'
  | _, _ => false
  end.

Definition semanticBuildSpec (a b : BuildSpec) : bool :=
  String.eqb (bsServiceAccountName a) (bsServiceAccountName b)
  && semanticContainers (bsSteps a) (bsSteps b)
  && bool_decide (bsTemplate a = bsTemplate b).

(** On a FunctionBuildStatus every field is a string, an integer or a set
    of conditions, so semantic and [reflect.DeepEqual] equality coincide
    with structural equality (the conditions' transition times, which the
    semantic equality ignores, are not modelled). *)
Definition semanticStatus (a b : FunctionBuildStatus) : bool :=
  bool_decide (a = b).

Definition reflectStatus (a b : FunctionBuildStatus) : bool :=
  bool_decide (a = b).

(** ** The object store, the recorded calls and the reconcile monad *)

(** [k8schain.Options] *)
Record Options := mkOptions {
  optNamespace : string;
  optServiceAccountName : string
}.

#[global] Instance Options_eq_dec : EqDecision Options.
Proof. solve_decision. Defined.

(** Reads through the listers. *)
Inductive Read :=
| GetFunctionBuild (ns name : string)
| GetPersistentVolumeClaim (ns name : string)
| GetBuild (ns name : string).

(** Calls that leave the process: writes to the object store, the digest
    resolution and the events handed to the recorder. *)
Inductive Action :=
| CreatePersistentVolumeClaim (ns : string) (o : PersistentVolumeClaim)
| UpdatePersistentVolumeClaim (ns : string) (o : PersistentVolumeClaim)
| DeletePersistentVolumeClaim (ns name : string) (uidPrecondition : string)
| CreateBuild (ns : string) (o : Build)
| UpdateBuild (ns : string) (o : Build)
| UpdateStatus (ns : string) (o : FunctionBuild)
| Resolve (image : string) (opt : Options) (skipRegistries : gset string)
| Eventf (eventtype reason message : string).

#[global] Instance Action_eq_dec : EqDecision Action.
Proof. solve_decision. Defined.

(** The writes to the object store among the actions. *)
Definition isWrite (a : Action) : bool :=
  match a with
  | Resolve _ _ _ | Eventf _ _ _ => false
  | _ => true
  end.

Definition isStatusWrite (a : Action) : bool :=
  match a with UpdateStatus _ _ => true | _ => false end.

Definition isResolve (a : Action) : bool :=
  match a with Resolve _ _ _ => true | _ => false end.

(** Writes that touch a PersistentVolumeClaim, and writes that touch a Build. *)
Definition touchesPersistentVolumeClaim (a : Action) : bool :=
  match a with
  | CreatePersistentVolumeClaim _ _ | UpdatePersistentVolumeClaim _ _
  | DeletePersistentVolumeClaim _ _ _ => true
  | _ => false
  end.

Definition touchesBuild (a : Action) : bool :=
  match a with CreateBuild _ _ | UpdateBuild _ _ => true | _ => false end.

(** The cluster as one reconcile invocation sees it: one store per kind,
    keyed by namespace and name, read through the listers and written
    through the clients, and the trace of actions issued so far (oldest
    first).  Nothing but the invocation itself changes the stores while it
    runs. *)
Record World := mkWorld {
  functionbuilds : gmap (string * string) FunctionBuild;
  pvcs : gmap (string * string) PersistentVolumeClaim;
  builds : gmap (string * string) Build;
  trace : list Action
}.

(** The actions a run added to the trace of [w] on its way to [w']. *)
Definition issued (w w' : World) : list Action :=
  drop (length (trace w)) (trace w').

(** The [Reconciler] struct: what its listers, clients and resolver answer.
    A reactor that returns an error makes the call fail without touching
    the store (the induced failures of the table tests). *)
Record Reconciler := mkReconciler {
  readReactor : Read -> option error;
  reactor : Action -> option error;
  resolver : string -> Options -> gset string -> Result string
}.

(** A Go call either returns, or panics on a nil dereference. *)
Inductive Outcome (A : Type) :=
| Done (a : A) (w : World)
| Panic (w : World).
Arguments Done {A} a w.
Arguments Panic {A} w.

Definition M (A : Type) : Type := World -> Outcome A.

#[global] Instance M_ret : MRet M := fun A a w => Done a w.
#[global] Instance M_bind : MBind M := fun A B f m w =>
  match m w with
  | Done a w' => f a w'
  | Panic w' => Panic w'
  end.

Definition panic {A} : M A := fun w => Panic w.

Definition issue (a : Action) : M unit := fun w =>
  Done tt (mkWorld (functionbuilds w) (pvcs w) (builds w) (trace w ++ [a])%list).

Definition setPvcs (f : gmap (string * string) PersistentVolumeClaim ->
                        gmap (string * string) PersistentVolumeClaim) : M unit :=
  fun w => Done tt (mkWorld (functionbuilds w) (f (pvcs w)) (builds w) (trace w)).

Definition setBuilds (f : gmap (string * string) Build ->
                          gmap (string * string) Build) : M unit :=
  fun w => Done tt (mkWorld (functionbuilds w) (pvcs w) (f (builds w)) (trace w)).

Definition setFunctionbuilds (f : gmap (string * string) FunctionBuild ->
                                  gmap (string * string) FunctionBuild) : M unit :=
  fun w => Done tt (mkWorld (f (functionbuilds w)) (pvcs w) (builds w) (trace w)).

Definition NewNotFound (name : string) : error :=
  StatusError StatusReasonNotFound (name ++ " not found").
Definition NewAlreadyExists (name : string) : error :=
  StatusError StatusReasonAlreadyExists (name ++ " already exists").
Definition NewConflict (name : string) : error :=
  StatusError StatusReasonConflict (name ++ " precondition failed").

Section Clients.
Variable c : Reconciler.

(** [c.functionbuildLister.FunctionBuilds(ns).Get(name)] *)
Definition functionbuildLister_Get (ns name : string) : M (Result FunctionBuild) :=
  fun w =>
  match readReactor c (GetFunctionBuild ns name) with
  | Some e => Done (Err e) w
  | None =>
      match functionbuilds w !! (ns, name) with
      | Some o => Done (Ok o) w
      | None => Done (Err (NewNotFound name)) w
      end
  end.

(** [c.pvcLister.PersistentVolumeClaims(ns).Get(name)] *)
Definition pvcLister_Get (ns name : string) : M (Result PersistentVolumeClaim) :=
  fun w =>
  match readReactor c (GetPersistentVolumeClaim ns name) with
  | Some e => Done (Err e) w
  | None =>
      match pvcs w !! (ns, name) with
      | Some o => Done (Ok o) w
      | None => Done (Err (NewNotFound name)) w
      end
  end.

(** [c.knbuildLister.Builds(ns).Get(name)] *)
Definition knbuildLister_Get (ns name : string) : M (Result Build) :=
  fun w =>
  match readReactor c (GetBuild ns name) with
  | Some e => Done (Err e) w
  | None =>
      match builds w !! (ns, name) with
      | Some o => Done (Ok o) w
      | None => Done (Err (NewNotFound name)) w
      end
  end.

(** [c.KubeClientSet.CoreV1().PersistentVolumeClaims(ns).Create(o)] *)
Definition PersistentVolumeClaims_Create (ns : string) (o : PersistentVolumeClaim)
  : M (Result PersistentVolumeClaim) :=
  _ ← issue (CreatePersistentVolumeClaim ns o);
  match reactor c (CreatePersistentVolumeClaim ns o) with
  | Some e => mret (Err e)
  | None =>
      fun w =>
      match pvcs w !! (ns, Name (pvcMeta o)) with
      | Some _ => Done (Err (NewAlreadyExists (Name (pvcMeta o)))) w
      | None => (_ ← setPvcs (insert (ns, Name (pvcMeta o)) o); mret (Ok o)) w
      end
  end.

(** [....PersistentVolumeClaims(ns).Update(o)] *)
Definition PersistentVolumeClaims_Update (ns : string) (o : PersistentVolumeClaim)
  : M (Result PersistentVolumeClaim) :=
  _ ← issue (UpdatePersistentVolumeClaim ns o);
  match reactor c (UpdatePersistentVolumeClaim ns o) with
  | Some e => mret (Err e)
  | None =>
      fun w =>
      match pvcs w !! (ns, Name (pvcMeta o)) with
      | None => Done (Err (NewNotFound (Name (pvcMeta o)))) w
      | Some _ => (_ ← setPvcs (insert (ns, Name (pvcMeta o)) o); mret (Ok o)) w
      end
  end.

(** [....PersistentVolumeClaims(ns).Delete(name, &DeleteOptions{Preconditions{UID}})] *)
Definition PersistentVolumeClaims_Delete (ns name uid : string) : M (option error) :=
  _ ← issue (DeletePersistentVolumeClaim ns name uid);
  match reactor c (DeletePersistentVolumeClaim ns name uid) with
  | Some e => mret (Some e)
  | None =>
      fun w =>
      match pvcs w !! (ns, name) with
      | None => Done (Some (NewNotFound name)) w
      | Some o =>
          if String.eqb (UID (pvcMeta o)) uid
          then (_ ← setPvcs (delete (ns, name)); mret None) w
          else Done (Some (NewConflict name)) w
      end
  end.

(** [c.KnBuildClientSet.BuildV1alpha1().Builds(ns).Create(o)] *)
Definition Builds_Create (ns : string) (o : Build) : M (Result Build) :=
  _ ← issue (CreateBuild ns o);
  match reactor c (CreateBuild ns o) with
  | Some e => mret (Err e)
  | None =>
      fun w =>
      match builds w !! (ns, Name (buildMeta o)) with
      | Some _ => Done (Err (NewAlreadyExists (Name (buildMeta o)))) w
      | None => (_ ← setBuilds (insert (ns, Name (buildMeta o)) o); mret (Ok o)) w
      end
  end.

(** [....Builds(ns).Update(o)] *)
Definition Builds_Update (ns : string) (o : Build) : M (Result Build) :=
  _ ← issue (UpdateBuild ns o);
  match reactor c (UpdateBuild ns o) with
  | Some e => mret (Err e)
  | None =>
      fun w =>
      match builds w !! (ns, Name (buildMeta o)) with
      | None => Done (Err (NewNotFound (Name (buildMeta o)))) w
      | Some _ => (_ ← setBuilds (insert (ns, Name (buildMeta o)) o); mret (Ok o)) w
      end
  end.

(** [c.ProjectriffClientSet.BuildV1alpha1().FunctionBuilds(ns).UpdateStatus(o)]:
    only the status of the stored object is replaced. *)
Definition FunctionBuilds_UpdateStatus (ns : string) (o : FunctionBuild)
  : M (Result FunctionBuild) :=
  _ ← issue (UpdateStatus ns o);
  match reactor c (UpdateStatus ns o) with
  | Some e => mret (Err e)
  | None =>
      fun w =>
      match functionbuilds w !! (ns, Name (fbMeta o)) with
      | None => Done (Err (NewNotFound (Name (fbMeta o)))) w
      | Some stored =>
          let o' := mkFunctionBuild (fbMeta stored) (fbSpec stored) (fbStatus o) in
          (_ ← setFunctionbuilds (insert (ns, Name (fbMeta o)) o'); mret (Ok o')) w
      end
  end.

(** [c.resolver.Resolve(image, opt, skipRegistries)] *)
Definition resolver_Resolve (image : string) (opt : Options) (skip : gset string)
  : M (Result string) :=
  _ ← issue (Resolve image opt skip);
  mret (resolver c image opt skip).

(** [c.Recorder.Eventf(obj, eventtype, reason, format, args...)] *)
Definition Recorder_Eventf (eventtype reason message : string) : M unit :=
  issue (Eventf eventtype reason message).

End Clients.

(** ** Functions the reconciler calls whose sources are not part of the tree

    They are parameters of the development: every theorem about the
    reconciler holds for whatever these functions compute. *)

(** Packages [resources] and [resources/names]. *)
Class ResourcesPackage := {
  MakeBuildCache : FunctionBuild -> Result (option PersistentVolumeClaim);
  MakeBuild : FunctionBuild -> Result (option Build);
  names_BuildCache : FunctionBuild -> string;
  names_Build : FunctionBuild -> string
}.

(** [FunctionBuild.SetDefaults] and the methods of [FunctionBuildStatus].
    Defaulting acts on the spec, as [Deployer.Default] does by calling
    [DeployerSpec.Default]; the status methods act on the status. *)
Class Lifecycle := {
  SetDefaults : FunctionBuildSpec -> FunctionBuildSpec;
  InitializeConditions : FunctionBuildStatus -> FunctionBuildStatus;
  MarkBuildCacheNotOwned : string -> FunctionBuildStatus -> FunctionBuildStatus;
  MarkBuildCacheNotUsed : FunctionBuildStatus -> FunctionBuildStatus;
  PropagateBuildCacheStatus :
    PersistentVolumeClaimStatus -> FunctionBuildStatus -> FunctionBuildStatus;
  MarkBuildNotOwned : string -> FunctionBuildStatus -> FunctionBuildStatus;
  PropagateBuildStatus : BuildStatus -> FunctionBuildStatus -> FunctionBuildStatus;
  IsReady : FunctionBuildStatus -> bool;
  MarkImageMissing : string -> FunctionBuildStatus -> FunctionBuildStatus
}.

(** The [%q] verb of [fmt] and [kmp.SafeDiff]. *)
Class Formatting := {
  quote : string -> string;
  SafeDiffPersistentVolumeClaimSpec :
    PersistentVolumeClaimSpec -> PersistentVolumeClaimSpec -> Result string;
  SafeDiffBuildSpec : BuildSpec -> BuildSpec -> Result string
}.

(** ** [cache.SplitMetaNamespaceKey] *)

Definition slash : Ascii.ascii := Ascii.ascii_of_nat 47.

(** [strings.Split(s, sep)] for the separator [/] *)
Fixpoint splitSlash (s : string) : list string :=
  match s with
  | EmptyString => [EmptyString]
  | String a s' =>
      if Ascii.eqb a slash then EmptyString :: splitSlash s'
      else match splitSlash s' with
           | [] => [String a EmptyString]
           | p :: ps => String a p :: ps
           end
  end.

Definition SplitMetaNamespaceKey `{Formatting} (key : string) : Result (string * string) :=
  match splitSlash key with
  | [name] => Ok ("", name)
  | [namespace; name] => Ok (namespace, name)
  | _ => Err (Errorf ("unexpected key format: " ++ quote key))
  end.

(** ** Field updates on the objects *)

Definition setStatus (fb : FunctionBuild) (s : FunctionBuildStatus) : FunctionBuild :=
  mkFunctionBuild (fbMeta fb) (fbSpec fb) s.

Definition setSpec (fb : FunctionBuild) (s : FunctionBuildSpec) : FunctionBuild :=
  mkFunctionBuild (fbMeta fb) s (fbStatus fb).

Definition setBuildCacheName (n : string) (s : FunctionBuildStatus) : FunctionBuildStatus :=
  mkFunctionBuildStatus (StatusConditions s) (ObservedGeneration s) n
    (BuildName s) (LatestImage s).

Definition setBuildName (n : string) (s : FunctionBuildStatus) : FunctionBuildStatus :=
  mkFunctionBuildStatus (StatusConditions s) (ObservedGeneration s)
    (BuildCacheName s) n (LatestImage s).

Definition setLatestImage (d : string) (s : FunctionBuildStatus) : FunctionBuildStatus :=
  mkFunctionBuildStatus (StatusConditions s) (ObservedGeneration s)
    (BuildCacheName s) (BuildName s) d.

Definition setObservedGeneration (g : Z) (s : FunctionBuildStatus) : FunctionBuildStatus :=
  mkFunctionBuildStatus (StatusConditions s) g
    (BuildCacheName s) (BuildName s) (LatestImage s).

Definition setMetaLabels (m : ObjectMeta) (l : StringMap) : ObjectMeta :=
  mkObjectMeta (Name m) (Namespace m) (UID m) (ResourceVersion m)
    (Generation m) (CreationTimestamp m) (DeletionTimestamp m)
    l (Annotations m) (OwnerReferences m).

Definition setSpecResources (s : PersistentVolumeClaimSpec) (r : ResourceRequirements)
  : PersistentVolumeClaimSpec :=
  mkPVCSpec (AccessModes s) r (VolumeName s) (StorageClassName s).

(** ** The FunctionBuild reconciler *)

Section FunctionBuildReconciler.
Context `{ResourcesPackage, Lifecycle, Formatting}.
Variable c : Reconciler.

(** [func buildCacheSemanticEquals] *)
Definition buildCacheSemanticEquals (desiredBuildCache buildCache : PersistentVolumeClaim) : bool :=
  semanticResourceRequirements (Resources (pvcSpec desiredBuildCache))
                               (Resources (pvcSpec buildCache))
  && semanticStringMap (Labels (pvcMeta desiredBuildCache)) (Labels (pvcMeta buildCache)).

(** [func buildSemanticEquals] *)
Definition buildSemanticEquals (desiredBuild build : Build) : bool :=
  semanticBuildSpec (buildSpec desiredBuild) (buildSpec build)
  && semanticStringMap (Labels (buildMeta desiredBuild)) (Labels (buildMeta build)).

(** The object [reconcileBuildCache] hands to [Update]: the observed
    claim with [Spec.Resources] and [ObjectMeta.Labels] taken from the
    desired one. *)
Definition existingBuildCache (desiredBuildCache buildCache : PersistentVolumeClaim)
  : PersistentVolumeClaim :=
  mkPVC (setMetaLabels (pvcMeta buildCache) (Labels (pvcMeta desiredBuildCache)))
        (setSpecResources (pvcSpec buildCache) (Resources (pvcSpec desiredBuildCache)))
        (pvcStatus buildCache).

(** The object [reconcileBuild] hands to [Update]: the observed build
    with [Spec] and [ObjectMeta.Labels] taken from the desired one. *)
Definition existingBuild (desiredBuild build : Build) : Build :=
  mkBuild (setMetaLabels (buildMeta build) (Labels (buildMeta desiredBuild)))
          (buildSpec desiredBuild)
          (buildStatus build).

Definition someResult {A} (r : Result A) : Result (option A) :=
  match r with Ok a => Ok (Some a) | Err e => Err e end.

(** [func (c *Reconciler) createBuildCache] *)
Definition createBuildCache (functionbuild : FunctionBuild)
  : M (Result (option PersistentVolumeClaim)) :=
  match MakeBuildCache functionbuild with
  | Err err => mret (Err err)
  | Ok None => mret (Ok None)
  | Ok (Some buildCache) =>
      r ← PersistentVolumeClaims_Create c (Namespace (fbMeta functionbuild)) buildCache;
      mret (someResult r)
  end.

(** [func (c *Reconciler) reconcileBuildCache] *)
Definition reconcileBuildCache (functionbuild : FunctionBuild)
    (buildCache : PersistentVolumeClaim)
  : M (Result (option PersistentVolumeClaim)) :=
  match MakeBuildCache functionbuild with
  | Err err => mret (Err err)
  | Ok None =>
      d ← PersistentVolumeClaims_Delete c (Namespace (fbMeta functionbuild))
            (Name (pvcMeta buildCache)) (UID (pvcMeta buildCache));
      mret (match d with Some err => Err err | None => Ok None end)
  | Ok (Some desiredBuildCache) =>
      if buildCacheSemanticEquals desiredBuildCache buildCache
      then mret (Ok (Some buildCache))
      else
        match SafeDiffPersistentVolumeClaimSpec
                (pvcSpec desiredBuildCache) (pvcSpec buildCache) with
        | Err err =>
            mret (Err (Errorf ("failed to diff PersistentVolumeClaim: " ++ Error err)))
        | Ok _ =>
            r ← PersistentVolumeClaims_Update c (Namespace (fbMeta functionbuild))
                  (existingBuildCache desiredBuildCache buildCache);
            mret (someResult r)
        end
  end.

(** [func (c *Reconciler) createBuild] *)
Definition createBuild (functionbuild : FunctionBuild) : M (Result (option Build)) :=
  match MakeBuild functionbuild with
  | Err err => mret (Err err)
  | Ok None => mret (Ok None)
  | Ok (Some build) =>
      r ← Builds_Create c (Namespace (fbMeta functionbuild)) build;
      mret (someResult r)
  end.

(** [func (c *Reconciler) reconcileBuild]; a nil desired build is
    dereferenced by [buildSemanticEquals]. *)
Definition reconcileBuild (functionbuild : FunctionBuild) (build : Build)
  : M (Result (option Build)) :=
  match MakeBuild functionbuild with
  | Err err => mret (Err err)
  | Ok None => panic
  | Ok (Some desiredBuild) =>
      if buildSemanticEquals desiredBuild build
      then mret (Ok (Some build))
      else
        match SafeDiffBuildSpec (buildSpec desiredBuild) (buildSpec build) with
        | Err err => mret (Err (Errorf ("failed to diff Build: " ++ Error err)))
        | Ok _ =>
            r ← Builds_Update c (Namespace (fbMeta functionbuild))
                  (existingBuild desiredBuild build);
            mret (someResult r)
        end
  end.

(** [func (c *Reconciler) updateStatus] (the log line about becoming
    ready has no effect on the cluster and is left out). *)
Definition updateStatus (desired : FunctionBuild) : M (Result FunctionBuild) :=
  r ← functionbuildLister_Get c (Namespace (fbMeta desired)) (Name (fbMeta desired));
  match r with
  | Err err => mret (Err err)
  | Ok functionbuild =>
      if reflectStatus (fbStatus functionbuild) (fbStatus desired)
      then mret (Ok functionbuild)
      else
        let existing := setStatus functionbuild (fbStatus desired) in
        FunctionBuilds_UpdateStatus c (Namespace (fbMeta desired)) existing
  end.

(** The first if-chain of [reconcile]: fetch the build cache by its
    canonical name, then create it, report it as not owned, or converge
    it.  Returns the functionbuild as mutated so far and either the
    observed build cache (nil when none is used) or the error
    [reconcile] returns. *)
Definition reconcile_buildCache (functionbuild : FunctionBuild)
  : M (FunctionBuild * Result (option PersistentVolumeClaim)) :=
  let buildCacheName := names_BuildCache functionbuild in
  r ← pvcLister_Get c (Namespace (fbMeta functionbuild)) buildCacheName;
  match r with
  | Err err =>
      if IsNotFound err then
        r' ← createBuildCache functionbuild;
        match r' with
        | Err err' =>
            _ ← Recorder_Eventf "Warning" "CreationFailed"
                  ("Failed to create PersistentVolumeClaim " ++ quote buildCacheName
                     ++ ": " ++ Error err');
            mret (functionbuild, Err err')
        | Ok None => mret (functionbuild, Ok None)
        | Ok (Some buildCache) =>
            _ ← Recorder_Eventf "Normal" "Created"
                  ("Created PersistentVolumeClaim " ++ quote buildCacheName);
            mret (functionbuild, Ok (Some buildCache))
        end
      else mret (functionbuild, Err err)
  | Ok buildCache =>
      if negb (IsControlledBy (pvcMeta buildCache) (fbMeta functionbuild)) then
        mret (setStatus functionbuild
                (MarkBuildCacheNotOwned buildCacheName (fbStatus functionbuild)),
              Err (Errorf ("FunctionBuild: " ++ quote (Name (fbMeta functionbuild))
                             ++ " does not own PersistentVolumeClaim: "
                             ++ quote buildCacheName)))
      else
        r' ← reconcileBuildCache functionbuild buildCache;
        match r' with
        | Err err => mret (functionbuild, Err err)
        | Ok None =>
            _ ← Recorder_Eventf "Normal" "Deleted"
                  ("Deleted PersistentVolumeClaim " ++ quote buildCacheName);
            mret (functionbuild, Ok None)
        | Ok (Some buildCache') => mret (functionbuild, Ok (Some buildCache'))
        end
  end.

(** The second if-chain of [reconcile], for the build. *)
Definition reconcile_build (functionbuild : FunctionBuild)
  : M (FunctionBuild * Result (option Build)) :=
  let buildName := names_Build functionbuild in
  r ← knbuildLister_Get c (Namespace (fbMeta functionbuild)) buildName;
  match r with
  | Err err =>
      if IsNotFound err then
        r' ← createBuild functionbuild;
        match r' with
        | Err err' =>
            _ ← Recorder_Eventf "Warning" "CreationFailed"
                  ("Failed to create Build " ++ quote buildName ++ ": " ++ Error err');
            mret (functionbuild, Err err')
        | Ok None => mret (functionbuild, Ok None)
        | Ok (Some build) =>
            _ ← Recorder_Eventf "Normal" "Created" ("Created Build " ++ quote buildName);
            mret (functionbuild, Ok (Some build))
        end
      else mret (functionbuild, Err err)
  | Ok build =>
      if negb (IsControlledBy (buildMeta build) (fbMeta functionbuild)) then
        mret (setStatus functionbuild
                (MarkBuildNotOwned buildName (fbStatus functionbuild)),
              Err (Errorf ("FunctionBuild: " ++ quote (Name (fbMeta functionbuild))
                             ++ " does not own Build: " ++ quote buildName)))
      else
        r' ← reconcileBuild functionbuild build;
        mret (functionbuild, r')
  end.

(** The tail of [reconcile]: propagate the build's status, resolve the
    image digest when the functionbuild is ready, record the observed
    generation.  A nil build is dereferenced by [build.Name]. *)
Definition reconcile_image (functionbuild : FunctionBuild) (build : option Build)
  : M (FunctionBuild * option error) :=
  match build with
  | None => panic
  | Some build =>
      let functionbuild :=
        setStatus functionbuild
          (PropagateBuildStatus (buildStatus build)
             (setBuildName (Name (buildMeta build)) (fbStatus functionbuild))) in
      if IsReady (fbStatus functionbuild) then
        let opt := mkOptions (Namespace (fbMeta functionbuild))
                             (bsServiceAccountName (buildSpec build)) in
        let skipRegistries : gset string := {[ "ko.local"; "dev.local" ]} in
        r ← resolver_Resolve c (Image (fbSpec functionbuild)) opt skipRegistries;
        match r with
        | Err err =>
            mret (setStatus functionbuild
                    (MarkImageMissing
                       ("Unable to fetch image " ++ quote (Image (fbSpec functionbuild))
                          ++ ": " ++ Error err)
                       (fbStatus functionbuild)),
                  Some err)
        | Ok digest =>
            let functionbuild :=
              setStatus functionbuild (setLatestImage digest (fbStatus functionbuild)) in
            mret (setStatus functionbuild
                    (setObservedGeneration (Generation (fbMeta functionbuild))
                       (fbStatus functionbuild)),
                  None)
        end
      else
        mret (setStatus functionbuild
                (setObservedGeneration (Generation (fbMeta functionbuild))
                   (fbStatus functionbuild)),
              None)
  end.

(** [func (c *Reconciler) reconcile]: returns the functionbuild as the
    Go code leaves it behind the pointer, and the returned error. *)
Definition reconcile (functionbuild : FunctionBuild) : M (FunctionBuild * option error) :=
  match DeletionTimestamp (fbMeta functionbuild) with
  | Some _ => mret (functionbuild, None)
  | None =>
      let functionbuild := setSpec functionbuild (SetDefaults (fbSpec functionbuild)) in
      let functionbuild :=
        setStatus functionbuild (InitializeConditions (fbStatus functionbuild)) in
      '(functionbuild, r) ← reconcile_buildCache functionbuild;
      match r with
      | Err err => mret (functionbuild, Some err)
      | Ok buildCache =>
          let functionbuild :=
            match buildCache with
            | None =>
                setStatus functionbuild (MarkBuildCacheNotUsed (fbStatus functionbuild))
            | Some buildCache =>
                setStatus functionbuild
                  (PropagateBuildCacheStatus (pvcStatus buildCache)
                     (setBuildCacheName (Name (pvcMeta buildCache))
                        (fbStatus functionbuild)))
            end in
          '(functionbuild, r) ← reconcile_build functionbuild;
          match r with
          | Err err => mret (functionbuild, Some err)
          | Ok build => reconcile_image functionbuild build
          end
      end
  end.

(** [func (c *Reconciler) Reconcile] *)
Definition Reconcile (key : string) : M (option error) :=
  match SplitMetaNamespaceKey key with
  | Err _ => mret None
  | Ok (namespace, name) =>
      r ← functionbuildLister_Get c namespace name;
      match r with
      | Err err => if IsNotFound err then mret None else mret (Some err)
      | Ok original =>
          '(functionbuild, err) ← reconcile original;
          if semanticStatus (fbStatus original) (fbStatus functionbuild) then mret err
          else
            u ← updateStatus functionbuild;
            match u with
            | Err uErr =>
                _ ← Recorder_Eventf "Warning" "UpdateFailed"
                      ("Failed to update status for FunctionBuild "
                         ++ quote (Name (fbMeta functionbuild)) ++ ": " ++ Error uErr);
                mret (Some uErr)
            | Ok _ =>
                match err with
                | None =>
                    _ ← Recorder_Eventf "Normal" "Updated"
                          ("Updated FunctionBuild " ++ quote (Name (fbMeta functionbuild)));
                    mret err
                | Some _ => mret err
                end
            end
      end
  end.

End FunctionBuildReconciler.

(** ** The condition aggregator *)

Module ConditionSet.

Definition Ready : ConditionType := "Ready".

Definition unknown : Condition := mkCondition ConditionUnknown "" "".

(** Modelled from the spec: the status of a tracked condition type in a
    condition set; [Unknown] is the initial value of every tracked type,
    so a type that was never set reads as [Unknown]. *)
Definition statusOf (cs : Conditions) (t : ConditionType) : ConditionStatus :=
  match cs !! t with Some c => Status c | None => ConditionUnknown end.

Definition conditionOf (cs : Conditions) (t : ConditionType) : Condition :=
  default unknown (cs !! t).

Definition isFalse (cs : Conditions) (t : ConditionType) : bool :=
  bool_decide (statusOf cs t = ConditionFalse).

Definition isUnknown (cs : Conditions) (t : ConditionType) : bool :=
  bool_decide (statusOf cs t = ConditionUnknown).

(** Modelled from the spec: the [Ready] aggregation rule of the Condition
    Aggregator, for the dependency types [deps] a controller declares up
    front, scanned in their declared order.  The first [False] dependency
    gives [Ready] its status, reason and message; otherwise [Ready] is
    [Unknown] if some dependency is [Unknown], and [True] if none is. *)
Definition deriveReady (deps : list ConditionType) (cs : Conditions) : Condition :=
  match find (isFalse cs) deps with
  | Some t =>
      mkCondition ConditionFalse (Reason (conditionOf cs t)) (Message (conditionOf cs t))
  | None =>
      if existsb (isUnknown cs) deps
      then mkCondition ConditionUnknown "" ""
      else mkCondition ConditionTrue "" ""
  end.

(** Modelled from the spec: [Ready] is derived, never set directly; every
    change of a dependency condition is followed by this step. *)
Definition aggregate (deps : list ConditionType) (cs : Conditions) : Conditions :=
  <[Ready := deriveReady deps cs]> cs.

(** Modelled from the spec: [InitializeConditions] adds every missing
    tracked type (and [Ready]) as [Unknown] and never overwrites an
    existing condition. *)
Definition InitializeConditions (deps : list ConditionType) (cs : Conditions) : Conditions :=
  foldr (fun t acc => match acc !! t with Some _ => acc | None => <[t := unknown]> acc end)
        cs (Ready :: deps).

(** Setting one dependency condition. *)
Definition mark (deps : list ConditionType) (t : ConditionType) (c : Condition)
    (cs : Conditions) : Conditions :=
  aggregate deps (<[t := c]> cs).

(** Modelled from the spec: [MarkXNotOwned(name)] sets condition [X] to
    [False] with reason [NotOwned] and a message that names the
    conflicting child; [Ready] follows by the aggregation rule. *)
Definition MarkNotOwned (deps : list ConditionType) (t : ConditionType)
    (kind owner name : string) (cs : Conditions) : Conditions :=
  mark deps t
    (mkCondition ConditionFalse "NotOwned"
       ("There is an existing " ++ kind ++ " " ++ name ++ " that the "
          ++ owner ++ " does not own."))
    cs.

(** Modelled from the spec: [PropagateChildStatus] copies the status,
    reason and message of the child's own readiness condition verbatim
    onto the owner-side type; a child without a readiness condition
    leaves the owner's conditions as they are. *)
Definition PropagateChildStatus (deps : list ConditionType) (t : ConditionType)
    (child : Conditions) (cs : Conditions) : Conditions :=
  match child !! Ready with
  | Some c => mark deps t (mkCondition (Status c) (Reason c) (Message c)) cs
  | None => cs
  end.

(** The operations through which a reconciler changes a dependency
    condition. *)
Inductive Op :=
| OpMark (t : ConditionType) (c : Condition)
| OpNotOwned (t : ConditionType) (kind owner name : string)
| OpPropagate (t : ConditionType) (readiness : Condition).

Definition apply (deps : list ConditionType) (o : Op) (cs : Conditions) : Conditions :=
  match o with
  | OpMark t c => mark deps t c cs
  | OpNotOwned t kind owner name => MarkNotOwned deps t kind owner name cs
  | OpPropagate t r => PropagateChildStatus deps t {[ Ready := r ]} cs
  end.

Definition opType (o : Op) : ConditionType :=
  match o with OpMark t _ | OpNotOwned t _ _ _ | OpPropagate t _ => t end.

(** The first dependency in declared order that is [False]. *)
Definition FirstFalse (deps : list ConditionType) (cs : Conditions) (t : ConditionType) : Prop :=
  exists before after,
    deps = (before ++ t :: after)%list
    /\ statusOf cs t = ConditionFalse
    /\ Forall (fun u => statusOf cs u <> ConditionFalse) before.

End ConditionSet.

(** The condition types of the Deployer, as the table test declares them. *)
Definition DeployerConditionConfigurationReady : ConditionType := "ConfigurationReady".
Definition DeployerConditionRouteReady : ConditionType := "RouteReady".
Definition deployerDependents : list ConditionType :=
  [DeployerConditionConfigurationReady; DeployerConditionRouteReady].

(** ** The child synchronizer for multi-instance child kinds *)

Module ChildSynchronizer.

Inductive Call (Child : Type) :=
| Create (o : Child)
| Update (o : Child)
| Delete (ns name uid : string).
Arguments Create {Child} o.
Arguments Update {Child} o.
Arguments Delete {Child} ns name uid.

Definition isCreate {Child} (k : Call Child) : bool :=
  match k with Create _ => true | _ => false end.
Definition isDelete {Child} (k : Call Child) : bool :=
  match k with Delete _ _ _ => true | _ => false end.

(** The objects of one child kind, and the calls issued so far (oldest
    first). *)
Record Store (Child : Type) := mkStore {
  objects : list Child;
  calls : list (Call Child)
}.
Arguments mkStore {Child} objects calls.
Arguments objects {Child} s.
Arguments calls {Child} s.

(** The outcome of one convergence. *)
Inductive Converged (Child : Type) :=
| Observed (o : option Child)
| NotOwned (name : string)
| Failed (e : error).
Arguments Observed {Child} o.
Arguments NotOwned {Child} name.
Arguments Failed {Child} e.

Section Converge.
Context {Child : Type}.
(** The three behaviours a child kind injects, and its metadata. *)
Variable meta : Child -> ObjectMeta.
Variable semanticEquals : Child -> Child -> bool.
Variable copyOwned : Child -> Child -> Child.
(** Which of several owned children is the canonical one. *)
Variable select : list Child -> option Child.
(** The correlation label. *)
Variable labelKey : string.
(** Induced failures of the object store. *)
Variable fails : Call Child -> option error.

Definition sameObject (ns name : string) (o : Child) : bool :=
  String.eqb (Namespace (meta o)) ns && String.eqb (Name (meta o)) name.

Definition lookupObject (ns name : string) (s : Store Child) : option Child :=
  find (sameObject ns name) (objects s).

Definition logCall (k : Call Child) (s : Store Child) : Store Child :=
  mkStore (objects s) (calls s ++ [k])%list.

Definition createObject (o : Child) (s : Store Child) : Result Child * Store Child :=
  let s := logCall (Create o) s in
  match fails (Create o) with
  | Some e => (Err e, s)
  | None =>
      match lookupObject (Namespace (meta o)) (Name (meta o)) s with
      | Some _ => (Err (NewAlreadyExists (Name (meta o))), s)
      | None => (Ok o, mkStore (objects s ++ [o])%list (calls s))
      end
  end.

Definition updateObject (o : Child) (s : Store Child) : Result Child * Store Child :=
  let s := logCall (Update o) s in
  match fails (Update o) with
  | Some e => (Err e, s)
  | None =>
      match lookupObject (Namespace (meta o)) (Name (meta o)) s with
      | None => (Err (NewNotFound (Name (meta o))), s)
      | Some _ =>
          (Ok o,
           mkStore (map (fun x => if sameObject (Namespace (meta o)) (Name (meta o)) x
                                  then o else x) (objects s))
                   (calls s))
      end
  end.

(** Modelled from the spec: a delete carries a precondition on the
    child's identity. *)
Definition deleteObject (o : Child) (s : Store Child) : option error * Store Child :=
  let k := Delete (Namespace (meta o)) (Name (meta o)) (UID (meta o)) in
  let s := logCall k s in
  match fails k with
  | Some e => (Some e, s)
  | None =>
      match lookupObject (Namespace (meta o)) (Name (meta o)) s with
      | None => (Some (NewNotFound (Name (meta o))), s)
      | Some x =>
          if String.eqb (UID (meta x)) (UID (meta o))
          then (None,
                mkStore (List.filter
                           (fun y => negb (sameObject (Namespace (meta o))
                                                      (Name (meta o)) y))
                           (objects s))
                        (calls s))
          else (Some (NewConflict (Name (meta o))), s)
      end
  end.

(** The delete call issued for a child. *)
Definition deleteCall (o : Child) : Call Child :=
  Delete (Namespace (meta o)) (Name (meta o)) (UID (meta o)).

Definition hasLabel (k v : string) (m : ObjectMeta) : bool :=
  bool_decide (default ∅ (Labels m) !! k = Some v).

(** Modelled from the spec: the children that carry the owner's
    correlation label within the owner's namespace. *)
Definition listChildren (owner : ObjectMeta) (s : Store Child) : list Child :=
  List.filter (fun o => String.eqb (Namespace (meta o)) (Namespace owner)
                        && hasLabel labelKey (Name owner) (meta o))
              (objects s).

(** Modelled from the spec: the listed children are partitioned into
    those controller-owned by this owner and the foreign ones; foreign
    matches are ignored and never deleted. *)
Definition ownedChildren (owner : ObjectMeta) (s : Store Child) : list Child :=
  List.filter (fun o => IsControlledBy (meta o) owner) (listChildren owner s).

(** Modelled from the spec: a single owned child is the observed one;
    among several, [select] names the canonical one. *)
Definition canonicalOf (owned : list Child) : option Child :=
  match owned with
  | [] => None
  | [o] => Some o
  | _ => select owned
  end.

(** Modelled from the spec: the extras are the owned children other
    than the canonical one. *)
Definition extrasOf (canonical : option Child) (owned : list Child) : list Child :=
  match canonical with
  | None => owned
  | Some k =>
      List.filter (fun o => negb (sameObject (Namespace (meta k)) (Name (meta k)) o))
                  owned
  end.

(** Modelled from the spec: extras are deleted one after the other; a
    deletion failure is surfaced as the error of this cycle, the
    remaining extras are left for the next cycle and the deletions
    that succeeded stay done. *)
Fixpoint deleteExtras (extras : list Child) (s : Store Child)
  : option error * Store Child :=
  match extras with
  | [] => (None, s)
  | e :: rest =>
      match deleteObject e s with
      | (Some err, s') => (Some err, s')
      | (None, s') => deleteExtras rest s'
      end
  end.

(** Modelled from the spec: a non-owned child that already has the
    name the desired child would get. *)
Definition conflict (owner : ObjectMeta) (desired : option Child) (s : Store Child)
  : option string :=
  match desired with
  | None => None
  | Some d =>
      if String.eqb (Name (meta d)) "" then None
      else
        match lookupObject (Namespace owner) (Name (meta d)) s with
        | Some o => if IsControlledBy (meta o) owner then None
                    else Some (Name (meta d))
        | None => None
        end
  end.

(** Modelled from the spec: the convergence algorithm of the Child
    Synchronizer.  On an ownership conflict nothing is mutated.
    Otherwise the extras are deleted, and then the canonical child is
    created when it is desired and absent (an already-exists failure
    is tolerated), updated with the owned fields copied onto the
    observed object when it differs semantically, deleted when it is
    no longer desired, and left alone when it is equal. *)
Definition Converge (owner : ObjectMeta) (desired : option Child) (s : Store Child)
  : Converged Child * Store Child :=
  match conflict owner desired s with
  | Some name => (NotOwned name, s)
  | None =>
      let owned := ownedChildren owner s in
      let canonical := canonicalOf owned in
      match deleteExtras (extrasOf canonical owned) s with
      | (Some err, s1) => (Failed err, s1)
      | (None, s1) =>
          match desired, canonical with
          | None, None => (Observed None, s1)
          | None, Some o =>
              match deleteObject o s1 with
              | (Some err, s2) => (Failed err, s2)
              | (None, s2) => (Observed None, s2)
              end
          | Some d, None =>
              match createObject d s1 with
              | (Ok o, s2) => (Observed (Some o), s2)
              | (Err (StatusError StatusReasonAlreadyExists _), s2) => (Observed None, s2)
              | (Err err, s2) => (Failed err, s2)
              end
          | Some d, Some o =>
              if semanticEquals d o then (Observed (Some o), s1)
              else
                match updateObject (copyOwned d o) s1 with
                | (Ok o', s2) => (Observed (Some o'), s2)
                | (Err err, s2) => (Failed err, s2)
                end
          end
      end
  end.

(** The calls a run added to the trace. *)
Definition issued (s s' : Store Child) : list (Call Child) :=
  drop (length (calls s)) (calls s').

End Converge.

(** Modelled from the spec: the most recently created child is the
    canonical one (the earliest listed among equally recent ones). *)
Definition mostRecentlyCreated {Child} (meta : Child -> ObjectMeta) (l : list Child)
  : option Child :=
  foldl (fun (best : option Child) (o : Child) =>
           match best with
           | None => Some o
           | Some b =>
               if (CreationTimestamp (meta b) <? CreationTimestamp (meta o))%Z
               then Some o else Some b
           end) None l.

End ChildSynchronizer.

(** ** Predicates used to state what a run does to the world *)

(** A computation respects a relation between worlds when every run,
    returning or panicking, relates the world it starts in to the world
    it ends in. *)
Definition respects {A} (R : World -> World -> Prop) (m : M A) : Prop :=
  forall w, match m w with Done _ w' => R w w' | Panic w' => R w w' end.

(** The trace only grows, and by actions that satisfy [P]. *)
Definition grows (P : Action -> bool) (w w' : World) : Prop :=
  exists acts, trace w' = (trace w ++ acts)%list /\ forallb P acts = true.

(** A component of the world is left as it was. *)
Definition keeps {X} (f : World -> X) (w w' : World) : Prop := f w' = f w.

Definition isEvent (a : Action) : bool :=
  match a with Eventf _ _ _ => true | _ => false end.

(** What a computation may touch: the actions it may issue and the stores
    it leaves as they were (a [true] flag says the store is kept). *)
Definition footprint (P : Action -> bool) (keepF keepP keepB : bool) (w w' : World) : Prop :=
  (keepF = true -> functionbuilds w' = functionbuilds w)
  /\ (keepP = true -> pvcs w' = pvcs w)
  /\ (keepB = true -> builds w' = builds w)
  /\ grows P w w'.

Definition orAction (P Q : Action -> bool) (a : Action) : bool := P a || Q a.
Definition noAction (a : Action) : bool := false.

Definition notStatusWrite (a : Action) : bool := negb (isStatusWrite a).

(** Every returning run of a computation returns a value that satisfies [Q]. *)
Definition yields {A} (Q : A -> Prop) (m : M A) : Prop :=
  forall w a w', m w = Done a w' -> Q a.

(** The stages of the owner inside [reconcile]: after defaulting and
    condition initialization, after the build cache was observed, and
    after the build was observed. *)
Section Stages.
Context `{Lifecycle}.

Definition initialized (fb : FunctionBuild) : FunctionBuild :=
  setStatus (setSpec fb (SetDefaults (fbSpec fb))) (InitializeConditions (fbStatus fb)).

Definition withBuildCache (fb : FunctionBuild) (buildCache : option PersistentVolumeClaim)
  : FunctionBuild :=
  match buildCache with
  | None => setStatus fb (MarkBuildCacheNotUsed (fbStatus fb))
  | Some buildCache =>
      setStatus fb
        (PropagateBuildCacheStatus (pvcStatus buildCache)
           (setBuildCacheName (Name (pvcMeta buildCache)) (fbStatus fb)))
  end.

Definition withBuild (fb : FunctionBuild) (build : Build) : FunctionBuild :=
  setStatus fb
    (PropagateBuildStatus (buildStatus build)
       (setBuildName (Name (buildMeta build)) (fbStatus fb))).
End Stages.

(** The two conflict errors of [reconcile]. *)
Definition notOwnedError `{Formatting} (owner kind child : string) : error :=
  Errorf ("FunctionBuild: " ++ quote owner ++ " does not own " ++ kind ++ ": " ++ quote child).

(** The world in which a run ends. *)
Definition worldOf {A} (o : Outcome A) : World :=
  match o with Done _ w => w | Panic w => w end.

(** Objects are stored under their own namespace and name. *)
Definition keyedByName (w : World) : Prop :=
  forall ns name o,
    functionbuilds w !! (ns, name) = Some o ->
    Namespace (fbMeta o) = ns /\ Name (fbMeta o) = name.

(** The inner pass of [Reconcile] on a key: the namespace, the owner as
    fetched and the owner as [reconcile] leaves it, when the key is well
    formed, the fetch succeeds and [reconcile] returns. *)
Definition innerPass `{ResourcesPackage, Lifecycle, Formatting} (c : Reconciler)
    (key : string) (w : World) : option (string * FunctionBuild * FunctionBuild) :=
  match SplitMetaNamespaceKey key with
  | Ok (ns, name) =>
      match functionbuildLister_Get c ns name w with
      | Done (Ok original) _ =>
          match reconcile c original w with
          | Done (functionbuild, _) _ => Some (ns, original, functionbuild)
          | Panic _ => None
          end
      | _ => None
      end
  | Err _ => None
  end.

(** The status writes the driver is expected to issue after an inner pass. *)
Definition expectedStatusWrites (pass : option (string * FunctionBuild * FunctionBuild))
  : list Action :=
  match pass with
  | Some (ns, original, functionbuild) =>
      if bool_decide (fbStatus original = fbStatus functionbuild) then []
      else [UpdateStatus ns (setStatus original (fbStatus functionbuild))]
  | None => []
  end.

(** The world after one more action was issued. *)
Definition withAction (w : World) (a : Action) : World :=
  mkWorld (functionbuilds w) (pvcs w) (builds w) (trace w ++ [a])%list.

(** The arguments of the digest resolution, and the message of the
    condition that reports its failure. *)
Definition skipRegistries : gset string := {[ "ko.local"; "dev.local" ]}.

Definition resolveOptions (fb : FunctionBuild) (build : Build) : Options :=
  mkOptions (Namespace (fbMeta fb)) (bsServiceAccountName (buildSpec build)).

Definition imageMissingMessage `{Formatting} (image : string) (err : error) : string :=
  "Unable to fetch image " ++ quote image ++ ": " ++ Error err.

(** ** Quiescence: what a second cycle relies on *)

(** The listers answer from the store. *)
Definition reliableListers (c : Reconciler) : Prop :=
  forall r, readReactor c r = None.

(** The store accepts every call that is well formed: no failure is
    induced on a create, an update or a delete. *)
Definition acceptingStore (c : Reconciler) : Prop :=
  forall a, reactor c a = None.

(** Children are stored under their own name. *)
Definition childrenKeyedByName (w : World) : Prop :=
  (forall ns name o, pvcs w !! (ns, name) = Some o -> Name (pvcMeta o) = name)
  /\ (forall ns name o, builds w !! (ns, name) = Some o -> Name (buildMeta o) = name).

(** What the reconciler assumes of the packages [resources] and
    [resources/names]: the desired children and their names are computed
    from the owner's metadata and spec, not from its status, and a desired
    child carries the canonical name and the owner's controller
    reference. *)
Class ResourcesLaws `{ResourcesPackage} : Prop := {
  MakeBuildCache_status : forall fb s, MakeBuildCache (setStatus fb s) = MakeBuildCache fb;
  MakeBuild_status : forall fb s, MakeBuild (setStatus fb s) = MakeBuild fb;
  names_BuildCache_status :
    forall fb s, names_BuildCache (setStatus fb s) = names_BuildCache fb;
  names_Build_status : forall fb s, names_Build (setStatus fb s) = names_Build fb;
  MakeBuildCache_canonical :
    forall fb d, MakeBuildCache fb = Ok (Some d) ->
                 Name (pvcMeta d) = names_BuildCache fb
                 /\ IsControlledBy (pvcMeta d) (fbMeta fb) = true;
  MakeBuild_canonical :
    forall fb d, MakeBuild fb = Ok (Some d) ->
                 Name (buildMeta d) = names_Build fb
                 /\ IsControlledBy (buildMeta d) (fbMeta fb) = true
}.

(** What an if-chain of [reconcile] made of a child: the child it
    returned, an error it returned as it got it, or a child under the
    canonical name that the owner does not control. *)
Inductive Seen (A : Type) : Type :=
| SeenChild (child : A)
| SeenError (err : error)
| SeenForeign.

Arguments SeenChild {A} child.
Arguments SeenError {A} err.
Arguments SeenForeign {A}.

Section SettledStatus.
Context `{Lifecycle}.

(** The status after the build cache was observed. *)
Definition cacheStatus (buildCache : option PersistentVolumeClaim)
    (s : FunctionBuildStatus) : FunctionBuildStatus :=
  match buildCache with
  | None => MarkBuildCacheNotUsed s
  | Some o =>
      PropagateBuildCacheStatus (pvcStatus o) (setBuildCacheName (Name (pvcMeta o)) s)
  end.

(** The status a cycle ends with, from the status [s] the owner was
    fetched with: [cache] and [build] are what the two if-chains made of
    the children, [resolution] is the answer of the resolver, consulted
    when the owner is ready. *)
Definition cycleStatus `{Formatting} (cacheName buildName image : string) (generation : Z)
    (cache : Seen (option PersistentVolumeClaim)) (build : Seen Build)
    (resolution : Result string) (s : FunctionBuildStatus) : FunctionBuildStatus :=
  let s := InitializeConditions s in
  match cache with
  | SeenError _ => s
  | SeenForeign => MarkBuildCacheNotOwned cacheName s
  | SeenChild buildCache =>
      let s := cacheStatus buildCache s in
      match build with
      | SeenError _ => s
      | SeenForeign => MarkBuildNotOwned buildName s
      | SeenChild build =>
          let st := PropagateBuildStatus (buildStatus build)
                      (setBuildName (Name (buildMeta build)) s) in
          if IsReady st then
            match resolution with
            | Ok digest => setObservedGeneration generation (setLatestImage digest st)
            | Err err => MarkImageMissing (imageMissingMessage image err) st
            end
          else setObservedGeneration generation st
      end
  end.

(** What the reconciler assumes of the status methods: computing the
    status of a cycle from the status the same cycle produced, for the
    same observations, changes nothing. *)
Definition StatusIdempotent `{Formatting} : Prop :=
  forall cacheName buildName image generation cache build resolution s,
    cycleStatus cacheName buildName image generation cache build resolution
      (cycleStatus cacheName buildName image generation cache build resolution s)
    = cycleStatus cacheName buildName image generation cache build resolution s.
End SettledStatus.

(** The build cache the first if-chain of [reconcile] returns is in the
    store as desired, or is neither stored nor desired. *)
Definition quiescentBuildCache `{ResourcesPackage} (fb : FunctionBuild)
    (buildCache : option PersistentVolumeClaim)
    (store : gmap (string * string) PersistentVolumeClaim) : Prop :=
  match buildCache with
  | None =>
      store !! (Namespace (fbMeta fb), names_BuildCache fb) = None
      /\ MakeBuildCache fb = Ok None
  | Some o =>
      store !! (Namespace (fbMeta fb), names_BuildCache fb) = Some o
      /\ IsControlledBy (pvcMeta o) (fbMeta fb) = true
      /\ exists d, MakeBuildCache fb = Ok (Some d)
                   /\ semanticResourceRequirements (Resources (pvcSpec d))
                        (Resources (pvcSpec o))
                      && semanticStringMap (Labels (pvcMeta d)) (Labels (pvcMeta o)) = true
  end.

(** The build the second if-chain returns is in the store as desired. *)
Definition quiescentBuild `{ResourcesPackage} (fb : FunctionBuild) (build : Build)
    (store : gmap (string * string) Build) : Prop :=
  store !! (Namespace (fbMeta fb), names_Build fb) = Some build
  /\ IsControlledBy (buildMeta build) (fbMeta fb) = true
  /\ exists d, MakeBuild fb = Ok (Some d)
               /\ semanticBuildSpec (buildSpec d) (buildSpec build)
                  && semanticStringMap (Labels (buildMeta d)) (Labels (buildMeta build)) = true.

(** What the two if-chains return, given what they made of the child. *)
Definition cacheOutcome `{ResourcesPackage, Lifecycle, Formatting}
    (seen : Seen (option PersistentVolumeClaim)) (fb : FunctionBuild)
  : FunctionBuild * Result (option PersistentVolumeClaim) :=
  match seen with
  | SeenChild buildCache => (fb, Ok buildCache)
  | SeenError err => (fb, Err err)
  | SeenForeign =>
      (setStatus fb (MarkBuildCacheNotOwned (names_BuildCache fb) (fbStatus fb)),
       Err (notOwnedError (Name (fbMeta fb)) "PersistentVolumeClaim" (names_BuildCache fb)))
  end.

Definition buildOutcome `{ResourcesPackage, Lifecycle, Formatting}
    (seen : Seen Build) (fb : FunctionBuild) : FunctionBuild * Result (option Build) :=
  match seen with
  | SeenChild build => (fb, Ok (Some build))
  | SeenError err => (fb, Err err)
  | SeenForeign =>
      (setStatus fb (MarkBuildNotOwned (names_Build fb) (fbStatus fb)),
       Err (notOwnedError (Name (fbMeta fb)) "Build" (names_Build fb)))
  end.

(** The answer of the resolver a cycle for [fb] gets, or would get, for
    the build it observed. *)
Definition resolutionFor `{Lifecycle} (c : Reconciler) (fb : FunctionBuild) (build : Seen Build) : Result string :=
  match build with
  | SeenChild b =>
      resolver c (Image (fbSpec (initialized fb))) (resolveOptions fb b) skipRegistries
  | _ => Ok ""
  end.

(** The status computation of a cycle for [fb] that made [cache] and
    [build] of the children. *)
Definition statusAfter `{ResourcesPackage, Lifecycle, Formatting} (c : Reconciler)
    (fb : FunctionBuild) (cache : Seen (option PersistentVolumeClaim))
    (build : Seen Build) : FunctionBuildStatus -> FunctionBuildStatus :=
  cycleStatus (names_BuildCache (initialized fb)) (names_Build (initialized fb))
    (Image (fbSpec (initialized fb))) (Generation (fbMeta fb))
    cache build (resolutionFor c fb build).

(** What an inner pass returned, for runs that returned. *)
Definition ownerOf (o : Outcome (FunctionBuild * option error)) (fallback : FunctionBuild)
  : FunctionBuild :=
  match o with Done (fb, _) _ => fb | Panic _ => fallback end.

Definition errorOf (o : Outcome (FunctionBuild * option error)) : option error :=
  match o with Done (_, err) _ => err | Panic _ => None end.

(** ** A concrete reconciler, used to run the definitions *)

Module Example.

(** The double quote character, and [%q] on strings without characters
    that need escaping. *)
Definition doubleQuote : string := String (Ascii.ascii_of_nat 34) EmptyString.

#[export] Instance formatting : Formatting := {|
  quote s := doubleQuote ++ s ++ doubleQuote;
  SafeDiffPersistentVolumeClaimSpec _ _ := Ok "";
  SafeDiffBuildSpec _ _ := Ok ""
|}.

Definition FunctionBuildLabelKey : string := "build.projectriff.io/functionbuild".

Definition controllerRef (owner : ObjectMeta) : OwnerReference :=
  mkOwnerReference "FunctionBuild" (Name owner) (UID owner) (Some true).

Definition childMeta (owner : ObjectMeta) (name : string) : ObjectMeta :=
  mkObjectMeta name (Namespace owner) "" "" 0 0 None
    (Some {[ FunctionBuildLabelKey := Name owner ]}) None [controllerRef owner].

Definition cacheSize : Quantity := mkQuantity 8589934592 "8Gi".

(** Desired children that carry the canonical name, the owner's label
    and the owner's controller reference; an owner without an image
    uses no build cache. *)
#[export] Instance resources : ResourcesPackage := {|
  names_BuildCache fb := "build-cache-" ++ Name (fbMeta fb);
  names_Build fb := Name (fbMeta fb);
  MakeBuildCache fb :=
    if String.eqb (Image (fbSpec fb)) "" then Ok None
    else Ok (Some (mkPVC (childMeta (fbMeta fb) ("build-cache-" ++ Name (fbMeta fb)))
                         (mkPVCSpec ["ReadWriteOnce"]
                            (mkResourceRequirements None
                               (Some {[ "storage" := cacheSize ]}))
                            "" None)
                         (mkPVCStatus "" None)));
  MakeBuild fb :=
    Ok (Some (mkBuild (childMeta (fbMeta fb) (Name (fbMeta fb)))
                      (mkBuildSpec "riff-build" [] (Some "riff-cnb"))
                      (mkBuildStatus ∅)))
|}.

Definition FunctionBuildConditionBuildCacheReady : ConditionType := "BuildCacheReady".
Definition FunctionBuildConditionBuildSucceeded : ConditionType := "BuildSucceeded".
Definition FunctionBuildConditionImageResolved : ConditionType := "ImageResolved".

Definition dependents : list ConditionType :=
  [FunctionBuildConditionBuildCacheReady; FunctionBuildConditionBuildSucceeded].

Definition onConditions (f : Conditions -> Conditions) (s : FunctionBuildStatus)
  : FunctionBuildStatus :=
  mkFunctionBuildStatus (f (StatusConditions s)) (ObservedGeneration s)
    (BuildCacheName s) (BuildName s) (LatestImage s).

Definition cacheCondition (s : PersistentVolumeClaimStatus) : Condition :=
  if String.eqb (Phase s) "Bound" then mkCondition ConditionTrue "" ""
  else if String.eqb (Phase s) "Lost" then mkCondition ConditionFalse "Lost" ""
  else mkCondition ConditionUnknown "" "".

(** Status methods built on the condition aggregator. *)
#[export] Instance lifecycle : Lifecycle := {|
  SetDefaults spec := spec;
  InitializeConditions := onConditions (ConditionSet.InitializeConditions dependents);
  MarkBuildCacheNotOwned name :=
    onConditions (ConditionSet.MarkNotOwned dependents
                    FunctionBuildConditionBuildCacheReady
                    "PersistentVolumeClaim" "FunctionBuild" name);
  MarkBuildCacheNotUsed :=
    onConditions (ConditionSet.mark dependents FunctionBuildConditionBuildCacheReady
                    (mkCondition ConditionTrue "NotUsed" ""));
  PropagateBuildCacheStatus st :=
    onConditions (ConditionSet.mark dependents FunctionBuildConditionBuildCacheReady
                    (cacheCondition st));
  MarkBuildNotOwned name :=
    onConditions (ConditionSet.MarkNotOwned dependents
                    FunctionBuildConditionBuildSucceeded "Build" "FunctionBuild" name);
  PropagateBuildStatus st :=
    onConditions (ConditionSet.PropagateChildStatus dependents
                    FunctionBuildConditionBuildSucceeded (bsConditions st));
  IsReady s :=
    bool_decide (ConditionSet.statusOf (StatusConditions s) ConditionSet.Ready
                 = ConditionTrue);
  MarkImageMissing message :=
    onConditions (insert FunctionBuildConditionImageResolved
                    (mkCondition ConditionFalse "ImageMissing" message))
|}.

(** The conditions a cycle computes from the conditions [cs] it starts
    with, when it puts [v] on the build cache's condition and observes a
    build with the conditions [child]. *)
Definition cycleConditions (v : Condition) (child cs : Conditions) : Conditions :=
  ConditionSet.PropagateChildStatus dependents FunctionBuildConditionBuildSucceeded child
    (ConditionSet.mark dependents FunctionBuildConditionBuildCacheReady v
       (ConditionSet.InitializeConditions dependents cs)).

Definition cacheValue (bc : option PersistentVolumeClaim) : Condition :=
  match bc with
  | None => mkCondition ConditionTrue "NotUsed" ""
  | Some o => cacheCondition (pvcStatus o)
  end.

(** A reconciler without induced failures whose resolver pins every
    image to one digest. *)
Definition digestOf (image : string) : string := image ++ "@sha256:cf8b4c69".

Definition reconciler : Reconciler := {|
  readReactor _ := None;
  reactor _ := None;
  resolver image _ _ := Ok (digestOf image)
|}.

(** A reconciler whose status writes are refused. *)
Definition refusingReconciler : Reconciler := {|
  readReactor _ := None;
  reactor a := if isStatusWrite a then Some (NewConflict "test-functionbuild") else None;
  resolver image _ _ := Ok (digestOf image)
|}.

(** A reconciler whose resolver fails. *)
Definition offlineReconciler : Reconciler := {|
  readReactor _ := None;
  reactor _ := None;
  resolver _ _ _ := Err (Errorf "registry unreachable")
|}.

Definition testNamespace : string := "test-namespace".
Definition testName : string := "test-functionbuild".
Definition testKey : string := "test-namespace/test-functionbuild".

Definition emptyStatus : FunctionBuildStatus := mkFunctionBuildStatus ∅ 0 "" "" "".

Definition testMeta : ObjectMeta :=
  mkObjectMeta testName testNamespace "uid-1" "1" 1 0 None None None [].

Definition testFunctionBuild : FunctionBuild :=
  mkFunctionBuild testMeta (mkFunctionBuildSpec "example.com/repo/fn") emptyStatus.

Definition deletedFunctionBuild : FunctionBuild :=
  mkFunctionBuild
    (mkObjectMeta testName testNamespace "uid-1" "1" 1 0 (Some 1) None None [])
    (mkFunctionBuildSpec "example.com/repo/fn") emptyStatus.

Definition emptyWorld : World := mkWorld ∅ ∅ ∅ [].

Definition worldWith (fb : FunctionBuild) : World :=
  mkWorld {[ (testNamespace, testName) := fb ]} ∅ ∅ [].

(** A claim with the canonical name that some other owner controls. *)
Definition foreignBuildCache : PersistentVolumeClaim :=
  mkPVC (mkObjectMeta "build-cache-test-functionbuild" testNamespace "uid-9" "1" 1 0
           None None None
           [mkOwnerReference "FunctionBuild" "other" "uid-7" (Some true)])
        (mkPVCSpec [] (mkResourceRequirements None None) "" None)
        (mkPVCStatus "Bound" None).

Definition worldWithForeignBuildCache : World :=
  mkWorld {[ (testNamespace, testName) := testFunctionBuild ]}
          {[ (testNamespace, "build-cache-test-functionbuild") := foreignBuildCache ]}
          ∅ [].

(** The same claim next to the owner while the owner is being deleted. *)
Definition worldOfDeletedWithForeignBuildCache : World :=
  mkWorld {[ (testNamespace, testName) := deletedFunctionBuild ]}
          {[ (testNamespace, "build-cache-test-functionbuild") := foreignBuildCache ]}
          ∅ [].

(** A build with the canonical name that nobody controls. *)
Definition foreignBuild : Build :=
  mkBuild (mkObjectMeta testName testNamespace "uid-8" "1" 1 0 None None None [])
          (mkBuildSpec "default" [] None) (mkBuildStatus ∅).

Definition worldWithForeignBuild : World :=
  mkWorld {[ (testNamespace, testName) := testFunctionBuild ]} ∅
          {[ (testNamespace, testName) := foreignBuild ]} [].

(** An owned claim whose resources and labels differ from the desired
    ones and which carries fields the reconciler does not own. *)
Definition driftedBuildCache : PersistentVolumeClaim :=
  mkPVC (mkObjectMeta "build-cache-test-functionbuild" testNamespace "uid-3" "7" 1 5
           None (Some {[ "stale" := "label" ]}) (Some {[ "operator" := "note" ]})
           [controllerRef testMeta])
        (mkPVCSpec ["ReadWriteOnce"]
           (mkResourceRequirements None
              (Some {[ "storage" := mkQuantity 1073741824 "1Gi" ]}))
           "pv-0001" (Some "standard"))
        (mkPVCStatus "Bound" None).

(** The build cache desired for the test owner. *)
Definition desiredBuildCache : PersistentVolumeClaim :=
  mkPVC (childMeta testMeta "build-cache-test-functionbuild")
        (mkPVCSpec ["ReadWriteOnce"]
           (mkResourceRequirements None (Some {[ "storage" := cacheSize ]}))
           "" None)
        (mkPVCStatus "" None).

Definition worldWithDriftedBuildCache : World :=
  mkWorld {[ (testNamespace, testName) := testFunctionBuild ]}
          {[ (testNamespace, "build-cache-test-functionbuild") := driftedBuildCache ]}
          ∅ [].

(** A succeeded build, as the build controller would leave it. *)
Definition succeededBuild : Build :=
  mkBuild (childMeta testMeta testName)
          (mkBuildSpec "riff-build" [] (Some "riff-cnb"))
          (mkBuildStatus {[ ConditionSet.Ready := mkCondition ConditionTrue "" "" ]}).

Definition boundBuildCache : PersistentVolumeClaim :=
  mkPVC (childMeta testMeta "build-cache-test-functionbuild")
        (mkPVCSpec ["ReadWriteOnce"]
           (mkResourceRequirements None (Some {[ "storage" := cacheSize ]}))
           "" None)
        (mkPVCStatus "Bound" None).

Definition readyWorld : World :=
  mkWorld {[ (testNamespace, testName) := testFunctionBuild ]}
          {[ (testNamespace, "build-cache-test-functionbuild") := boundBuildCache ]}
          {[ (testNamespace, testName) := succeededBuild ]} [].

(** *** The Deployer's configurations, as in its table test *)

Definition DeployerLabelKey : string := "knative.projectriff.io/deployer".

Record Configuration := mkConfiguration {
  cfgMeta : ObjectMeta;
  cfgImage : string
}.

Definition configurationEquals (desired observed : Configuration) : bool :=
  String.eqb (cfgImage desired) (cfgImage observed)
  && semanticStringMap (Labels (cfgMeta desired)) (Labels (cfgMeta observed)).

Definition configurationCopy (desired observed : Configuration) : Configuration :=
  mkConfiguration (setMetaLabels (cfgMeta observed) (Labels (cfgMeta desired)))
                  (cfgImage desired).

Definition testDeployer : ObjectMeta :=
  mkObjectMeta "test-deployer" testNamespace "uid-d" "1" 1 0 None None None [].

Definition testImage : string := "example.com/repo/test-deployer@sha256:cf8b4c69".

Definition configuration (name : string) (created : Z) : Configuration :=
  mkConfiguration
    (mkObjectMeta name testNamespace name "1" 1 created None
       (Some {[ DeployerLabelKey := "test-deployer" ]}) None
       [mkOwnerReference "Deployer" "test-deployer" "uid-d" (Some true)])
    testImage.

(** The desired configuration gets a generated name. *)
Definition testConfigurationCreate : Configuration := configuration "" 0.
Definition testConfigurationGiven : Configuration :=
  configuration "test-deployer-deployer-001" 3.
Definition extraConfiguration1 : Configuration := configuration "extra-configuration-1" 1.
Definition extraConfiguration2 : Configuration := configuration "extra-configuration-2" 2.

(** Two extras and no other owned configuration, and the same with the
    current configuration in place. *)
Definition extrasOnly : ChildSynchronizer.Store Configuration :=
  ChildSynchronizer.mkStore [extraConfiguration1; extraConfiguration2] [].
Definition extrasAndCurrent : ChildSynchronizer.Store Configuration :=
  ChildSynchronizer.mkStore
    [testConfigurationGiven; extraConfiguration1; extraConfiguration2] [].

(** Among several owned children none is kept: the slate is cleaned and
    the desired child is created afresh. *)
Definition cleanSlate (owned : list Configuration) : option Configuration := None.

Definition noFailure (k : ChildSynchronizer.Call Configuration) : option error := None.

(** [InduceFailure("delete", "Configuration")] *)
Definition deleteFails (k : ChildSynchronizer.Call Configuration) : option error :=
  if ChildSynchronizer.isDelete k
  then Some (StatusError StatusReasonInternalError "induced failure") else None.

(** Only the delete of the second extra fails. *)
Definition secondDeleteFails (k : ChildSynchronizer.Call Configuration) : option error :=
  match k with
  | ChildSynchronizer.Delete _ name _ =>
      if String.eqb name "extra-configuration-2"
      then Some (StatusError StatusReasonInternalError "induced failure") else None
  | _ => None
  end.

Definition converge select fails :=
  ChildSynchronizer.Converge cfgMeta configurationEquals configurationCopy select
    DeployerLabelKey fails testDeployer (Some testConfigurationCreate).

End Example.

(** ** What a defaulted DeployerSpec looks like *)

(** The template is set, its annotation and label maps are non-nil, it
    has a container, and an ingress policy is chosen. *)
Definition isDefaulted (s : Deployer.DeployerSpec) : bool :=
  match Deployer.Template s with
  | None => false
  | Some t =>
      bool_decide (Annotations (ptMeta t) <> None)
      && bool_decide (Labels (ptMeta t) <> None)
      && negb (length (Containers (ptSpec t)) =? 0)%nat
      && negb (String.eqb (Deployer.IngressPolicy s) "")
  end.

(** ** Predicates on the calls of a run *)

(** The action is this one. *)
Definition only (x : Action) (a : Action) : bool := bool_decide (a = x).

(** The namespace a call is addressed to: the namespace of the client
    for a write, the namespace of the credentials for a resolution.
    Events carry none. *)
Definition actionNamespace (a : Action) : option string :=
  match a with
  | CreatePersistentVolumeClaim ns _ | UpdatePersistentVolumeClaim ns _
  | DeletePersistentVolumeClaim ns _ _ | CreateBuild ns _ | UpdateBuild ns _
  | UpdateStatus ns _ => Some ns
  | Resolve _ opt _ => Some (optNamespace opt)
  | Eventf _ _ _ => None
  end.

Definition inNamespace (ns : string) (a : Action) : bool :=
  match actionNamespace a with
  | Some ns' => String.eqb ns' ns
  | None => true
  end.

(** A run added at most [n] actions that satisfy [P] to the trace. *)
Definition atMost (P : Action -> bool) (n : nat) (w w' : World) : Prop :=
  exists acts,
    trace w' = (trace w ++ acts)%list /\ (length (List.filter P acts) <= n)%nat.

(** Every run of the computation, returning or panicking, issues at most
    [n] actions that satisfy [P]. *)
Definition spends {A} (P : Action -> bool) (n : nat) (m : M A) : Prop :=
  forall w, atMost P n w (worldOf (m w)).

(** The computation returns, in every world, a value that satisfies [Q]. *)
Definition returns {A} (Q : A -> Prop) (m : M A) : Prop :=
  forall w, exists a w', m w = Done a w' /\ Q a.

(** The calls of the three parts of [reconcile], in the order in which
    they are issued. *)
Definition buildCacheAction : Action -> bool := orAction touchesPersistentVolumeClaim isEvent.
Definition buildAction : Action -> bool := orAction touchesBuild isEvent.

(** The events among the actions of a run. *)
Definition eventsOf (acts : list Action) : list Action := List.filter isEvent acts.

(** The metadata and the spec of the stored owners. *)
Definition storedIdentity (w : World) : gmap (string * string) (ObjectMeta * FunctionBuildSpec) :=
  (fun fb => (fbMeta fb, fbSpec fb)) <$> functionbuilds w.

(** The end of [Reconcile], after the inner pass: the status is written
    back when it changed, and the outcome is recorded as an event. *)
Definition writeBack `{ResourcesPackage, Lifecycle, Formatting} (c : Reconciler)
    (original functionbuild : FunctionBuild) (err : option error) : M (option error) :=
  if semanticStatus (fbStatus original) (fbStatus functionbuild) then mret err
  else
    u ← updateStatus c functionbuild;
    match u with
    | Err uErr =>
        _ ← Recorder_Eventf "Warning" "UpdateFailed"
              ("Failed to update status for FunctionBuild "
                 ++ quote (Name (fbMeta functionbuild)) ++ ": " ++ Error uErr);
        mret (Some uErr)
    | Ok _ =>
        match err with
        | None =>
            _ ← Recorder_Eventf "Normal" "Updated"
                  ("Updated FunctionBuild " ++ quote (Name (fbMeta functionbuild)));
            mret err
        | Some _ => mret err
        end
    end.

(** The calls of a whole [Reconcile], in four runs: for the build cache,
    for the build, the resolution, and the status with its event. *)
Definition inOrder (w w' : World) : Prop :=
  exists forCache forBuild resolution forStatus,
    issued w w' = (forCache ++ forBuild ++ resolution ++ forStatus)%list
    /\ forallb buildCacheAction forCache = true
    /\ forallb buildAction forBuild = true
    /\ forallb isResolve resolution = true
    /\ forallb (orAction isStatusWrite isEvent) forStatus = true.

(** The second if-chain gets to create or to converge the build: the
    lister answers not-found, or returns a build the owner controls. *)
Definition reachesBuild `{ResourcesPackage} (c : Reconciler) (fb : FunctionBuild)
    (w : World) : bool :=
  match knbuildLister_Get c (Namespace (fbMeta fb)) (names_Build fb) w with
  | Done (Ok build) _ => IsControlledBy (buildMeta build) (fbMeta fb)
  | Done (Err err) _ => IsNotFound err
  | Panic _ => false
  end.

(** The number of slashes in a key. *)
Fixpoint slashes (s : string) : nat :=
  match s with
  | EmptyString => 0
  | String a s' => ((if Ascii.eqb a slash then 1 else 0) + slashes s')%nat
  end.

(** A call met no failure: no failure was induced on a write, and the
    resolver answered a resolution with a digest.  Events always go
    through. *)
Definition accepted (c : Reconciler) (a : Action) : bool :=
  match a with
  | Eventf _ _ _ => true
  | Resolve image opt skip =>
      match resolver c image opt skip with Ok _ => true | Err _ => false end
  | _ => match reactor c a with None => true | Some _ => false end
  end.

(** ** Validation of a streaming Processor *)

Module Processor.

(** The fields of [corev1.PodSpec] that [Validate] does not name, taken
    together: all that matters of them is whether they are all zero. *)
Class OtherFields := {
  Rest : Type;
  Rest_eq_dec :: EqDecision Rest;
  zeroRest : Rest
}.

Section Types.
Context `{OtherFields}.

(** [corev1.PodSpec] *)
Record PodSpec := mkPodSpec {
  ServiceAccountName : string;
  Containers : list Container;
  Volumes : list string;
  Others : Rest
}.

#[global] Instance PodSpec_eq_dec : EqDecision PodSpec.
Proof. solve_decision. Defined.

Record StreamBinding := mkStreamBinding {
  Stream : string;
  Alias : string
}.

(** [ProcessorSpec], with the fields that [Validate] reads; the
    declaration of the type is not part of the tree. *)
Record ProcessorSpec := mkProcessorSpec {
  FunctionRef : string;
  Inputs : list StreamBinding;
  Outputs : list StreamBinding;
  Template : option PodSpec
}.

Record Processor := mkProcessor {
  Spec : ProcessorSpec
}.

End Types.

(** The package [validation] is not part of the tree: the errors it
    builds are kept as the terms the code builds them with. *)
Inductive FieldErrors :=
| NoErrors
| Also (errs more : FieldErrors)
| ViaField (errs : FieldErrors) (field : string)
| ViaFieldIndex (errs : FieldErrors) (field : string) (index : nat)
| ErrMissingField (field : string)
| ErrDisallowedFields (field detail : string)
| ErrInvalidValue (value field : string)
| ErrMissingOneOf (fields : list string)
| ErrMultipleOneOf (fields : list string).

#[global] Instance FieldErrors_eq_dec : EqDecision FieldErrors.
Proof. solve_decision. Defined.

(** The errors a term reports, each under the path it was put under. *)
Fixpoint reported (errs : FieldErrors) : list FieldErrors :=
  match errs with
  | NoErrors => []
  | Also errs more => reported errs ++ reported more
  | ViaField errs field => (fun e => ViaField e field) <$> reported errs
  | ViaFieldIndex errs field index =>
      (fun e => ViaFieldIndex e field index) <$> reported errs
  | e => [e]
  end.

(** [cmp.Diff] on pod specs, and the field name [validation.CurrentField]. *)
Class ValidationPackage `{OtherFields} := {
  Diff : PodSpec -> PodSpec -> string;
  CurrentField : string
}.

(** [cmp.Diff] returns the empty string exactly for equal values. *)
Class DiffLaws `{ValidationPackage} : Prop := {
  Diff_equal : forall a b, Diff a b = "" <-> a = b
}.

Section Validation.
Context `{ValidationPackage}.

(** [equality.Semantic.DeepEqual(s, &ProcessorSpec{})]: nil and empty
    slices are equal, a template that is set is not nil. *)
Definition isZero (s : ProcessorSpec) : bool :=
  String.eqb (FunctionRef s) ""
  && (length (Inputs s) =? 0)%nat
  && (length (Outputs s) =? 0)%nat
  && match Template s with None => true | Some _ => false end.

(** [func filterInvalidContainers] *)
Definition filterInvalidContainers (containers : list Container) : list Container :=
  containers.

(** [func filterInvalidVolumes] *)
Definition filterInvalidVolumes (volumes : list string) : list string := volumes.

(** One turn of the loops over the inputs and over the outputs. *)
Definition checkBinding (field : string) (i : nat) (binding : StreamBinding)
    (errs : FieldErrors) : FieldErrors :=
  let errs :=
    if String.eqb (Stream binding) ""
    then Also errs (ViaFieldIndex (ErrMissingField "stream") field i)
    else errs in
  if String.eqb (Alias binding) ""
  then Also errs (ViaFieldIndex (ErrMissingField "alias") field i)
  else errs.

(** [for i, binding := range bindings], from the index [i] on. *)
Fixpoint checkBindings (field : string) (i : nat) (bindings : list StreamBinding)
    (errs : FieldErrors) : FieldErrors :=
  match bindings with
  | [] => errs
  | binding :: bindings =>
      checkBindings field (S i) bindings (checkBinding field i binding errs)
  end.

(** [func (s *ProcessorSpec) Validate]; [None] is the panic of a nil
    dereference ([s.Template] is nil) or of an index out of range
    ([s.Template.Containers] is empty). *)
Definition ProcessorSpec_Validate (s : ProcessorSpec) : option FieldErrors :=
  if isZero s then Some (ErrMissingField CurrentField)
  else
    let errs := NoErrors in
    match Template s with
    | None => None
    | Some template =>
        match Containers template with
        | [] => None
        | first :: _ =>
            let diff :=
              Diff (mkPodSpec (ServiceAccountName template)
                      (filterInvalidContainers [first])
                      (filterInvalidVolumes (Volumes template))
                      zeroRest)
                   template in
            let errs :=
              if negb (String.eqb diff "")
              then Also errs
                     (ErrDisallowedFields "template"
                        ("limited Template fields may be set (-want, +got) = " ++ diff))
              else errs in
            let errs :=
              if negb (String.eqb (cName first) "function")
              then Also errs (ErrInvalidValue (cName first) "template.containers[0].name")
              else errs in
            let errs :=
              if String.eqb (FunctionRef s) "" && String.eqb (cImage first) ""
              then Also errs
                     (ErrMissingOneOf ["functionRef"; "template.containers[0].image"])
              else if negb (String.eqb (FunctionRef s) "")
                      && negb (String.eqb (cImage first) "")
              then Also errs
                     (ErrMultipleOneOf ["functionRef"; "template.containers[0].image"])
              else errs in
            let errs :=
              if (length (Inputs s) =? 0)%nat
              then Also errs (ErrMissingField "inputs")
              else errs in
            let errs := checkBindings "inputs" 0 (Inputs s) errs in
            let errs := checkBindings "outputs" 0 (Outputs s) errs in
            Some errs
        end
    end.

(** [func (r *Processor) Validate] *)
Definition Processor_Validate (r : Processor) : option FieldErrors :=
  specErrs ← ProcessorSpec_Validate (Spec r);
  Some (Also NoErrors (ViaField specErrs "spec")).

(** What [Validate] accepts: a template with exactly one container,
    named [function], and no other pod field set; a function reference
    or an image, not both; at least one input; and a stream and an alias
    on every input and output. *)
Definition bound (binding : StreamBinding) : bool :=
  negb (String.eqb (Stream binding) "") && negb (String.eqb (Alias binding) "").

Definition isValid (s : ProcessorSpec) : bool :=
  match Template s with
  | Some template =>
      match Containers template with
      | [first] =>
          bool_decide (Others template = zeroRest)
          && String.eqb (cName first) "function"
          && xorb (String.eqb (FunctionRef s) "") (String.eqb (cImage first) "")
          && negb (length (Inputs s) =? 0)%nat
          && forallb bound (Inputs s)
          && forallb bound (Outputs s)
      | _ => false
      end
  | None => false
  end.

End Validation.
End Processor.

(** ** More concrete clusters and specs, used to run the definitions *)

Module MoreExamples.
Import Example.

(** An owner without an image: the example resources desire no build
    cache for it. *)
Definition imagelessFunctionBuild : FunctionBuild :=
  mkFunctionBuild testMeta (mkFunctionBuildSpec "") emptyStatus.

(** The owner without an image next to a build cache it controls. *)
Definition worldWithUnwantedBuildCache : World :=
  mkWorld {[ (testNamespace, testName) := imagelessFunctionBuild ]}
          {[ (testNamespace, "build-cache-test-functionbuild") := boundBuildCache ]}
          ∅ [].

Definition inducedFailure : error := StatusError StatusReasonInternalError "inducedError".

(** A reconciler whose listers fail, as [InduceFailure("get", ...)] makes
    them. *)
Definition unreadableReconciler : Reconciler := {|
  readReactor _ := Some inducedFailure;
  reactor _ := None;
  resolver image _ _ := Ok (digestOf image)
|}.

(** A reconciler that reads the owner and fails to read its children. *)
Definition childlessReconciler : Reconciler := {|
  readReactor r := match r with GetFunctionBuild _ _ => None | _ => Some inducedFailure end;
  reactor _ := None;
  resolver image _ _ := Ok (digestOf image)
|}.

(** *** Processors *)

(** The other pod fields, by the names of those that are set. *)
#[export] Instance otherFields : Processor.OtherFields := {|
  Processor.Rest := list string;
  Processor.zeroRest := []
|}.

#[export] Instance validationPackage : Processor.ValidationPackage := {|
  Processor.Diff a b := if decide (a = b) then "" else "the templates differ";
  Processor.CurrentField := "[]"
|}.

Definition functionContainer : Container :=
  mkContainer "function" "" (mkResourceRequirements None None).

Definition validProcessorSpec : Processor.ProcessorSpec :=
  Processor.mkProcessorSpec "square"
    [Processor.mkStreamBinding "numbers" "in"]
    [Processor.mkStreamBinding "squares" "out"]
    (Some (Processor.mkPodSpec "" [functionContainer] [] [])).

(** The second input has no alias, the output has no stream, and the
    template sets a host network. *)
Definition sloppyProcessorSpec : Processor.ProcessorSpec :=
  Processor.mkProcessorSpec "square"
    [Processor.mkStreamBinding "numbers" "in"; Processor.mkStreamBinding "more" ""]
    [Processor.mkStreamBinding "" "out"]
    (Some (Processor.mkPodSpec "" [functionContainer] [] ["hostNetwork"])).

End MoreExamples.

(** * Theorems *)

(** ** Reasoning about the reconcile monad *)


Lemma bind_Done {A B} (m : M A) (f : A -> M B) (w w' : World) (a : A) :
  m w = Done a w' -> (m ≫= f) w = f a w'.
Proof. intros Hm. unfold mbind, M_bind. by rewrite Hm. Qed.

Lemma bind_Panic {A B} (m : M A) (f : A -> M B) (w w' : World) :
  m w = Panic w' -> (m ≫= f) w = Panic w'.
Proof. intros Hm. unfold mbind, M_bind. by rewrite Hm. Qed.

Lemma bind_inv {A B} (m : M A) (f : A -> M B) (w w' : World) (b : B) :
  (m ≫= f) w = Done b w' ->
  exists a w1, m w = Done a w1 /\ f a w1 = Done b w'.
Proof.
  unfold mbind, M_bind. destruct (m w) as [a w1|w1]; [eauto|discriminate].
Qed.


Section Respects.
Context (R : World -> World -> Prop) `{!PreOrder R}.

Lemma respects_ret {A} (a : A) : respects R (mret a).
Proof. intros w. simpl. reflexivity. Qed.

Lemma respects_panic {A} : respects R (@panic A).
Proof. intros w. simpl. reflexivity. Qed.

Lemma respects_bind {A B} (m : M A) (f : A -> M B) :
  respects R m -> (forall a, respects R (f a)) -> respects R (m ≫= f).
Proof.
  intros Hm Hf w. unfold mbind, M_bind. specialize (Hm w).
  destruct (m w) as [a w1|w1]; [|assumption].
  specialize (Hf a w1). destruct (f a w1); etransitivity; eassumption.
Qed.

Lemma respects_Done {A} (m : M A) (w w' : World) (a : A) :
  respects R m -> m w = Done a w' -> R w w'.
Proof. intros Hm Hw. specialize (Hm w). by rewrite Hw in Hm. Qed.

Lemma respects_Panic {A} (m : M A) (w w' : World) :
  respects R m -> m w = Panic w' -> R w w'.
Proof. intros Hm Hw. specialize (Hm w). by rewrite Hw in Hm. Qed.
End Respects.



#[global] Instance grows_preorder (P : Action -> bool) : PreOrder (grows P).
Proof.
  split.
  - intros w. exists []. by rewrite app_nil_r.
  - intros w1 w2 w3 (a1 & H1 & F1) (a2 & H2 & F2). exists (a1 ++ a2)%list.
    rewrite H2, H1, <- app_assoc. split; [done|].
    rewrite forallb_app, F1, F2. done.
Qed.

#[global] Instance keeps_preorder {X} (f : World -> X) : PreOrder (keeps f).
Proof.
  split.
  - intros w. reflexivity.
  - intros w1 w2 w3 H1 H2. unfold keeps in *. congruence.
Qed.

Lemma grows_issued (P : Action -> bool) (w w' : World) :
  grows P w w' -> trace w' = (trace w ++ issued w w')%list /\ forallb P (issued w w') = true.
Proof.
  intros (acts & Ht & HP). unfold issued. rewrite Ht, drop_app_length. done.
Qed.

Lemma grows_weaken (P Q : Action -> bool) (w w' : World) :
  (forall a, P a = true -> Q a = true) -> grows P w w' -> grows Q w w'.
Proof.
  intros HPQ (acts & Ht & HP). exists acts. split; [done|].
  rewrite forallb_forall in *. auto.
Qed.

Lemma issued_refl (w : World) : issued w w = [].
Proof. unfold issued. apply drop_all. Qed.

Lemma issued_trans (P Q : Action -> bool) (w1 w2 w3 : World) :
  grows P w1 w2 -> grows Q w2 w3 ->
  issued w1 w3 = (issued w1 w2 ++ issued w2 w3)%list.
Proof.
  intros H1 H2. apply grows_issued in H1 as [H1 _]. apply grows_issued in H2 as [H2 _].
  unfold issued at 1. rewrite H2, H1, <- app_assoc, drop_app_length. done.
Qed.


(** ** Footprints of the client calls and of the reconciler's functions *)

#[global] Instance footprint_preorder (P : Action -> bool) (kf kp kb : bool) :
  PreOrder (footprint P kf kp kb).
Proof.
  split.
  - intros w. repeat split; reflexivity.
  - intros w1 w2 w3 (F1 & P1 & B1 & G1) (F2 & P2 & B2 & G2).
    repeat split.
    + intros Hk. rewrite F2, F1; done.
    + intros Hk. rewrite P2, P1; done.
    + intros Hk. rewrite B2, B1; done.
    + etransitivity; eassumption.
Qed.

Lemma footprint_weaken (P Q : Action -> bool) (kf kp kb kf' kp' kb' : bool) (w w' : World) :
  (forall a, P a = true -> Q a = true) ->
  (kf' = true -> kf = true) -> (kp' = true -> kp = true) -> (kb' = true -> kb = true) ->
  footprint P kf kp kb w w' -> footprint Q kf' kp' kb' w w'.
Proof.
  intros HPQ Hf Hp Hb (F & Pv & B & G). repeat split; auto.
  eapply grows_weaken; eassumption.
Qed.

Lemma respects_weaken {A} (P Q : Action -> bool) (kf kp kb kf' kp' kb' : bool) (m : M A) :
  (forall a, P a = true -> Q a = true) ->
  (kf' = true -> kf = true) -> (kp' = true -> kp = true) -> (kb' = true -> kb = true) ->
  respects (footprint P kf kp kb) m -> respects (footprint Q kf' kp' kb') m.
Proof.
  intros HPQ Hf Hp Hb Hm w. specialize (Hm w).
  destruct (m w); eapply footprint_weaken; eassumption.
Qed.

Lemma grows_one (P : Action -> bool) (a : Action) (f p b : _) (w : World) :
  P a = true -> grows P w (mkWorld f p b (trace w ++ [a])%list).
Proof. intros Ha. exists [a]. simpl. by rewrite Ha. Qed.

Lemma grows_same (P : Action -> bool) (f p b : _) (w : World) :
  grows P w (mkWorld f p b (trace w)).
Proof. exists []. simpl. by rewrite app_nil_r. Qed.

Ltac footprint_prim :=
  intros w; unfold footprint;
  unfold mbind, M_bind, mret, M_ret, issue, setPvcs, setBuilds, setFunctionbuilds;
  simpl;
  repeat (case_match; simplify_eq/=);
  repeat split; try done;
  try (apply grows_one; reflexivity); try (apply grows_same); try reflexivity.

Section ClientFootprints.
Variable c : Reconciler.

Lemma functionbuildLister_Get_footprint ns name :
  respects (footprint noAction true true true) (functionbuildLister_Get c ns name).
Proof. unfold functionbuildLister_Get. footprint_prim. Qed.

Lemma pvcLister_Get_footprint ns name :
  respects (footprint noAction true true true) (pvcLister_Get c ns name).
Proof. unfold pvcLister_Get. footprint_prim. Qed.

Lemma knbuildLister_Get_footprint ns name :
  respects (footprint noAction true true true) (knbuildLister_Get c ns name).
Proof. unfold knbuildLister_Get. footprint_prim. Qed.

Lemma PersistentVolumeClaims_Create_footprint ns o :
  respects (footprint touchesPersistentVolumeClaim true false true)
           (PersistentVolumeClaims_Create c ns o).
Proof. unfold PersistentVolumeClaims_Create. footprint_prim. Qed.

Lemma PersistentVolumeClaims_Update_footprint ns o :
  respects (footprint touchesPersistentVolumeClaim true false true)
           (PersistentVolumeClaims_Update c ns o).
Proof. unfold PersistentVolumeClaims_Update. footprint_prim. Qed.

Lemma PersistentVolumeClaims_Delete_footprint ns name uid :
  respects (footprint touchesPersistentVolumeClaim true false true)
           (PersistentVolumeClaims_Delete c ns name uid).
Proof. unfold PersistentVolumeClaims_Delete. footprint_prim. Qed.

Lemma Builds_Create_footprint ns o :
  respects (footprint touchesBuild true true false) (Builds_Create c ns o).
Proof. unfold Builds_Create. footprint_prim. Qed.

Lemma Builds_Update_footprint ns o :
  respects (footprint touchesBuild true true false) (Builds_Update c ns o).
Proof. unfold Builds_Update. footprint_prim. Qed.

Lemma FunctionBuilds_UpdateStatus_footprint ns o :
  respects (footprint isStatusWrite false true true) (FunctionBuilds_UpdateStatus c ns o).
Proof. unfold FunctionBuilds_UpdateStatus. footprint_prim. Qed.

Lemma resolver_Resolve_footprint image opt skip :
  respects (footprint isResolve true true true) (resolver_Resolve c image opt skip).
Proof. unfold resolver_Resolve. footprint_prim. Qed.

Lemma Recorder_Eventf_footprint t r m :
  respects (footprint isEvent true true true) (Recorder_Eventf t r m).
Proof. unfold Recorder_Eventf. footprint_prim. Qed.

End ClientFootprints.

Ltac footprint_side :=
  first [ done
        | by (intros []; unfold orAction, notStatusWrite, noAction; simpl; try done;
              intros; rewrite ?orb_true_r; done) ].

Ltac footprint_use lem :=
  eapply respects_weaken; [ | | | | apply lem ]; footprint_side.

Ltac footprint_step :=
  first
    [ apply respects_ret; apply _
    | apply respects_panic; apply _
    | footprint_use functionbuildLister_Get_footprint
    | footprint_use pvcLister_Get_footprint
    | footprint_use knbuildLister_Get_footprint
    | footprint_use PersistentVolumeClaims_Create_footprint
    | footprint_use PersistentVolumeClaims_Update_footprint
    | footprint_use PersistentVolumeClaims_Delete_footprint
    | footprint_use Builds_Create_footprint
    | footprint_use Builds_Update_footprint
    | footprint_use FunctionBuilds_UpdateStatus_footprint
    | footprint_use resolver_Resolve_footprint
    | footprint_use Recorder_Eventf_footprint
    | apply respects_bind; [ apply _ | | intros ? ]
    | match goal with
      | |- respects _ (match ?x with _ => _ end) => destruct x
      | |- respects _ (if ?x then _ else _) => destruct x
      end ].

Section ReconcilerFootprints.
Context `{ResourcesPackage, Lifecycle, Formatting}.
Variable c : Reconciler.

Lemma createBuildCache_footprint fb :
  respects (footprint touchesPersistentVolumeClaim true false true)
           (createBuildCache c fb).
Proof. unfold createBuildCache. repeat footprint_step. Qed.

Lemma reconcileBuildCache_footprint fb bc :
  respects (footprint touchesPersistentVolumeClaim true false true)
           (reconcileBuildCache c fb bc).
Proof. unfold reconcileBuildCache. repeat footprint_step. Qed.

Lemma createBuild_footprint fb :
  respects (footprint touchesBuild true true false) (createBuild c fb).
Proof. unfold createBuild. repeat footprint_step. Qed.

Lemma reconcileBuild_footprint fb b :
  respects (footprint touchesBuild true true false) (reconcileBuild c fb b).
Proof. unfold reconcileBuild. repeat footprint_step. Qed.

Lemma updateStatus_footprint fb :
  respects (footprint isStatusWrite false true true) (updateStatus c fb).
Proof. unfold updateStatus. repeat footprint_step. Qed.

Lemma reconcile_buildCache_footprint fb :
  respects (footprint (orAction touchesPersistentVolumeClaim isEvent) true false true)
           (reconcile_buildCache c fb).
Proof.
  unfold reconcile_buildCache.
  repeat first [ footprint_use createBuildCache_footprint
               | footprint_use reconcileBuildCache_footprint
               | footprint_step ].
Qed.

Lemma reconcile_build_footprint fb :
  respects (footprint (orAction touchesBuild isEvent) true true false)
           (reconcile_build c fb).
Proof.
  unfold reconcile_build.
  repeat first [ footprint_use createBuild_footprint
               | footprint_use reconcileBuild_footprint
               | footprint_step ].
Qed.

Lemma reconcile_image_footprint fb b :
  respects (footprint isResolve true true true) (reconcile_image c fb b).
Proof. unfold reconcile_image. repeat footprint_step. Qed.

Lemma reconcile_footprint fb :
  respects (footprint notStatusWrite true false false) (reconcile c fb).
Proof.
  unfold reconcile.
  repeat first [ footprint_use reconcile_buildCache_footprint
               | footprint_use reconcile_build_footprint
               | footprint_use reconcile_image_footprint
               | footprint_step ].
Qed.

End ReconcilerFootprints.

(** ** Values returned by the reconciler's functions *)

Lemma yields_ret {A} (Q : A -> Prop) (a : A) : Q a -> yields Q (mret a).
Proof. intros Ha w a' w' Hr. by injection Hr as <- _. Qed.

Lemma yields_panic {A} (Q : A -> Prop) : yields Q (@panic A).
Proof. intros w a w' Hr. discriminate. Qed.

Lemma yields_bind {A B} (Q1 : A -> Prop) (Q : B -> Prop) (m : M A) (f : A -> M B) :
  yields Q1 m -> (forall a, Q1 a -> yields Q (f a)) -> yields Q (m ≫= f).
Proof.
  intros Hm Hf w b w' Hr. apply bind_inv in Hr as (a & w1 & Ha & Hb).
  eapply Hf; [eapply Hm|]; eassumption.
Qed.

Lemma yields_any {A} (m : M A) : yields (fun _ => True) m.
Proof. intros w a w' _. exact I. Qed.

Lemma yields_bind_any {A B} (Q : B -> Prop) (m : M A) (f : A -> M B) :
  (forall a, yields Q (f a)) -> yields Q (m ≫= f).
Proof. intros Hf. eapply yields_bind; [apply yields_any|]. auto. Qed.

Ltac yields_step :=
  first
    [ apply yields_ret
    | apply yields_panic
    | apply yields_bind_any; intros ?
    | match goal with
      | |- yields _ (match ?x with _ => _ end) => destruct x
      | |- yields _ (if ?x then _ else _) => destruct x
      end ].

Section ReconcilerYields.
Context `{ResourcesPackage, Lifecycle, Formatting}.
Variable c : Reconciler.

(** The first if-chain changes the owner only by marking the build cache
    as not owned, and then it returns the conflict error. *)
Lemma reconcile_buildCache_owner (fb : FunctionBuild) :
  yields (fun '(fb', r) =>
            match r with
            | Ok _ => fb' = fb
            | Err _ => fbMeta fb' = fbMeta fb /\ fbSpec fb' = fbSpec fb
            end)
         (reconcile_buildCache c fb).
Proof. unfold reconcile_buildCache. repeat yields_step; simpl; auto. Qed.

Lemma reconcile_build_owner (fb : FunctionBuild) :
  yields (fun '(fb', r) =>
            match r with
            | Ok _ => fb' = fb
            | Err _ => fbMeta fb' = fbMeta fb /\ fbSpec fb' = fbSpec fb
            end)
         (reconcile_build c fb).
Proof. unfold reconcile_build. repeat yields_step; simpl; auto; case_match; auto. Qed.

Lemma reconcile_image_owner (fb : FunctionBuild) (b : option Build) :
  yields (fun '(fb', _) => fbMeta fb' = fbMeta fb) (reconcile_image c fb b).
Proof. unfold reconcile_image. repeat yields_step; simpl; auto. Qed.

(** [reconcile] never changes the metadata of the owner. *)
Lemma reconcile_owner_meta (fb : FunctionBuild) :
  yields (fun '(fb', _) => fbMeta fb' = fbMeta fb) (reconcile c fb).
Proof.
  unfold reconcile. destruct (DeletionTimestamp (fbMeta fb)); [by apply yields_ret|].
  eapply yields_bind; [apply reconcile_buildCache_owner|].
  intros [fb1 [bc|e]] Hq1; simpl in *.
  - subst fb1.
    eapply yields_bind; [apply reconcile_build_owner|].
    intros [fb2 [b|e]] Hq2; simpl in *.
    + subst fb2. intros w0 [fb3 e3] w3 Hr.
      apply reconcile_image_owner in Hr. simpl in Hr. rewrite Hr.
      destruct bc; reflexivity.
    + apply yields_ret. destruct Hq2 as [-> _]. destruct bc; reflexivity.
  - apply yields_ret. by destruct Hq1 as [-> _].
Qed.

End ReconcilerYields.

(** ** Defaulting *)

Module DeployerFacts.
Import Deployer.

Lemma Default_template (s : DeployerSpec) :
  exists t, Template (Default s) = Some t
            /\ Annotations (ptMeta t) <> None
            /\ Labels (ptMeta t) <> None
            /\ Containers (ptSpec t) <> [].
Proof.
  destruct s as [[[m [sa cs vs]]|] p]; unfold Default; simpl.
  - destruct m as [n ns u rv g ct dt l a o]; simpl.
    destruct a, l, cs; simpl; eexists; (split; [reflexivity|]); simpl;
      repeat split; congruence.
  - eexists; split; [reflexivity|]; simpl; repeat split; congruence.
Qed.

Lemma Default_fixpoint (t : PodTemplateSpec) (p : string) :
  Annotations (ptMeta t) <> None ->
  Labels (ptMeta t) <> None ->
  Containers (ptSpec t) <> [] ->
  p <> "" ->
  Default (mkDeployerSpec (Some t) p) = mkDeployerSpec (Some t) p.
Proof.
  intros Ha Hl Hc Hp. unfold Default; simpl.
  destruct (Annotations (ptMeta t)) eqn:Ea; [|congruence].
  destruct (Labels (ptMeta t)) eqn:El; [|congruence].
  destruct (Containers (ptSpec t)) eqn:Ec; [congruence|]. simpl.
  destruct (String.eqb_spec p ""); congruence.
Qed.

(** C10. [DeployerSpec.Default] is idempotent, and it is non-destructive:
    the template it leaves is the given one (the zero template when the
    given one is nil) in which a nil annotation map and a nil label map
    became empty maps and an empty container list became the list of
    one zero container, every other field being the given one; the
    ingress policy is the given one unless that is empty, in which case
    it is the cluster-local policy. *)
Theorem Default_idempotent_nondestructive (s : DeployerSpec) :
  let t := default zeroPodTemplateSpec (Template s) in
  Default (Default s) = Default s
  /\ IngressPolicy (Default s)
     = (if String.eqb (IngressPolicy s) "" then IngressPolicyClusterLocal
        else IngressPolicy s)
  /\ exists t',
      Template (Default s) = Some t'
      /\ Annotations (ptMeta t')
         = match Annotations (ptMeta t) with None => Some ∅ | Some a => Some a end
      /\ Labels (ptMeta t')
         = match Labels (ptMeta t) with None => Some ∅ | Some l => Some l end
      /\ Containers (ptSpec t')
         = match Containers (ptSpec t) with [] => [zeroContainer] | cs => cs end
      /\ setContainers (setLabels (setAnnotations t' (Annotations (ptMeta t)))
                          (Labels (ptMeta t)))
           (Containers (ptSpec t)) = t.
Proof.
  intros t. split; [|split].
  - destruct (Default_template s) as (t' & Ht & Ha & Hl & Hc).
    assert (Hp : IngressPolicy (Default s) <> "").
    { unfold Default; simpl.
      destruct (String.eqb_spec (IngressPolicy s) ""); [discriminate|assumption]. }
    destruct (Default s) as [tt p]; simpl in *. subst tt.
    apply Default_fixpoint; assumption.
  - reflexivity.
  - subst t. destruct s as [[[m [sa cs vs]]|] p]; unfold Default; simpl.
    + destruct m as [n ns u rv g ct dt l a o]; simpl.
      destruct a, l, cs; simpl; eexists; (split; [reflexivity|]); simpl;
        repeat split; reflexivity.
    + eexists; split; [reflexivity|]; simpl; repeat split; reflexivity.
Qed.

End DeployerFacts.

(** ** Ready aggregation *)

Module ConditionSetFacts.
Import ConditionSet.

Lemma statusOf_insert_ne (cs : Conditions) (t u : ConditionType) (c : Condition) :
  t <> u -> statusOf (<[t := c]> cs) u = statusOf cs u.
Proof. intros Hne. unfold statusOf. by rewrite lookup_insert_ne. Qed.

Lemma conditionOf_insert_ne (cs : Conditions) (t u : ConditionType) (c : Condition) :
  t <> u -> conditionOf (<[t := c]> cs) u = conditionOf cs u.
Proof. intros Hne. unfold conditionOf. by rewrite lookup_insert_ne. Qed.

Lemma find_isFalse_spec (deps : list ConditionType) (cs : Conditions) :
  match find (isFalse cs) deps with
  | Some t => FirstFalse deps cs t
  | None => Forall (fun u => statusOf cs u <> ConditionFalse) deps
  end.
Proof.
  induction deps as [|d deps IH]; simpl; [constructor|].
  unfold isFalse at 1. case_bool_decide as Hd.
  - exists [], deps. repeat split; [assumption|constructor].
  - destruct (find (isFalse cs) deps) as [t|].
    + destruct IH as (before & after & -> & Ht & Hb).
      exists (d :: before), after. repeat split; [assumption|].
      constructor; assumption.
    + constructor; assumption.
Qed.

Lemma FirstFalse_unique (deps : list ConditionType) (cs : Conditions) (t u : ConditionType) :
  FirstFalse deps cs t -> FirstFalse deps cs u -> t = u.
Proof.
  intros (b1 & a1 & -> & Ht & Hb1) (b2 & a2 & Heq & Hu & Hb2).
  revert b2 Heq Hb2. induction b1 as [|x b1 IH]; intros [|y b2] Heq Hb2; simpl in *.
  - congruence.
  - injection Heq as -> _. apply Forall_cons in Hb2 as [Hy _]. contradiction.
  - injection Heq as -> _. apply Forall_cons in Hb1 as [Hx _]. contradiction.
  - injection Heq as -> Heq. apply Forall_cons in Hb1 as [_ Hb1].
    apply Forall_cons in Hb2 as [_ Hb2]. eauto.
Qed.

Lemma FirstFalse_find (deps : list ConditionType) (cs : Conditions) (t : ConditionType) :
  FirstFalse deps cs t -> find (isFalse cs) deps = Some t.
Proof.
  intros Ht. pose proof (find_isFalse_spec deps cs) as Hf.
  destruct (find (isFalse cs) deps) as [u|].
  - f_equal. eapply FirstFalse_unique; eassumption.
  - destruct Ht as (b & a & -> & Ht & _).
    apply Forall_app in Hf as [_ Hf]. apply Forall_cons in Hf as [Hf _]. contradiction.
Qed.

Lemma existsb_isUnknown (deps : list ConditionType) (cs : Conditions) :
  existsb (isUnknown cs) deps = true
  <-> Exists (fun u => statusOf cs u = ConditionUnknown) deps.
Proof.
  rewrite existsb_exists, Exists_exists. unfold isUnknown.
  split; intros (x & Hin & Hx); exists x;
    (split; [by apply list_elem_of_In || by apply list_elem_of_In in Hin|]).
  - by apply bool_decide_eq_true in Hx.
  - by apply bool_decide_eq_true.
Qed.

Lemma existsb_isUnknown_false (deps : list ConditionType) (cs : Conditions) :
  existsb (isUnknown cs) deps = false
  <-> Forall (fun u => statusOf cs u <> ConditionUnknown) deps.
Proof.
  induction deps as [|d deps IH]; simpl.
  - split; [constructor|reflexivity].
  - rewrite orb_false_iff, IH, Forall_cons. unfold isUnknown.
    by rewrite bool_decide_eq_false.
Qed.

Lemma deriveReady_True (deps : list ConditionType) (cs : Conditions) :
  Status (deriveReady deps cs) = ConditionTrue
  <-> Forall (fun t => statusOf cs t = ConditionTrue) deps.
Proof.
  unfold deriveReady.
  pose proof (find_isFalse_spec deps cs) as Hf.
  pose proof (existsb_isUnknown_false deps cs) as Hu.
  destruct (find (isFalse cs) deps) as [t|]; simpl.
  - split; [discriminate|]. intros Hall.
    destruct Hf as (b & a & -> & Ht & _).
    apply Forall_app in Hall as [_ Hall]. apply Forall_cons in Hall as [Hall _].
    congruence.
  - destruct (existsb (isUnknown cs) deps); simpl.
    + split; [discriminate|]. intros Hall.
      assert (Hn : Forall (fun u => statusOf cs u <> ConditionUnknown) deps).
      { eapply Forall_impl; [exact Hall|]. simpl. intros x Hx. congruence. }
      apply Hu in Hn. discriminate.
    + split; [intros _|reflexivity].
      apply proj1 in Hu. specialize (Hu eq_refl).
      induction deps as [|d deps IH]; [constructor|].
      apply Forall_cons in Hf as [Hf1 Hf2]. apply Forall_cons in Hu as [Hu1 Hu2].
      constructor; [|auto]. destruct (statusOf cs d); congruence.
Qed.

Lemma deriveReady_False (deps : list ConditionType) (cs : Conditions) (t : ConditionType) :
  FirstFalse deps cs t ->
  Status (deriveReady deps cs) = ConditionFalse
  /\ Reason (deriveReady deps cs) = Reason (conditionOf cs t)
  /\ Message (deriveReady deps cs) = Message (conditionOf cs t).
Proof.
  intros Ht. unfold deriveReady. rewrite (FirstFalse_find _ _ _ Ht). simpl. auto.
Qed.

Lemma Exists_FirstFalse (deps : list ConditionType) (cs : Conditions) :
  Exists (fun t => statusOf cs t = ConditionFalse) deps ->
  exists t, FirstFalse deps cs t.
Proof.
  intros Hex. pose proof (find_isFalse_spec deps cs) as Hf.
  destruct (find (isFalse cs) deps) as [t|]; [eauto|].
  exfalso. induction Hex as [x l Hx|x l _ IH].
  - apply Forall_cons in Hf as [Hf _]. contradiction.
  - apply Forall_cons in Hf as [_ Hf]. auto.
Qed.

Lemma deriveReady_Unknown (deps : list ConditionType) (cs : Conditions) :
  Forall (fun t => statusOf cs t <> ConditionFalse) deps ->
  Exists (fun t => statusOf cs t = ConditionUnknown) deps ->
  Status (deriveReady deps cs) = ConditionUnknown.
Proof.
  intros Hall Hex. unfold deriveReady.
  pose proof (find_isFalse_spec deps cs) as Hf.
  destruct (find (isFalse cs) deps) as [t|]; simpl.
  - destruct Hf as (b & a & -> & Ht & _).
    apply Forall_app in Hall as [_ Hall]. apply Forall_cons in Hall as [Hall _].
    contradiction.
  - destruct (existsb (isUnknown cs) deps) eqn:E; [reflexivity|].
    apply existsb_isUnknown_false in E. exfalso.
    induction Hex as [x l Hx|x l _ IH].
    + apply Forall_cons in E as [E _]. contradiction.
    + apply Forall_cons in E as [_ E]. apply Forall_cons in Hall as [_ Hall].
      apply Forall_cons in Hf as [_ Hf]. auto.
Qed.

(** The derived condition does not depend on the stored [Ready]. *)
Lemma deriveReady_insert_Ready (deps : list ConditionType) (cs : Conditions) (c : Condition) :
  Ready ∉ deps -> deriveReady deps (<[Ready := c]> cs) = deriveReady deps cs.
Proof.
  intros Hn. unfold deriveReady.
  assert (Hfind : find (isFalse (<[Ready := c]> cs)) deps = find (isFalse cs) deps).
  { induction deps as [|d deps IH]; [reflexivity|]. simpl.
    apply not_elem_of_cons in Hn as [Hd Hn]. unfold isFalse at 1 3.
    rewrite statusOf_insert_ne by done. rewrite IH by done. reflexivity. }
  assert (Hex : existsb (isUnknown (<[Ready := c]> cs)) deps = existsb (isUnknown cs) deps).
  { clear Hfind. induction deps as [|d deps IH]; [reflexivity|]. simpl.
    apply not_elem_of_cons in Hn as [Hd Hn]. unfold isUnknown at 1 3.
    rewrite statusOf_insert_ne by done. rewrite IH by done. reflexivity. }
  rewrite Hfind, Hex.
  destruct (find (isFalse cs) deps) as [t|] eqn:E; [|reflexivity].
  assert (Ht : t ∈ deps).
  { apply find_some in E as [E _]. by apply list_elem_of_In. }
  assert (Ready <> t) by (intros <-; contradiction).
  by rewrite conditionOf_insert_ne.
Qed.

Lemma statusOf_aggregate (deps : list ConditionType) (cs : Conditions) (t : ConditionType) :
  Ready ∉ deps -> t ∈ deps -> statusOf (aggregate deps cs) t = statusOf cs t.
Proof.
  intros Hn Ht. unfold aggregate. apply statusOf_insert_ne. intros <-. contradiction.
Qed.

(** After [aggregate] the stored [Ready] is the derived one. *)
Lemma aggregate_consistent (deps : list ConditionType) (cs : Conditions) :
  Ready ∉ deps ->
  aggregate deps cs !! Ready = Some (deriveReady deps (aggregate deps cs)).
Proof.
  intros Hn. unfold aggregate. rewrite lookup_insert_eq.
  by rewrite deriveReady_insert_Ready.
Qed.

Lemma apply_consistent (deps : list ConditionType) (o : Op) (cs : Conditions) :
  Ready ∉ deps ->
  apply deps o cs !! Ready = Some (deriveReady deps (apply deps o cs)).
Proof.
  intros Hn. destruct o; simpl.
  - apply aggregate_consistent, Hn.
  - apply aggregate_consistent, Hn.
  - unfold PropagateChildStatus. rewrite lookup_singleton_eq.
    apply aggregate_consistent, Hn.
Qed.

(** C1. Whatever operation last changed a dependency condition of an
    owner, the [Ready] condition stored afterwards is the derived one:
    it is [True] iff every tracked condition is [True]; if some tracked
    condition is [False], there is a first such condition in declared
    order and [Ready] is [False] with that condition's reason and
    message; if no tracked condition is [False] and some is [Unknown],
    [Ready] is [Unknown]. *)
Theorem Ready_aggregation (deps : list ConditionType) (o : Op) (cs : Conditions)
    (Hdeps : Ready ∉ deps) :
  let cs' := apply deps o cs in
  exists r,
    cs' !! Ready = Some r
    /\ (Status r = ConditionTrue
        <-> Forall (fun t => statusOf cs' t = ConditionTrue) deps)
    /\ (Exists (fun t => statusOf cs' t = ConditionFalse) deps ->
        exists t, FirstFalse deps cs' t)
    /\ (forall t, FirstFalse deps cs' t ->
          Status r = ConditionFalse
          /\ Reason r = Reason (conditionOf cs' t)
          /\ Message r = Message (conditionOf cs' t))
    /\ (Forall (fun t => statusOf cs' t <> ConditionFalse) deps ->
        Exists (fun t => statusOf cs' t = ConditionUnknown) deps ->
        Status r = ConditionUnknown).
Proof.
  intros cs'. exists (deriveReady deps cs'). split; [|split; [|split; [|split]]].
  - apply apply_consistent, Hdeps.
  - apply deriveReady_True.
  - apply Exists_FirstFalse.
  - apply deriveReady_False.
  - apply deriveReady_Unknown.
Qed.

End ConditionSetFacts.

(** ** The reconcile driver: owners that are gone or being deleted *)

Section DriverFacts.
Context `{ResourcesPackage, Lifecycle, Formatting}.
Variable c : Reconciler.

Lemma functionbuildLister_Get_absent (ns name : string) (w : World) :
  readReactor c (GetFunctionBuild ns name) = None ->
  functionbuilds w !! (ns, name) = None ->
  functionbuildLister_Get c ns name w = Done (Err (NewNotFound name)) w.
Proof. intros Hr Hl. unfold functionbuildLister_Get. by rewrite Hr, Hl. Qed.

Lemma functionbuildLister_Get_present (ns name : string) (w : World) (o : FunctionBuild) :
  readReactor c (GetFunctionBuild ns name) = None ->
  functionbuilds w !! (ns, name) = Some o ->
  functionbuildLister_Get c ns name w = Done (Ok o) w.
Proof. intros Hr Hl. unfold functionbuildLister_Get. by rewrite Hr, Hl. Qed.

(** C5. When the fetch of the owner named by the key answers not-found
    (as it does when the store holds no object under that key),
    [Reconcile] returns nil and leaves the world as it was: no create,
    update, delete, status write, resolution or event. *)
Theorem Reconcile_owner_not_found (key : string) (w : World)
    (Hfetch : forall ns name,
        SplitMetaNamespaceKey key = Ok (ns, name) ->
        exists err, functionbuildLister_Get c ns name w = Done (Err err) w
                    /\ IsNotFound err = true) :
  Reconcile c key w = Done None w.
Proof.
  unfold Reconcile. destruct (SplitMetaNamespaceKey key) as [[ns name]|e]; [|reflexivity].
  destruct (Hfetch ns name eq_refl) as (err & Hget & Hnf).
  erewrite bind_Done by exact Hget. simpl. by rewrite Hnf.
Qed.

Lemma reconcile_deleted (functionbuild : FunctionBuild) (w : World) (ts : Z) :
  DeletionTimestamp (fbMeta functionbuild) = Some ts ->
  reconcile c functionbuild w = Done (functionbuild, None) w.
Proof. intros Hdel. unfold reconcile. by rewrite Hdel. Qed.

Lemma Reconcile_deleted (functionbuild : FunctionBuild) (w : World) (ts : Z)
    (key ns name : string) :
  DeletionTimestamp (fbMeta functionbuild) = Some ts ->
  SplitMetaNamespaceKey key = Ok (ns, name) ->
  functionbuildLister_Get c ns name w = Done (Ok functionbuild) w ->
  Reconcile c key w = Done None w.
Proof.
  intros Hdel Hkey Hget. unfold Reconcile. rewrite Hkey.
  erewrite bind_Done by exact Hget. simpl.
  erewrite bind_Done by (eapply reconcile_deleted; exact Hdel). simpl.
  unfold semanticStatus. by rewrite bool_decide_eq_true_2.
Qed.

(** C6. For an owner that carries a deletion timestamp, [reconcile]
    returns nil, hands the owner back untouched (no defaulting, no
    condition initialization) and leaves the world as it was; and so
    [Reconcile] on the key of such an owner returns nil and leaves the
    world as it was. *)
Theorem reconcile_deleted_owner (functionbuild : FunctionBuild) (w : World) (ts : Z)
    (Hdel : DeletionTimestamp (fbMeta functionbuild) = Some ts) :
  reconcile c functionbuild w = Done (functionbuild, None) w
  /\ forall key ns name,
      SplitMetaNamespaceKey key = Ok (ns, name) ->
      functionbuildLister_Get c ns name w = Done (Ok functionbuild) w ->
      Reconcile c key w = Done None w.
Proof.
  split; [by eapply reconcile_deleted|].
  intros key ns name. by eapply Reconcile_deleted.
Qed.

End DriverFacts.

(** ** The reconcile driver: the status write *)

Section StatusWrite.
Context `{ResourcesPackage, Lifecycle, Formatting}.
Variable c : Reconciler.

Lemma functionbuildLister_Get_inv (ns name : string) (w w' : World) (r : Result FunctionBuild) :
  functionbuildLister_Get c ns name w = Done r w' ->
  w' = w
  /\ match r with
     | Ok o => readReactor c (GetFunctionBuild ns name) = None
               /\ functionbuilds w !! (ns, name) = Some o
     | Err _ => True
     end.
Proof.
  unfold functionbuildLister_Get. intros Hg.
  repeat case_match; simplify_eq; auto.
Qed.

Lemma functionbuildLister_Get_stable (ns name : string) (w w1 : World)
    (r : Result FunctionBuild) :
  functionbuilds w1 = functionbuilds w ->
  functionbuildLister_Get c ns name w = Done r w ->
  functionbuildLister_Get c ns name w1 = Done r w1.
Proof.
  unfold functionbuildLister_Get. intros ->. intros Hg.
  repeat case_match; simplify_eq; auto.
Qed.

Lemma functionbuildLister_Get_returns (ns name : string) (w : World) :
  exists r, functionbuildLister_Get c ns name w = Done r w.
Proof. unfold functionbuildLister_Get. repeat case_match; eauto. Qed.

(** What [UpdateStatus] does when the object is in the store. *)
Lemma FunctionBuilds_UpdateStatus_present (ns : string) (o stored : FunctionBuild) (w : World) :
  functionbuilds w !! (ns, Name (fbMeta o)) = Some stored ->
  exists r w',
    FunctionBuilds_UpdateStatus c ns o w = Done r w'
    /\ trace w' = (trace w ++ [UpdateStatus ns o])%list
    /\ pvcs w' = pvcs w /\ builds w' = builds w
    /\ match reactor c (UpdateStatus ns o) with
       | Some e => r = Err e /\ functionbuilds w' = functionbuilds w
       | None =>
           r = Ok (setStatus stored (fbStatus o))
           /\ functionbuilds w'
              = <[(ns, Name (fbMeta o)) := setStatus stored (fbStatus o)]> (functionbuilds w)
       end.
Proof.
  intros Hs. unfold FunctionBuilds_UpdateStatus, mbind, M_bind, issue. simpl.
  destruct (reactor c (UpdateStatus ns o)) as [e|]; simpl.
  - eauto 10.
  - rewrite Hs. simpl. eauto 10.
Qed.

(** [updateStatus] on a status that differs from the stored one issues
    exactly one status write, for the stored object with the desired
    status. *)
Lemma updateStatus_differs (desired original : FunctionBuild) (w : World) :
  functionbuildLister_Get c (Namespace (fbMeta desired)) (Name (fbMeta desired)) w
    = Done (Ok original) w ->
  Name (fbMeta original) = Name (fbMeta desired) ->
  fbStatus original <> fbStatus desired ->
  let existing := setStatus original (fbStatus desired) in
  exists r w',
    updateStatus c desired w = Done r w'
    /\ trace w' = (trace w ++ [UpdateStatus (Namespace (fbMeta desired)) existing])%list
    /\ pvcs w' = pvcs w /\ builds w' = builds w
    /\ match reactor c (UpdateStatus (Namespace (fbMeta desired)) existing) with
       | Some e => r = Err e /\ functionbuilds w' = functionbuilds w
       | None =>
           r = Ok existing
           /\ functionbuilds w'
              = <[(Namespace (fbMeta desired), Name (fbMeta desired)) := existing]>
                  (functionbuilds w)
       end.
Proof.
  intros Hget Hname Hne existing. unfold updateStatus.
  erewrite bind_Done by exact Hget. simpl.
  unfold reflectStatus. rewrite bool_decide_eq_false_2 by exact Hne.
  apply functionbuildLister_Get_inv in Hget as [_ [_ Hs]].
  destruct (FunctionBuilds_UpdateStatus_present (Namespace (fbMeta desired)) existing
              original w) as (r & w' & Hu & Ht & Hp & Hb & Hr).
  { subst existing. simpl. by rewrite Hname. }
  exists r, w'. subst existing. simpl in *. rewrite Hname in Hr.
  repeat split; assumption.
Qed.

Lemma Reconcile_status_equal key ns name original fb' err w w1 :
  SplitMetaNamespaceKey key = Ok (ns, name) ->
  functionbuildLister_Get c ns name w = Done (Ok original) w ->
  reconcile c original w = Done (fb', err) w1 ->
  fbStatus original = fbStatus fb' ->
  Reconcile c key w = Done err w1.
Proof.
  intros Hkey Hget Hrec Heq. unfold Reconcile. rewrite Hkey.
  erewrite bind_Done by exact Hget. simpl.
  erewrite bind_Done by exact Hrec. simpl.
  unfold semanticStatus. by rewrite bool_decide_eq_true_2.
Qed.

Lemma Reconcile_status_differs key ns name original fb' err w w1 :
  SplitMetaNamespaceKey key = Ok (ns, name) ->
  functionbuildLister_Get c ns name w = Done (Ok original) w ->
  reconcile c original w = Done (fb', err) w1 ->
  Namespace (fbMeta original) = ns /\ Name (fbMeta original) = name ->
  fbStatus original <> fbStatus fb' ->
  let existing := setStatus original (fbStatus fb') in
  exists r w' ev,
    Reconcile c key w = Done r w'
    /\ trace w' = (trace w1 ++ UpdateStatus ns existing :: ev)%list
    /\ forallb isEvent ev = true
    /\ pvcs w' = pvcs w1 /\ builds w' = builds w1
    /\ match reactor c (UpdateStatus ns existing) with
       | Some e => r = Some e /\ functionbuilds w' = functionbuilds w
       | None =>
           r = err
           /\ functionbuilds w' = <[(ns, name) := existing]> (functionbuilds w)
       end.
Proof.
  intros Hkey Hget Hrec [Hns Hname] Hne existing.
  pose proof (reconcile_owner_meta c original _ _ _ Hrec) as Hmeta. simpl in Hmeta.
  pose proof (respects_Done _ _ _ _ _ (reconcile_footprint c original) Hrec)
    as (Hf & _ & _ & _). specialize (Hf eq_refl).
  assert (Hget1 : functionbuildLister_Get c (Namespace (fbMeta fb')) (Name (fbMeta fb')) w1
                  = Done (Ok original) w1).
  { rewrite Hmeta, Hns, Hname. eapply functionbuildLister_Get_stable; eassumption. }
  destruct (updateStatus_differs fb' original w1 Hget1)
    as (u & w2 & Hu & Ht & Hp & Hb & Hr); [by rewrite Hmeta|exact Hne|].
  rewrite ?Hmeta, ?Hns, ?Hname in Ht, Hr.
  unfold Reconcile. rewrite Hkey.
  erewrite bind_Done by exact Hget. simpl.
  erewrite bind_Done by exact Hrec. simpl.
  unfold semanticStatus. rewrite bool_decide_eq_false_2 by exact Hne.
  erewrite bind_Done by exact Hu. fold existing in Ht, Hr.
  destruct (reactor c (UpdateStatus ns existing)) as [e|]; destruct Hr as [-> Hfb].
  - unfold Recorder_Eventf, issue, mbind, M_bind. simpl.
    eexists _, _, [_]. split; [reflexivity|]. simpl. rewrite Ht, <- app_assoc.
    repeat split; try done. congruence.
  - destruct err as [e|].
    + eexists _, _, []. split; [reflexivity|]. repeat split; try done. congruence.
    + unfold Recorder_Eventf, issue, mbind, M_bind. simpl.
      eexists _, _, [_]. split; [reflexivity|]. simpl. rewrite Ht, <- app_assoc.
      repeat split; try done. congruence.
Qed.

(** C9. When the inner pass returns an error and has changed the
    status of the owner, the driver issues the status write for the
    changed status right after the inner pass and before it returns;
    it then returns an error: the error of the inner pass when the
    write is accepted, the error of the write otherwise.  After the
    write only an event is recorded. *)
Theorem Reconcile_persists_status_on_error key ns name original functionbuild err w w1
    (Hkey : SplitMetaNamespaceKey key = Ok (ns, name))
    (Hget : functionbuildLister_Get c ns name w = Done (Ok original) w)
    (Hkeyed : keyedByName w)
    (Hrec : reconcile c original w = Done (functionbuild, Some err) w1)
    (Hchanged : fbStatus functionbuild <> fbStatus original) :
  exists r w' ev,
    Reconcile c key w = Done (Some r) w'
    /\ trace w' = (trace w1
                   ++ UpdateStatus ns (setStatus original (fbStatus functionbuild)) :: ev)%list
    /\ forallb isEvent ev = true
    /\ match reactor c (UpdateStatus ns (setStatus original (fbStatus functionbuild))) with
       | Some e => r = e
       | None =>
           r = err
           /\ functionbuilds w' !! (ns, name)
              = Some (setStatus original (fbStatus functionbuild))
       end.
Proof.
  assert (Hwf : Namespace (fbMeta original) = ns /\ Name (fbMeta original) = name).
  { apply Hkeyed. by apply functionbuildLister_Get_inv in Hget as [_ [_ Hs]]. }
  destruct (Reconcile_status_differs key ns name original functionbuild (Some err) w w1
              Hkey Hget Hrec Hwf) as (r & w' & ev & HR & Ht & Hev & _ & _ & Hr);
    [congruence|].
  destruct (reactor c _) as [e|] eqn:Er; destruct Hr as [-> Hfb].
  - exists e, w', ev. repeat split; done.
  - exists err, w', ev. repeat split; try done.
    rewrite Hfb. apply lookup_insert_eq.
Qed.

End StatusWrite.

(** ** Ownership conflicts *)

Section NotOwned.
Context `{ResourcesPackage, Lifecycle, Formatting}.
Variable c : Reconciler.

Lemma issued_app (w w' : World) (l : list Action) :
  trace w' = (trace w ++ l)%list -> issued w w' = l.
Proof. intros Ht. unfold issued. by rewrite Ht, drop_app_length. Qed.

Lemma issued_extend (P : Action -> bool) (w w1 w' : World) (tail : list Action) :
  grows P w w1 -> trace w' = (trace w1 ++ tail)%list ->
  issued w w' = (issued w w1 ++ tail)%list.
Proof.
  intros Hg Ht. apply grows_issued in Hg as [Hg _].
  apply issued_app. rewrite Ht, app_assoc. f_equal. exact Hg.
Qed.

(** The driver after an inner pass that returned an error: it returns an
    error, and after the inner pass it issues at most the status write
    and an event. *)
Lemma Reconcile_inner_error key ns name original fb' e w w1 :
  SplitMetaNamespaceKey key = Ok (ns, name) ->
  functionbuildLister_Get c ns name w = Done (Ok original) w ->
  keyedByName w ->
  reconcile c original w = Done (fb', Some e) w1 ->
  exists r w' tail,
    Reconcile c key w = Done (Some r) w'
    /\ trace w' = (trace w1 ++ tail)%list
    /\ forallb (orAction isStatusWrite isEvent) tail = true
    /\ pvcs w' = pvcs w1 /\ builds w' = builds w1
    /\ (r = e
        \/ fbStatus fb' <> fbStatus original
           /\ reactor c (UpdateStatus ns (setStatus original (fbStatus fb'))) = Some r).
Proof.
  intros Hkey Hget Hkeyed Hrec.
  destruct (decide (fbStatus original = fbStatus fb')) as [Heq|Hne].
  - exists e, w1, []. rewrite app_nil_r.
    erewrite Reconcile_status_equal by eassumption. repeat split; auto.
  - assert (Hwf : Namespace (fbMeta original) = ns /\ Name (fbMeta original) = name).
    { apply Hkeyed. by apply functionbuildLister_Get_inv in Hget as [_ [_ Hs]]. }
    destruct (Reconcile_status_differs c key ns name original fb' (Some e) w w1
                Hkey Hget Hrec Hwf Hne) as (r & w' & ev & HR & Ht & Hev & Hp & Hb & Hr).
    assert (Htail : forallb (orAction isStatusWrite isEvent)
                      (UpdateStatus ns (setStatus original (fbStatus fb')) :: ev) = true).
    { simpl. rewrite forallb_forall in *. intros a Ha. unfold orAction.
      rewrite (Hev a Ha). apply orb_true_r. }
    destruct (reactor c _) as [e'|] eqn:Er; destruct Hr as [-> Hfb].
    + exists e', w', (UpdateStatus ns (setStatus original (fbStatus fb')) :: ev).
      repeat split; auto.
    + exists e, w', (UpdateStatus ns (setStatus original (fbStatus fb')) :: ev).
      repeat split; auto.
Qed.

Lemma reconcile_unfold (fb : FunctionBuild) :
  DeletionTimestamp (fbMeta fb) = None ->
  reconcile c fb
  = ('(fb1, r) ← reconcile_buildCache c (initialized fb);
     match r with
     | Err err => mret (fb1, Some err)
     | Ok buildCache =>
         '(fb2, r) ← reconcile_build c (withBuildCache fb1 buildCache);
         match r with
         | Err err => mret (fb2, Some err)
         | Ok build => reconcile_image c fb2 build
         end
     end).
Proof. intros Hlive. unfold reconcile. rewrite Hlive. reflexivity. Qed.

Lemma reconcile_buildCache_not_owned (fb : FunctionBuild) (w : World)
    (buildCache : PersistentVolumeClaim) :
  pvcLister_Get c (Namespace (fbMeta fb)) (names_BuildCache fb) w = Done (Ok buildCache) w ->
  IsControlledBy (pvcMeta buildCache) (fbMeta fb) = false ->
  reconcile_buildCache c fb w
  = Done (setStatus fb (MarkBuildCacheNotOwned (names_BuildCache fb) (fbStatus fb)),
          Err (notOwnedError (Name (fbMeta fb)) "PersistentVolumeClaim"
                 (names_BuildCache fb))) w.
Proof.
  intros Hget Hctl. unfold reconcile_buildCache.
  erewrite bind_Done by exact Hget. simpl. rewrite Hctl. reflexivity.
Qed.

Lemma reconcile_build_not_owned (fb : FunctionBuild) (w : World) (build : Build) :
  knbuildLister_Get c (Namespace (fbMeta fb)) (names_Build fb) w = Done (Ok build) w ->
  IsControlledBy (buildMeta build) (fbMeta fb) = false ->
  reconcile_build c fb w
  = Done (setStatus fb (MarkBuildNotOwned (names_Build fb) (fbStatus fb)),
          Err (notOwnedError (Name (fbMeta fb)) "Build" (names_Build fb))) w.
Proof.
  intros Hget Hctl. unfold reconcile_build.
  erewrite bind_Done by exact Hget. simpl. rewrite Hctl. reflexivity.
Qed.

(** C2. In a cycle for a live owner in which the child with the
    canonical name is fetched and is not controller-owned by the owner,
    [reconcile] marks the child's condition as not owned on the owner's
    status and returns the conflict error, and neither it nor the
    driver issues any create, update or delete for a child of that
    kind: for the build cache nothing at all happens to the world inside
    [reconcile]; for the build, the world is the one the build-cache
    step left, with the builds as they were.  [Reconcile] then returns
    an error: the conflict error, or the error of the status write when
    that write is refused. *)
Theorem reconcile_not_owned_child (functionbuild : FunctionBuild) (w : World)
    (Hlive : DeletionTimestamp (fbMeta functionbuild) = None) :
  let fb1 := initialized functionbuild in
  (forall buildCache,
      pvcLister_Get c (Namespace (fbMeta fb1)) (names_BuildCache fb1) w
        = Done (Ok buildCache) w ->
      IsControlledBy (pvcMeta buildCache) (fbMeta fb1) = false ->
      let marked :=
        setStatus fb1 (MarkBuildCacheNotOwned (names_BuildCache fb1) (fbStatus fb1)) in
      let conflictErr :=
        notOwnedError (Name (fbMeta fb1)) "PersistentVolumeClaim" (names_BuildCache fb1) in
      reconcile c functionbuild w = Done (marked, Some conflictErr) w
      /\ forall key ns name,
          SplitMetaNamespaceKey key = Ok (ns, name) ->
          functionbuildLister_Get c ns name w = Done (Ok functionbuild) w ->
          keyedByName w ->
          exists r w',
            Reconcile c key w = Done (Some r) w'
            /\ pvcs w' = pvcs w /\ builds w' = builds w
            /\ forallb (orAction isStatusWrite isEvent) (issued w w') = true
            /\ (r = conflictErr
                \/ fbStatus marked <> fbStatus functionbuild
                   /\ reactor c (UpdateStatus ns (setStatus functionbuild (fbStatus marked)))
                      = Some r))
  /\ (forall fb1' buildCache w1 build,
      reconcile_buildCache c fb1 w = Done (fb1', Ok buildCache) w1 ->
      let fb2 := withBuildCache fb1' buildCache in
      knbuildLister_Get c (Namespace (fbMeta fb2)) (names_Build fb2) w1
        = Done (Ok build) w1 ->
      IsControlledBy (buildMeta build) (fbMeta fb2) = false ->
      let marked := setStatus fb2 (MarkBuildNotOwned (names_Build fb2) (fbStatus fb2)) in
      let conflictErr := notOwnedError (Name (fbMeta fb2)) "Build" (names_Build fb2) in
      reconcile c functionbuild w = Done (marked, Some conflictErr) w1
      /\ builds w1 = builds w
      /\ forallb (fun a => negb (touchesBuild a)) (issued w w1) = true
      /\ forall key ns name,
          SplitMetaNamespaceKey key = Ok (ns, name) ->
          functionbuildLister_Get c ns name w = Done (Ok functionbuild) w ->
          keyedByName w ->
          exists r w',
            Reconcile c key w = Done (Some r) w'
            /\ builds w' = builds w
            /\ forallb (fun a => negb (touchesBuild a)) (issued w w') = true
            /\ (r = conflictErr
                \/ fbStatus marked <> fbStatus functionbuild
                   /\ reactor c (UpdateStatus ns (setStatus functionbuild (fbStatus marked)))
                      = Some r)).
Proof.
  intros fb1. split.
  - intros buildCache Hget Hctl marked conflictErr.
    assert (Hrec : reconcile c functionbuild w = Done (marked, Some conflictErr) w).
    { rewrite reconcile_unfold by exact Hlive.
      rewrite (bind_Done _ _ _ _ _ (reconcile_buildCache_not_owned _ _ _ Hget Hctl)).
      reflexivity. }
    split; [exact Hrec|].
    intros key ns name Hkey Hfetch Hkeyed.
    destruct (Reconcile_inner_error key ns name functionbuild marked conflictErr w w
                Hkey Hfetch Hkeyed Hrec) as (r & w' & tail & HR & Ht & Htail & Hp & Hb & Hr).
    exists r, w'. rewrite (issued_app _ _ _ Ht). repeat split; auto.
  - intros fb1' buildCache w1 build Hcache fb2 Hget Hctl marked conflictErr.
    assert (Hrec : reconcile c functionbuild w = Done (marked, Some conflictErr) w1).
    { rewrite reconcile_unfold by exact Hlive.
      erewrite bind_Done by exact Hcache. simpl.
      rewrite (bind_Done _ _ _ _ _ (reconcile_build_not_owned _ _ _ Hget Hctl)).
      reflexivity. }
    pose proof (respects_Done _ _ _ _ _ (reconcile_buildCache_footprint c fb1) Hcache)
      as (_ & _ & Hb1 & Hg1). specialize (Hb1 eq_refl).
    assert (Hnb : forallb (fun a => negb (touchesBuild a)) (issued w w1) = true).
    { apply grows_issued in Hg1 as [_ Hg1]. rewrite forallb_forall in *.
      intros a Ha. specialize (Hg1 a Ha). destruct a; done. }
    split; [exact Hrec|]. split; [exact Hb1|]. split; [exact Hnb|].
    intros key ns name Hkey Hfetch Hkeyed.
    destruct (Reconcile_inner_error key ns name functionbuild marked conflictErr w w1
                Hkey Hfetch Hkeyed Hrec) as (r & w' & tail & HR & Ht & Htail & Hp & Hb & Hr).
    exists r, w'. split; [exact HR|]. split; [congruence|]. split; [|exact Hr].
    rewrite (issued_extend _ _ _ _ _ Hg1 Ht), forallb_app, Hnb. simpl.
    rewrite forallb_forall in *. intros a Ha. specialize (Htail a Ha).
    destruct a; done.
Qed.

End NotOwned.

(** ** Targeted updates of owned children *)

Section TargetedUpdate.
Context `{ResourcesPackage, Lifecycle, Formatting}.
Variable c : Reconciler.

Lemma semanticStringMap_refl (a : StringMap) : semanticStringMap a a = true.
Proof. unfold semanticStringMap. by apply bool_decide_eq_true_2. Qed.

Lemma semanticResourceRequirements_refl (a : ResourceRequirements) :
  semanticResourceRequirements a a = true.
Proof.
  unfold semanticResourceRequirements, semanticResourceList.
  by rewrite !bool_decide_eq_true_2.
Qed.

Lemma semanticContainers_refl (l : list Container) : semanticContainers l l = true.
Proof.
  induction l as [|x l IH]; [reflexivity|]. simpl. unfold semanticContainer.
  by rewrite !String.eqb_refl, semanticResourceRequirements_refl, IH.
Qed.

Lemma semanticBuildSpec_refl (a : BuildSpec) : semanticBuildSpec a a = true.
Proof.
  unfold semanticBuildSpec.
  by rewrite String.eqb_refl, semanticContainers_refl, bool_decide_eq_true_2.
Qed.

Lemma PersistentVolumeClaims_Update_Ok ns o r w w' :
  PersistentVolumeClaims_Update c ns o w = Done (Ok r) w' ->
  r = o
  /\ trace w' = (trace w ++ [UpdatePersistentVolumeClaim ns o])%list
  /\ pvcs w' = <[(ns, Name (pvcMeta o)) := o]> (pvcs w)
  /\ builds w' = builds w /\ functionbuilds w' = functionbuilds w.
Proof.
  unfold PersistentVolumeClaims_Update, mbind, M_bind, issue, setPvcs, mret, M_ret.
  simpl. intros Hu. repeat case_match; simplify_eq/=. auto.
Qed.

Lemma Builds_Update_Ok ns o r w w' :
  Builds_Update c ns o w = Done (Ok r) w' ->
  r = o
  /\ trace w' = (trace w ++ [UpdateBuild ns o])%list
  /\ builds w' = <[(ns, Name (buildMeta o)) := o]> (builds w)
  /\ pvcs w' = pvcs w /\ functionbuilds w' = functionbuilds w.
Proof.
  unfold Builds_Update, mbind, M_bind, issue, setBuilds, mret, M_ret.
  simpl. intros Hu. repeat case_match; simplify_eq/=. auto.
Qed.

Lemma someResult_Ok {A} (r : Result A) (x : option A) :
  someResult r = Ok x -> exists a, r = Ok a /\ x = Some a.
Proof. destruct r; simpl; intros Hx; simplify_eq. eauto. Qed.


End TargetedUpdate.

(** ** Digest resolution *)

Section DigestResolution.
Context `{ResourcesPackage, Lifecycle, Formatting}.
Variable c : Reconciler.

Lemma filter_forallb_nil {A} (P Q : A -> bool) (l : list A) :
  (forall a, P a = true -> Q a = false) ->
  forallb P l = true -> List.filter Q l = [].
Proof.
  intros HPQ. induction l as [|x l IH]; simpl; [done|].
  intros [Hx Hl]%andb_true_iff. rewrite (HPQ x Hx). auto.
Qed.

(** What the tail of [reconcile] does, by cases on readiness and on the
    answer of the resolver. *)
Lemma reconcile_image_cases (fb2 : FunctionBuild) (build : Build) (w : World) :
  let fb3 := withBuild fb2 build in
  let image := Image (fbSpec fb3) in
  let opt := resolveOptions fb3 build in
  let observed s := setObservedGeneration (Generation (fbMeta fb3)) s in
  reconcile_image c fb2 (Some build) w
  = if IsReady (fbStatus fb3) then
      match resolver c image opt skipRegistries with
      | Ok digest =>
          Done (setStatus fb3 (observed (setLatestImage digest (fbStatus fb3))), None)
               (withAction w (Resolve image opt skipRegistries))
      | Err err =>
          Done (setStatus fb3 (MarkImageMissing (imageMissingMessage image err)
                                 (fbStatus fb3)),
                Some err)
               (withAction w (Resolve image opt skipRegistries))
      end
    else Done (setStatus fb3 (observed (fbStatus fb3)), None) w.
Proof.
  intros fb3 image opt observed. subst fb3 image opt observed.
  unfold reconcile_image, withBuild, resolveOptions.
  cbn [fbStatus fbMeta fbSpec setStatus].
  destruct (IsReady _); [|reflexivity].
  unfold resolver_Resolve, mbind, M_bind, issue, mret, M_ret, withAction.
  fold skipRegistries.
  destruct (resolver c _ _ _); reflexivity.
Qed.


End DigestResolution.

(** ** Extras cleanup *)

Module ChildSynchronizerFacts.
Import ChildSynchronizer.

Section Cleanup.
Context {Child : Type}.
Variable meta : Child -> ObjectMeta.
Variable semanticEquals : Child -> Child -> bool.
Variable copyOwned : Child -> Child -> Child.
Variable select : list Child -> option Child.
Variable labelKey : string.
Variable fails : Call Child -> option error.

Lemma deleteObject_calls (o : Child) (s : Store Child) :
  calls (snd (deleteObject meta fails o s)) = (calls s ++ [deleteCall meta o])%list.
Proof.
  unfold deleteObject, deleteCall, logCall, lookupObject. simpl.
  repeat case_match; reflexivity.
Qed.

Lemma deleteObject_failed (o : Child) (s s' : Store Child) (err : error) :
  deleteObject meta fails o s = (Some err, s') -> objects s' = objects s.
Proof.
  unfold deleteObject, logCall, lookupObject. simpl.
  repeat case_match; intros Hd; simplify_eq; reflexivity.
Qed.

Lemma deleteObject_done (o : Child) (s s' : Store Child) :
  deleteObject meta fails o s = (None, s') ->
  objects s'
  = List.filter (fun y => negb (sameObject meta (Namespace (meta o)) (Name (meta o)) y))
                (objects s).
Proof.
  unfold deleteObject, logCall, lookupObject. simpl.
  repeat case_match; intros Hd; simplify_eq; reflexivity.
Qed.

Lemma createObject_calls (o : Child) (s : Store Child) :
  calls (snd (createObject meta fails o s)) = (calls s ++ [Create o])%list.
Proof.
  unfold createObject, logCall, lookupObject. simpl.
  repeat case_match; reflexivity.
Qed.

Lemma updateObject_calls (o : Child) (s : Store Child) :
  calls (snd (updateObject meta fails o s)) = (calls s ++ [Update o])%list.
Proof.
  unfold updateObject, logCall, lookupObject. simpl.
  repeat case_match; reflexivity.
Qed.

Lemma issued_calls (s s' : Store Child) (l : list (Call Child)) :
  calls s' = (calls s ++ l)%list -> issued s s' = l.
Proof. intros Hc. unfold issued. by rewrite Hc, drop_app_length. Qed.

(** C8. When the owned children other than the canonical one are two
    extras [e1] and [e2] and a child is desired (and no foreign child
    has its name): the cycle issues at most one create, for the
    desired child, and only when no canonical child exists; if
    deleting [e1] fails, the error is returned, the delete of [e1]
    is the only call of the cycle and the objects are as they were;
    if deleting [e1] succeeds and deleting [e2] fails, the error is
    returned after these two deletes and [e1] stays deleted; if both
    deletes succeed, they are the only deletes of the cycle. *)
Theorem extras_cleanup (owner : ObjectMeta) (d e1 e2 : Child) (s : Store Child)
    (Hconflict : conflict meta owner (Some d) s = None)
    (Hextras : extrasOf meta (canonicalOf select (ownedChildren meta labelKey owner s))
                        (ownedChildren meta labelKey owner s) = [e1; e2]) :
  let run := Converge meta semanticEquals copyOwned select labelKey fails owner (Some d) s in
  let new := issued s (snd run) in
  (List.filter isCreate new = []
   \/ List.filter isCreate new = [Create d]
      /\ canonicalOf select (ownedChildren meta labelKey owner s) = None)
  /\ match deleteObject meta fails e1 s with
     | (Some err, s1) =>
         run = (Failed err, s1) /\ new = [deleteCall meta e1] /\ objects s1 = objects s
     | (None, s1) =>
         match deleteObject meta fails e2 s1 with
         | (Some err, s2) =>
             run = (Failed err, s2)
             /\ new = [deleteCall meta e1; deleteCall meta e2]
             /\ objects s2
                = List.filter
                    (fun y => negb (sameObject meta (Namespace (meta e1))
                                               (Name (meta e1)) y))
                    (objects s)
         | (None, s2) =>
             List.filter isDelete new = [deleteCall meta e1; deleteCall meta e2]
         end
     end.
Proof.
  intros run new. subst new run. unfold Converge.
  rewrite Hconflict, Hextras. simpl deleteExtras.
  pose proof (deleteObject_calls e1 s) as Hc1.
  destruct (deleteObject meta fails e1 s) as [[err1|] s1] eqn:Hd1; simpl in Hc1.
  { simpl. rewrite (issued_calls _ _ _ Hc1). simpl.
    split; [by left|]. repeat split. eapply deleteObject_failed; eassumption. }
  pose proof (deleteObject_calls e2 s1) as Hc2.
  destruct (deleteObject meta fails e2 s1) as [[err2|] s2] eqn:Hd2; simpl in Hc2.
  { simpl. rewrite Hc1, <- app_assoc in Hc2. rewrite (issued_calls _ _ _ Hc2). simpl.
    split; [by left|]. repeat split.
    rewrite (deleteObject_failed _ _ _ _ Hd2). by apply deleteObject_done. }
  rewrite Hc1, <- app_assoc in Hc2. simpl in Hc2.
  destruct (canonicalOf select (ownedChildren meta labelKey owner s)) as [o|] eqn:Hk.
  - destruct (semanticEquals d o).
    + simpl. rewrite (issued_calls _ _ _ Hc2). simpl. split; [by left|reflexivity].
    + pose proof (updateObject_calls (copyOwned d o) s2) as Hc3.
      rewrite Hc2, <- app_assoc in Hc3. simpl in Hc3.
      destruct (updateObject meta fails (copyOwned d o) s2) as [[o'|err3] s3];
        simpl in *; rewrite (issued_calls _ _ _ Hc3); simpl;
        (split; [by left|reflexivity]).
  - pose proof (createObject_calls d s2) as Hc3.
    rewrite Hc2, <- app_assoc in Hc3. simpl in Hc3.
    destruct (createObject meta fails d s2) as [[o'|err3] s3]; simpl in *.
    + rewrite (issued_calls _ _ _ Hc3). simpl. split; [by right|reflexivity].
    + destruct err3 as [[] ?|?]; simpl; rewrite (issued_calls _ _ _ Hc3); simpl;
        (split; [by right|reflexivity]).
Qed.

End Cleanup.

End ChildSynchronizerFacts.

(** ** The status write is issued exactly when the status changed *)

Section StatusWriteIff.
Context `{ResourcesPackage, Lifecycle, Formatting}.
Variable c : Reconciler.

Lemma reconcile_no_status_write (fb : FunctionBuild) (w : World) :
  List.filter isStatusWrite (issued w (worldOf (reconcile c fb w))) = [].
Proof.
  pose proof (reconcile_footprint c fb w) as Hf.
  destruct (reconcile c fb w) as [a w1|w1]; simpl;
    destruct Hf as (_ & _ & _ & Hg); apply grows_issued in Hg as [_ Hg];
    (eapply filter_forallb_nil; [|exact Hg]);
    intros a0; unfold notStatusWrite; by destruct (isStatusWrite a0).
Qed.

Lemma filter_events_nil (ev : list Action) :
  forallb isEvent ev = true -> List.filter isStatusWrite ev = [].
Proof. apply filter_forallb_nil. by intros []. Qed.

(** The status writes of one [Reconcile], and what they leave in the
    store. *)
Lemma Reconcile_status_writes (key : string) (w : World) :
  keyedByName w ->
  let w' := worldOf (Reconcile c key w) in
  List.filter isStatusWrite (issued w w') = expectedStatusWrites (innerPass c key w)
  /\ (forall ns original fb',
        innerPass c key w = Some (ns, original, fb') ->
        if bool_decide (fbStatus original = fbStatus fb')
        then functionbuilds w' = functionbuilds w
        else match reactor c (UpdateStatus ns (setStatus original (fbStatus fb'))) with
             | None =>
                 functionbuilds w'
                 = <[(ns, Name (fbMeta original)) := setStatus original (fbStatus fb')]>
                     (functionbuilds w)
             | Some _ => functionbuilds w' = functionbuilds w
             end).
Proof.
  intros Hkeyed w'. subst w'. unfold innerPass.
  destruct (SplitMetaNamespaceKey key) as [[ns name]|e] eqn:Hkey.
  2:{ unfold Reconcile. rewrite Hkey. simpl. rewrite issued_refl. split; [done|].
      intros; discriminate. }
  destruct (functionbuildLister_Get_returns c ns name w) as [r Hget]. rewrite Hget.
  destruct r as [original|e].
  2:{ unfold Reconcile. rewrite Hkey. erewrite bind_Done by exact Hget. simpl.
      destruct (IsNotFound e); simpl; rewrite issued_refl; (split; [done|]);
        intros; discriminate. }
  pose proof (reconcile_no_status_write original w) as Hnone.
  pose proof (reconcile_footprint c original w) as Hfoot.
  destruct (reconcile c original w) as [[fb' err] w1|w1] eqn:Hrec; simpl in Hnone.
  2:{ unfold Reconcile. rewrite Hkey. erewrite bind_Done by exact Hget. simpl.
      erewrite bind_Panic by exact Hrec. simpl. split; [exact Hnone|].
      intros; discriminate. }
  destruct Hfoot as (Hkeep & _ & _ & Hg1). specialize (Hkeep eq_refl).
  simpl. case_bool_decide as Hst.
  - erewrite Reconcile_status_equal by eassumption. simpl. split; [exact Hnone|].
    intros ns' o' f' Hinj. injection Hinj as <- <- <-.
    by rewrite bool_decide_eq_true_2.
  - assert (Hwf : Namespace (fbMeta original) = ns /\ Name (fbMeta original) = name).
    { apply Hkeyed. by apply functionbuildLister_Get_inv in Hget as [_ [_ Hs]]. }
    destruct (Reconcile_status_differs c key ns name original fb' err w w1
                Hkey Hget Hrec Hwf Hst) as (r & w' & ev & HR & Ht & Hev & _ & _ & Hr).
    rewrite HR. simpl. split.
    + rewrite (issued_extend _ _ _ _ _ Hg1 Ht), List.filter_app, Hnone. simpl.
      by rewrite filter_events_nil.
    + intros ns' o' f' Hinj. injection Hinj as <- <- <-.
      rewrite bool_decide_eq_false_2 by exact Hst.
      destruct Hwf as [_ ->].
      destruct (reactor c _); by destruct Hr as [_ ->].
Qed.

End StatusWriteIff.

(** ** A second cycle with no intervening change *)

Section Quiescence.
Context `{ResourcesPackage, Lifecycle, Formatting}.
Variable c : Reconciler.
Hypothesis Hreliable : reliableListers c.

Lemma pvcLister_Get_reliable (ns name : string) (w : World) :
  pvcLister_Get c ns name w
  = Done (match pvcs w !! (ns, name) with
          | Some o => Ok o
          | None => Err (NewNotFound name)
          end) w.
Proof. unfold pvcLister_Get. rewrite Hreliable. by destruct (pvcs w !! _). Qed.

Lemma knbuildLister_Get_reliable (ns name : string) (w : World) :
  knbuildLister_Get c ns name w
  = Done (match builds w !! (ns, name) with
          | Some o => Ok o
          | None => Err (NewNotFound name)
          end) w.
Proof. unfold knbuildLister_Get. rewrite Hreliable. by destruct (builds w !! _). Qed.

Lemma functionbuildLister_Get_reliable (ns name : string) (w : World) :
  functionbuildLister_Get c ns name w
  = Done (match functionbuilds w !! (ns, name) with
          | Some o => Ok o
          | None => Err (NewNotFound name)
          end) w.
Proof.
  unfold functionbuildLister_Get. rewrite Hreliable. by destruct (functionbuilds w !! _).
Qed.

Lemma PersistentVolumeClaims_Create_Ok ns o r w w' :
  PersistentVolumeClaims_Create c ns o w = Done (Ok r) w' ->
  r = o /\ pvcs w' = <[(ns, Name (pvcMeta o)) := o]> (pvcs w).
Proof.
  unfold PersistentVolumeClaims_Create, mbind, M_bind, issue, setPvcs, mret, M_ret.
  simpl. intros Hu. repeat case_match; simplify_eq/=. auto.
Qed.

Lemma PersistentVolumeClaims_Delete_None ns name uid w w' :
  PersistentVolumeClaims_Delete c ns name uid w = Done None w' ->
  pvcs w' = delete (ns, name) (pvcs w).
Proof.
  unfold PersistentVolumeClaims_Delete, mbind, M_bind, issue, setPvcs, mret, M_ret.
  simpl. intros Hu. repeat case_match; simplify_eq/=. auto.
Qed.

Lemma Builds_Create_Ok ns o r w w' :
  Builds_Create c ns o w = Done (Ok r) w' ->
  r = o /\ builds w' = <[(ns, Name (buildMeta o)) := o]> (builds w).
Proof.
  unfold Builds_Create, mbind, M_bind, issue, setBuilds, mret, M_ret.
  simpl. intros Hu. repeat case_match; simplify_eq/=. auto.
Qed.

Hypothesis Haccepting : acceptingStore c.

(** With an accepting store, a call fails only when it is not well
    formed for the store it meets. *)
Lemma PersistentVolumeClaims_Create_Err ns o e w w' :
  PersistentVolumeClaims_Create c ns o w = Done (Err e) w' ->
  pvcs w !! (ns, Name (pvcMeta o)) <> None.
Proof.
  unfold PersistentVolumeClaims_Create, mbind, M_bind, issue, setPvcs, mret, M_ret.
  rewrite Haccepting. simpl. intros Hu. repeat case_match; simplify_eq/=. done.
Qed.

Lemma PersistentVolumeClaims_Update_Err ns o e w w' :
  PersistentVolumeClaims_Update c ns o w = Done (Err e) w' ->
  pvcs w !! (ns, Name (pvcMeta o)) = None.
Proof.
  unfold PersistentVolumeClaims_Update, mbind, M_bind, issue, setPvcs, mret, M_ret.
  rewrite Haccepting. simpl. intros Hu. repeat case_match; simplify_eq/=. done.
Qed.

Lemma PersistentVolumeClaims_Delete_Some ns name uid e w w' :
  PersistentVolumeClaims_Delete c ns name uid w = Done (Some e) w' ->
  forall o, pvcs w !! (ns, name) = Some o -> UID (pvcMeta o) <> uid.
Proof.
  unfold PersistentVolumeClaims_Delete, mbind, M_bind, issue, setPvcs, mret, M_ret.
  rewrite Haccepting. simpl. intros Hu o Ho. rewrite Ho in Hu.
  destruct (String.eqb (UID (pvcMeta o)) uid) eqn:Huid; [discriminate|].
  by apply String.eqb_neq.
Qed.

Lemma Builds_Create_Err ns o e w w' :
  Builds_Create c ns o w = Done (Err e) w' ->
  builds w !! (ns, Name (buildMeta o)) <> None.
Proof.
  unfold Builds_Create, mbind, M_bind, issue, setBuilds, mret, M_ret.
  rewrite Haccepting. simpl. intros Hu. repeat case_match; simplify_eq/=. done.
Qed.

Lemma Builds_Update_Err ns o e w w' :
  Builds_Update c ns o w = Done (Err e) w' ->
  builds w !! (ns, Name (buildMeta o)) = None.
Proof.
  unfold Builds_Update, mbind, M_bind, issue, setBuilds, mret, M_ret.
  rewrite Haccepting. simpl. intros Hu. repeat case_match; simplify_eq/=. done.
Qed.

Context `{!ResourcesLaws}.

(** After the first if-chain of [reconcile] went through, the build
    cache it returns is quiescent in the store it leaves. *)
Lemma reconcile_buildCache_quiescent fb w fb' bc w1 :
  (forall ns name o, pvcs w !! (ns, name) = Some o -> Name (pvcMeta o) = name) ->
  reconcile_buildCache c fb w = Done (fb', Ok bc) w1 ->
  quiescentBuildCache fb bc (pvcs w1).
Proof.
  intros Hkeyed Hrun. unfold reconcile_buildCache in Hrun.
  rewrite (bind_Done _ _ _ _ _ (pvcLister_Get_reliable _ _ w)) in Hrun.
  destruct (pvcs w !! (Namespace (fbMeta fb), names_BuildCache fb)) as [o|] eqn:Hlook;
    simpl in Hrun.
  - destruct (IsControlledBy (pvcMeta o) (fbMeta fb)) eqn:Hctl; simpl in Hrun;
      [|discriminate].
    apply bind_inv in Hrun as (r & w2 & Hconv & Hrun).
    unfold reconcileBuildCache in Hconv.
    destruct (MakeBuildCache fb) as [[d|]|e] eqn:Hmake.
    + fold (buildCacheSemanticEquals d o) in *.
      destruct (buildCacheSemanticEquals d o) eqn:Heq.
      * injection Hconv as <- <-. injection Hrun as _ <- <-.
        split; [exact Hlook|]. split; [exact Hctl|]. exists d. by split.
      * destruct (SafeDiffPersistentVolumeClaimSpec _ _).
        2:{ injection Hconv as <- <-. discriminate. }
        apply bind_inv in Hconv as (u & w3 & Hu & Hret).
        injection Hret as <- <-. destruct u as [u|e]; [|discriminate].
        apply PersistentVolumeClaims_Update_Ok in Hu as (-> & _ & Hp & _).
        injection Hrun as _ <- <-. rewrite Hp. simpl.
        rewrite (Hkeyed _ _ _ Hlook), lookup_insert_eq.
        split; [reflexivity|]. split; [exact Hctl|].
        exists d. split; [exact Hmake|]. simpl.
        by rewrite semanticResourceRequirements_refl, semanticStringMap_refl.
    + apply bind_inv in Hconv as (dr & w3 & Hd & Hret).
      injection Hret as <- <-. destruct dr as [e|]; [discriminate|].
      apply PersistentVolumeClaims_Delete_None in Hd.
      unfold Recorder_Eventf, issue, mbind, M_bind in Hrun. simpl in Hrun.
      injection Hrun as _ <- <-. simpl. rewrite Hd, (Hkeyed _ _ _ Hlook).
      by rewrite lookup_delete_eq.
    + injection Hconv as <- <-. discriminate.
  - apply bind_inv in Hrun as (r & w2 & Hcreate & Hrun).
    unfold createBuildCache in Hcreate.
    destruct (MakeBuildCache fb) as [[d|]|e] eqn:Hmake.
    + apply bind_inv in Hcreate as (u & w3 & Hu & Hret).
      injection Hret as <- <-. destruct u as [u|e].
      2:{ unfold Recorder_Eventf, issue, mbind, M_bind in Hrun. discriminate. }
      apply PersistentVolumeClaims_Create_Ok in Hu as (-> & Hp).
      unfold Recorder_Eventf, issue, mbind, M_bind in Hrun. simpl in Hrun.
      injection Hrun as _ <- <-. simpl. rewrite Hp.
      destruct (MakeBuildCache_canonical fb d Hmake) as [Hname Hctl].
      rewrite Hname, lookup_insert_eq.
      split; [reflexivity|]. split; [exact Hctl|].
      exists d. split; [exact Hmake|].
      by rewrite semanticResourceRequirements_refl, semanticStringMap_refl.
    + injection Hcreate as <- <-. injection Hrun as _ <- <-. by split.
    + injection Hcreate as <- <-.
      unfold Recorder_Eventf, issue, mbind, M_bind in Hrun. discriminate.
Qed.

(** A quiescent build cache goes through the first if-chain without
    any call. *)
Lemma reconcile_buildCache_settled fb bc w :
  quiescentBuildCache fb bc (pvcs w) ->
  reconcile_buildCache c fb w = Done (fb, Ok bc) w.
Proof.
  intros Hq. unfold reconcile_buildCache.
  rewrite (bind_Done _ _ _ _ _ (pvcLister_Get_reliable _ _ w)).
  destruct bc as [o|]; simpl in Hq.
  - destruct Hq as (Hlook & Hctl & d & Hmake & Heq). rewrite Hlook. simpl.
    rewrite Hctl. simpl. unfold reconcileBuildCache. rewrite Hmake.
    unfold buildCacheSemanticEquals. rewrite Heq. reflexivity.
  - destruct Hq as (Hlook & Hmake). rewrite Hlook. simpl.
    unfold createBuildCache. rewrite Hmake. reflexivity.
Qed.

Lemma quiescentBuildCache_status fb s bc store :
  quiescentBuildCache fb bc store -> quiescentBuildCache (setStatus fb s) bc store.
Proof.
  unfold quiescentBuildCache. simpl.
  by rewrite names_BuildCache_status, MakeBuildCache_status.
Qed.

Lemma reconcile_build_quiescent fb w fb' b w1 :
  (forall ns name o, builds w !! (ns, name) = Some o -> Name (buildMeta o) = name) ->
  reconcile_build c fb w = Done (fb', Ok (Some b)) w1 ->
  quiescentBuild fb b (builds w1).
Proof.
  intros Hkeyed Hrun. unfold reconcile_build in Hrun.
  rewrite (bind_Done _ _ _ _ _ (knbuildLister_Get_reliable _ _ w)) in Hrun.
  destruct (builds w !! (Namespace (fbMeta fb), names_Build fb)) as [o|] eqn:Hlook;
    simpl in Hrun.
  - destruct (IsControlledBy (buildMeta o) (fbMeta fb)) eqn:Hctl; simpl in Hrun;
      [|discriminate].
    apply bind_inv in Hrun as (r & w2 & Hconv & Hrun).
    injection Hrun as _ -> <-.
    unfold reconcileBuild in Hconv.
    destruct (MakeBuild fb) as [[d|]|e] eqn:Hmake; [|discriminate|discriminate].
    fold (buildSemanticEquals d o) in *.
    destruct (buildSemanticEquals d o) eqn:Heq.
    + injection Hconv as <- <-.
      split; [exact Hlook|]. split; [exact Hctl|]. exists d. by split.
    + destruct (SafeDiffBuildSpec _ _); [|discriminate].
      apply bind_inv in Hconv as (u & w3 & Hu & Hret).
      injection Hret as Hres <-. apply someResult_Ok in Hres as (x & -> & Hx).
      injection Hx as <-.
      apply Builds_Update_Ok in Hu as (-> & _ & Hp & _).
      rewrite Hp. unfold quiescentBuild. simpl.
      rewrite (Hkeyed _ _ _ Hlook), lookup_insert_eq.
      split; [reflexivity|]. split; [exact Hctl|].
      exists d. split; [exact Hmake|]. simpl.
      by rewrite semanticBuildSpec_refl, semanticStringMap_refl.
  - apply bind_inv in Hrun as (r & w2 & Hcreate & Hrun).
    unfold createBuild in Hcreate.
    destruct (MakeBuild fb) as [[d|]|e] eqn:Hmake.
    + apply bind_inv in Hcreate as (u & w3 & Hu & Hret).
      injection Hret as <- <-. destruct u as [u|e].
      2:{ unfold Recorder_Eventf, issue, mbind, M_bind in Hrun. discriminate. }
      apply Builds_Create_Ok in Hu as (-> & Hp).
      unfold Recorder_Eventf, issue, mbind, M_bind in Hrun. simpl in Hrun.
      injection Hrun as _ <- <-. unfold quiescentBuild. simpl. rewrite Hp.
      destruct (MakeBuild_canonical fb d Hmake) as [Hname Hctl].
      rewrite Hname, lookup_insert_eq.
      split; [reflexivity|]. split; [exact Hctl|].
      exists d. split; [exact Hmake|].
      by rewrite semanticBuildSpec_refl, semanticStringMap_refl.
    + injection Hcreate as <- <-. discriminate.
    + injection Hcreate as <- <-.
      unfold Recorder_Eventf, issue, mbind, M_bind in Hrun. discriminate.
Qed.

Lemma reconcile_build_settled fb b w :
  quiescentBuild fb b (builds w) ->
  reconcile_build c fb w = Done (fb, Ok (Some b)) w.
Proof.
  intros (Hlook & Hctl & d & Hmake & Heq). unfold reconcile_build.
  rewrite (bind_Done _ _ _ _ _ (knbuildLister_Get_reliable _ _ w)).
  rewrite Hlook. simpl. rewrite Hctl. simpl.
  unfold reconcileBuild. rewrite Hmake.
  unfold buildSemanticEquals. rewrite Heq. reflexivity.
Qed.

Lemma quiescentBuild_status fb s b store :
  quiescentBuild fb b store -> quiescentBuild (setStatus fb s) b store.
Proof.
  unfold quiescentBuild. simpl.
  by rewrite names_Build_status, MakeBuild_status.
Qed.

(** The first if-chain is stable: run again on the store it left, for
    the same owner with any status, it makes the same of the build cache
    and issues no call; at most it records its failure again. *)
Lemma reconcile_buildCache_stable fb w fb' r w1 :
  (forall ns name o, pvcs w !! (ns, name) = Some o -> Name (pvcMeta o) = name) ->
  reconcile_buildCache c fb w = Done (fb', r) w1 ->
  exists seen,
    cacheOutcome seen fb = (fb', r)
    /\ forall s w', pvcs w' = pvcs w1 ->
         exists w'',
           reconcile_buildCache c (setStatus fb s) w'
           = Done (cacheOutcome seen (setStatus fb s)) w''
           /\ footprint isEvent true true true w' w''.
Proof.
  intros Hkeyed Hrun. destruct r as [bc|e].
  { pose proof (reconcile_buildCache_quiescent _ _ _ _ _ Hkeyed Hrun) as Hq.
    pose proof (reconcile_buildCache_owner c _ _ _ _ Hrun) as Ho. simpl in Ho. subst fb'.
    exists (SeenChild bc). split; [reflexivity|]. intros s w' Hp. exists w'.
    split; [|reflexivity]. apply reconcile_buildCache_settled.
    apply quiescentBuildCache_status. by rewrite Hp. }
  unfold reconcile_buildCache in Hrun.
  rewrite (bind_Done _ _ _ _ _ (pvcLister_Get_reliable _ _ w)) in Hrun.
  destruct (pvcs w !! (Namespace (fbMeta fb), names_BuildCache fb)) as [o|] eqn:Hlook;
    simpl in Hrun.
  - destruct (IsControlledBy (pvcMeta o) (fbMeta fb)) eqn:Hctl; simpl in Hrun.
    + apply bind_inv in Hrun as (r & w2 & Hconv & Hrun).
      unfold reconcileBuildCache in Hconv.
      destruct (MakeBuildCache fb) as [[d|]|e0] eqn:Hmake.
      * fold (buildCacheSemanticEquals d o) in *.
        destruct (buildCacheSemanticEquals d o) eqn:Heq.
        { injection Hconv as <- <-. discriminate. }
        destruct (SafeDiffPersistentVolumeClaimSpec (pvcSpec d) (pvcSpec o))
          as [x|e1] eqn:Hdiff.
        { apply bind_inv in Hconv as (u & w3 & Hu & Hret). injection Hret as <- <-.
          destruct u as [u|e2]; [discriminate|].
          apply PersistentVolumeClaims_Update_Err in Hu. simpl in Hu.
          rewrite (Hkeyed _ _ _ Hlook) in Hu. congruence. }
        injection Hconv as <- <-. injection Hrun as <- <- <-.
        eexists (SeenError _). split; [reflexivity|]. intros s w' Hp. exists w'.
        split; [|reflexivity]. unfold reconcile_buildCache.
        rewrite (bind_Done _ _ _ _ _ (pvcLister_Get_reliable _ _ w')).
        cbn [fbMeta setStatus]. rewrite names_BuildCache_status, Hp, Hlook.
        cbn [fbMeta setStatus]. rewrite Hctl. simpl.
        unfold reconcileBuildCache. rewrite MakeBuildCache_status, Hmake.
        fold (buildCacheSemanticEquals d o). rewrite Heq, Hdiff. reflexivity.
      * apply bind_inv in Hconv as (dr & w3 & Hd & Hret). injection Hret as <- <-.
        destruct dr as [e2|]; [|discriminate].
        eapply PersistentVolumeClaims_Delete_Some in Hd.
        2:{ rewrite (Hkeyed _ _ _ Hlook). exact Hlook. }
        done.
      * injection Hconv as <- <-. injection Hrun as <- <- <-.
        exists (SeenError e0). split; [reflexivity|]. intros s w' Hp. exists w'.
        split; [|reflexivity]. unfold reconcile_buildCache.
        rewrite (bind_Done _ _ _ _ _ (pvcLister_Get_reliable _ _ w')).
        cbn [fbMeta setStatus]. rewrite names_BuildCache_status, Hp, Hlook.
        cbn [fbMeta setStatus]. rewrite Hctl. simpl.
        unfold reconcileBuildCache. rewrite MakeBuildCache_status, Hmake. reflexivity.
    + injection Hrun as <- <- <-.
      exists SeenForeign. split; [reflexivity|]. intros s w' Hp. exists w'.
      split; [|reflexivity]. unfold reconcile_buildCache.
      rewrite (bind_Done _ _ _ _ _ (pvcLister_Get_reliable _ _ w')).
      cbn [fbMeta setStatus]. rewrite names_BuildCache_status, Hp, Hlook.
      cbn [fbMeta setStatus]. rewrite Hctl. simpl.
      unfold cacheOutcome, notOwnedError. cbn [fbMeta fbStatus setStatus].
      by rewrite names_BuildCache_status.
  - apply bind_inv in Hrun as (r & w2 & Hcreate & Hrun).
    unfold createBuildCache in Hcreate.
    destruct (MakeBuildCache fb) as [[d|]|e0] eqn:Hmake.
    + apply bind_inv in Hcreate as (u & w3 & Hu & Hret). injection Hret as <- <-.
      destruct u as [u|e2].
      { unfold Recorder_Eventf, issue, mbind, M_bind in Hrun. discriminate. }
      apply PersistentVolumeClaims_Create_Err in Hu.
      destruct (MakeBuildCache_canonical fb d Hmake) as [Hname _].
      rewrite Hname in Hu. contradiction.
    + injection Hcreate as <- <-. discriminate.
    + injection Hcreate as <- <-.
      unfold Recorder_Eventf, issue, mbind, M_bind in Hrun. simpl in Hrun.
      injection Hrun as <- <- <-. simpl.
      exists (SeenError e0). split; [reflexivity|]. intros s w' Hp.
      eexists. split.
      * unfold reconcile_buildCache.
        rewrite (bind_Done _ _ _ _ _ (pvcLister_Get_reliable _ _ w')).
        cbn [fbMeta setStatus]. rewrite names_BuildCache_status, Hp. simpl. rewrite Hlook.
        simpl. unfold createBuildCache. rewrite MakeBuildCache_status, Hmake.
        unfold Recorder_Eventf, issue, mbind, M_bind. simpl. reflexivity.
      * repeat split. by apply grows_one.
Qed.

(** So is the second if-chain, when it returned a build or an error. *)
Lemma reconcile_build_stable fb w fb' r w1 :
  (forall ns name o, builds w !! (ns, name) = Some o -> Name (buildMeta o) = name) ->
  reconcile_build c fb w = Done (fb', r) w1 ->
  r <> Ok None ->
  exists seen,
    buildOutcome seen fb = (fb', r)
    /\ forall s w', builds w' = builds w1 ->
         exists w'',
           reconcile_build c (setStatus fb s) w'
           = Done (buildOutcome seen (setStatus fb s)) w''
           /\ footprint isEvent true true true w' w''.
Proof.
  intros Hkeyed Hrun Hsome. destruct r as [[b|]|e]; [|done|].
  { pose proof (reconcile_build_quiescent _ _ _ _ _ Hkeyed Hrun) as Hq.
    pose proof (reconcile_build_owner c _ _ _ _ Hrun) as Ho. simpl in Ho. subst fb'.
    exists (SeenChild b). split; [reflexivity|]. intros s w' Hp. exists w'.
    split; [|reflexivity]. apply reconcile_build_settled.
    apply quiescentBuild_status. by rewrite Hp. }
  clear Hsome. unfold reconcile_build in Hrun.
  rewrite (bind_Done _ _ _ _ _ (knbuildLister_Get_reliable _ _ w)) in Hrun.
  destruct (builds w !! (Namespace (fbMeta fb), names_Build fb)) as [o|] eqn:Hlook;
    simpl in Hrun.
  - destruct (IsControlledBy (buildMeta o) (fbMeta fb)) eqn:Hctl; simpl in Hrun.
    + apply bind_inv in Hrun as (r & w2 & Hconv & Hrun).
      injection Hrun as <- -> <-.
      unfold reconcileBuild in Hconv.
      destruct (MakeBuild fb) as [[d|]|e0] eqn:Hmake; [| discriminate |].
      * fold (buildSemanticEquals d o) in *.
        destruct (buildSemanticEquals d o) eqn:Heq; [discriminate|].
        destruct (SafeDiffBuildSpec (buildSpec d) (buildSpec o)) as [x|e1] eqn:Hdiff.
        { apply bind_inv in Hconv as (u & w3 & Hu & Hret). injection Hret as Hres <-.
          destruct u as [u|e2]; [discriminate|].
          apply Builds_Update_Err in Hu. simpl in Hu.
          rewrite (Hkeyed _ _ _ Hlook) in Hu. congruence. }
        injection Hconv as <- <-.
        eexists (SeenError _). split; [reflexivity|]. intros s w' Hp. exists w'.
        split; [|reflexivity]. unfold reconcile_build.
        rewrite (bind_Done _ _ _ _ _ (knbuildLister_Get_reliable _ _ w')).
        cbn [fbMeta setStatus]. rewrite names_Build_status, Hp, Hlook.
        cbn [fbMeta setStatus]. rewrite Hctl. simpl.
        unfold reconcileBuild. rewrite MakeBuild_status, Hmake.
        fold (buildSemanticEquals d o). rewrite Heq, Hdiff. reflexivity.
      * injection Hconv as <- <-.
        exists (SeenError e0). split; [reflexivity|]. intros s w' Hp. exists w'.
        split; [|reflexivity]. unfold reconcile_build.
        rewrite (bind_Done _ _ _ _ _ (knbuildLister_Get_reliable _ _ w')).
        cbn [fbMeta setStatus]. rewrite names_Build_status, Hp, Hlook.
        cbn [fbMeta setStatus]. rewrite Hctl. simpl.
        unfold reconcileBuild. rewrite MakeBuild_status, Hmake. reflexivity.
    + injection Hrun as <- <- <-.
      exists SeenForeign. split; [reflexivity|]. intros s w' Hp. exists w'.
      split; [|reflexivity]. unfold reconcile_build.
      rewrite (bind_Done _ _ _ _ _ (knbuildLister_Get_reliable _ _ w')).
      cbn [fbMeta setStatus]. rewrite names_Build_status, Hp, Hlook.
      cbn [fbMeta setStatus]. rewrite Hctl. simpl.
      unfold buildOutcome, notOwnedError. cbn [fbMeta fbStatus setStatus].
      by rewrite names_Build_status.
  - apply bind_inv in Hrun as (r & w2 & Hcreate & Hrun).
    unfold createBuild in Hcreate.
    destruct (MakeBuild fb) as [[d|]|e0] eqn:Hmake.
    + apply bind_inv in Hcreate as (u & w3 & Hu & Hret). injection Hret as <- <-.
      destruct u as [u|e2].
      { unfold Recorder_Eventf, issue, mbind, M_bind in Hrun. discriminate. }
      apply Builds_Create_Err in Hu.
      destruct (MakeBuild_canonical fb d Hmake) as [Hname _].
      rewrite Hname in Hu. contradiction.
    + injection Hcreate as <- <-. discriminate.
    + injection Hcreate as <- <-.
      unfold Recorder_Eventf, issue, mbind, M_bind in Hrun. simpl in Hrun.
      injection Hrun as <- <- <-. simpl.
      exists (SeenError e0). split; [reflexivity|]. intros s w' Hp.
      eexists. split.
      * unfold reconcile_build.
        rewrite (bind_Done _ _ _ _ _ (knbuildLister_Get_reliable _ _ w')).
        cbn [fbMeta setStatus]. rewrite names_Build_status, Hp. simpl. rewrite Hlook.
        simpl. unfold createBuild. rewrite MakeBuild_status, Hmake.
        unfold Recorder_Eventf, issue, mbind, M_bind. simpl. reflexivity.
      * repeat split. by apply grows_one.
Qed.

Lemma setStatus_same (fb : FunctionBuild) : setStatus fb (fbStatus fb) = fb.
Proof. by destruct fb. Qed.

(** The inner pass is stable: whatever it returned, a second pass on
    the stores it left, for the same owner with any status, follows the
    same path, computes its status by the same function and issues no
    write. *)
Lemma reconcile_stable fb fb' err w wr :
  DeletionTimestamp (fbMeta fb) = None ->
  childrenKeyedByName w ->
  reconcile c fb w = Done (fb', err) wr ->
  exists cache build,
    fbStatus fb' = statusAfter c fb cache build (fbStatus fb)
    /\ forall s w', pvcs w' = pvcs wr -> builds w' = builds wr ->
         exists fb'' err'' w'',
           reconcile c (setStatus fb s) w' = Done (fb'', err'') w''
           /\ fbStatus fb'' = statusAfter c fb cache build s
           /\ footprint (orAction isEvent isResolve) true true true w' w''.
Proof.
  intros Hlive [Hkp Hkb] Hrec. rewrite reconcile_unfold in Hrec by exact Hlive.
  apply bind_inv in Hrec as ([fb1 r1] & wa & Hc1 & Hrec).
  destruct (reconcile_buildCache_stable _ _ _ _ _ Hkp Hc1) as (cache & Hout1 & Hagain1).
  pose proof (respects_Done _ _ _ _ _ (reconcile_buildCache_footprint c _) Hc1)
    as (_ & _ & Hba & _). specialize (Hba eq_refl).
  assert (Hinit : forall s, initialized (setStatus fb s)
                            = setStatus (initialized fb) (InitializeConditions s))
    by reflexivity.
  assert (Hev : forall a, isEvent a = true -> orAction isEvent isResolve a = true).
  { intros a Ha. unfold orAction. by rewrite Ha. }
  destruct cache as [bc|e1|]; simpl in Hout1; injection Hout1 as <- <-.
  2:{ injection Hrec as <- <- <-. exists (SeenError e1), (SeenError e1).
      split; [reflexivity|]. intros s w' Hp Hb.
      destruct (Hagain1 (InitializeConditions s) w' Hp) as (w'' & Hrun & Hfoot).
      eexists _, _, w''. rewrite reconcile_unfold by exact Hlive. rewrite Hinit.
      rewrite (bind_Done _ _ _ _ _ Hrun). simpl.
      split; [reflexivity|]. split; [reflexivity|].
      eapply footprint_weaken; [exact Hev|auto..|exact Hfoot]. }
  2:{ injection Hrec as <- <- <-. exists SeenForeign, (SeenError (Errorf "")).
      split; [reflexivity|]. intros s w' Hp Hb.
      destruct (Hagain1 (InitializeConditions s) w' Hp) as (w'' & Hrun & Hfoot).
      eexists _, _, w''. rewrite reconcile_unfold by exact Hlive. rewrite Hinit.
      rewrite (bind_Done _ _ _ _ _ Hrun). simpl.
      split; [reflexivity|]. split.
      { unfold statusAfter, cycleStatus. cbn [fbStatus setStatus].
        by rewrite names_BuildCache_status. }
      eapply footprint_weaken; [exact Hev|auto..|exact Hfoot]. }
  apply bind_inv in Hrec as ([fb2 r2] & wb & Hc2 & Hrec).
  assert (Hkb' : forall ns name o, builds wa !! (ns, name) = Some o ->
                                   Name (buildMeta o) = name).
  { rewrite Hba. exact Hkb. }
  assert (Hsome : r2 <> Ok None).
  { intros ->. discriminate. }
  destruct (reconcile_build_stable _ _ _ _ _ Hkb' Hc2 Hsome) as (build & Hout2 & Hagain2).
  pose proof (respects_Done _ _ _ _ _ (reconcile_build_footprint c _) Hc2)
    as (_ & Hpb & _ & _). specialize (Hpb eq_refl).
  assert (Hcache : forall s, withBuildCache (setStatus (initialized fb) s) bc
                             = setStatus (withBuildCache (initialized fb) bc)
                                 (cacheStatus bc s))
    by by destruct bc.
  assert (Hcache0 : fbStatus (withBuildCache (initialized fb) bc)
                    = cacheStatus bc (InitializeConditions (fbStatus fb)))
    by by destruct bc.
  assert (Hnames : names_Build (withBuildCache (initialized fb) bc)
                   = names_Build (initialized fb)).
  { destruct bc; apply names_Build_status. }
  assert (Hrerun : forall s w', pvcs w' = pvcs wb -> builds w' = builds wb ->
            exists w1' w2',
              reconcile_buildCache c (initialized (setStatus fb s)) w'
              = Done (setStatus (initialized fb) (InitializeConditions s), Ok bc) w1'
              /\ reconcile_build c (setStatus (withBuildCache (initialized fb) bc)
                                      (cacheStatus bc (InitializeConditions s))) w1'
                 = Done (buildOutcome build
                           (setStatus (withBuildCache (initialized fb) bc)
                              (cacheStatus bc (InitializeConditions s)))) w2'
              /\ footprint isEvent true true true w' w2').
  { intros s w' Hp Hb. rewrite Hinit.
    destruct (Hagain1 (InitializeConditions s) w') as (w1' & Hrun1 & Hfoot1);
      [congruence|].
    destruct Hfoot1 as (Hf1 & Hp1 & Hb1 & Hg1).
    destruct (Hagain2 (cacheStatus bc (InitializeConditions s)) w1')
      as (w2' & Hrun2 & Hfoot2); [rewrite Hb1 by done; exact Hb|].
    exists w1', w2'. split; [exact Hrun1|]. split; [exact Hrun2|].
    etransitivity; [|exact Hfoot2]. by repeat split; auto. }
  destruct build as [b|e2|]; simpl in Hout2; injection Hout2 as <- <-.
  2:{ injection Hrec as <- <- <-. exists (SeenChild bc), (SeenError e2).
      split; [exact Hcache0|]. intros s w' Hp Hb.
      destruct (Hrerun s w' Hp Hb) as (w1' & w2' & Hrun1 & Hrun2 & Hfoot).
      eexists _, _, w2'. rewrite reconcile_unfold by exact Hlive.
      rewrite (bind_Done _ _ _ _ _ Hrun1). cbv beta iota. rewrite Hcache.
      rewrite (bind_Done _ _ _ _ _ Hrun2). simpl.
      split; [reflexivity|]. split; [reflexivity|].
      eapply footprint_weaken; [exact Hev|auto..|exact Hfoot]. }
  2:{ injection Hrec as <- <- <-. exists (SeenChild bc), SeenForeign.
      split.
      { unfold statusAfter, cycleStatus. cbn [fbStatus setStatus].
        by rewrite Hcache0, Hnames. }
      intros s w' Hp Hb.
      destruct (Hrerun s w' Hp Hb) as (w1' & w2' & Hrun1 & Hrun2 & Hfoot).
      eexists _, _, w2'. rewrite reconcile_unfold by exact Hlive.
      rewrite (bind_Done _ _ _ _ _ Hrun1). cbv beta iota. rewrite Hcache.
      rewrite (bind_Done _ _ _ _ _ Hrun2). simpl.
      split; [reflexivity|]. split.
      { unfold statusAfter, cycleStatus. cbn [fbStatus setStatus].
        by rewrite names_Build_status, Hnames. }
      eapply footprint_weaken; [exact Hev|auto..|exact Hfoot]. }
  exists (SeenChild bc), (SeenChild b).
  assert (Hwr : pvcs wr = pvcs wb /\ builds wr = builds wb).
  { pose proof (respects_Done _ _ _ _ _ (reconcile_image_footprint c _ _) Hrec)
      as (_ & Hp & Hb & _). auto. }
  destruct Hwr as [Hpr Hbr].
  assert (Htail : forall s,
            let fb3 := withBuild (setStatus (withBuildCache (initialized fb) bc)
                                    (cacheStatus bc (InitializeConditions s))) b in
            forall w0 fb0 err0 w0',
              reconcile_image c (setStatus (withBuildCache (initialized fb) bc)
                                   (cacheStatus bc (InitializeConditions s))) (Some b) w0
              = Done (fb0, err0) w0' ->
              fbStatus fb0 = statusAfter c fb (SeenChild bc) (SeenChild b) s).
  { intros s fb3 w0 fb0 err0 w0' Himg. rewrite reconcile_image_cases in Himg.
    unfold statusAfter, cycleStatus, resolutionFor.
    assert (Hst : fbStatus fb3
                  = PropagateBuildStatus (buildStatus b)
                      (setBuildName (Name (buildMeta b))
                         (cacheStatus bc (InitializeConditions s)))) by reflexivity.
    fold fb3 in Himg. rewrite <- Hst.
    assert (Hgen : Generation (fbMeta fb3) = Generation (fbMeta fb)) by by destruct bc.
    assert (Himage : Image (fbSpec fb3) = Image (fbSpec (initialized fb)))
      by by destruct bc.
    assert (Hopt : resolveOptions fb3 b = resolveOptions fb b) by by destruct bc.
    rewrite Hgen, Himage, Hopt in Himg.
    destruct (IsReady (fbStatus fb3)).
    - destruct (resolver c _ _ _); by injection Himg as <- _ _.
    - by injection Himg as <- _ _. }
  split.
  { specialize (Htail (fbStatus fb)). cbv zeta in Htail.
    eapply Htail. rewrite <- Hcache0, setStatus_same. exact Hrec. }
  intros s w' Hp Hb.
  destruct (Hrerun s w') as (w1' & w2' & Hrun1 & Hrun2 & Hfoot); [congruence..|].
  destruct (reconcile_image c (setStatus (withBuildCache (initialized fb) bc)
                                 (cacheStatus bc (InitializeConditions s))) (Some b) w2')
    as [[fb0 err0] w3'|w3'] eqn:Himg.
  2:{ exfalso. rewrite reconcile_image_cases in Himg.
      destruct (IsReady _); [destruct (resolver c _ _ _)|]; discriminate. }
  exists fb0, err0, w3'. rewrite reconcile_unfold by exact Hlive.
  rewrite (bind_Done _ _ _ _ _ Hrun1). cbv beta iota. rewrite Hcache.
  rewrite (bind_Done _ _ _ _ _ Hrun2). simpl.
  split; [exact Himg|]. split; [eapply Htail; exact Himg|].
  pose proof (respects_Done _ _ _ _ _ (reconcile_image_footprint c _ _) Himg) as Hfoot3.
  etransitivity.
  - eapply footprint_weaken; [exact Hev|auto..|exact Hfoot].
  - eapply footprint_weaken; [|auto..|exact Hfoot3].
    intros a Ha. unfold orAction. rewrite Ha. apply orb_true_r.
Qed.

(** A [Reconcile] that returned on a fetched owner: the inner pass
    returned, and the store holds the owner with the status the pass
    computed. *)
Lemma Reconcile_returned_inv key ns name original r w w1 :
  keyedByName w ->
  SplitMetaNamespaceKey key = Ok (ns, name) ->
  functionbuilds w !! (ns, name) = Some original ->
  Reconcile c key w = Done r w1 ->
  exists fb' err wr,
    reconcile c original w = Done (fb', err) wr
    /\ functionbuilds w1 !! (ns, name) = Some (setStatus original (fbStatus fb'))
    /\ pvcs w1 = pvcs wr /\ builds w1 = builds wr.
Proof.
  intros Hkeyed Hkey Hlook Hrun.
  pose proof (functionbuildLister_Get_reliable ns name w) as Hget.
  rewrite Hlook in Hget.
  destruct (reconcile c original w) as [[fb' err] wr|wr] eqn:Hrec.
  2:{ unfold Reconcile in Hrun. rewrite Hkey in Hrun.
      rewrite (bind_Done _ _ _ _ _ Hget) in Hrun. simpl in Hrun.
      rewrite (bind_Panic _ _ _ _ Hrec) in Hrun. discriminate. }
  pose proof (respects_Done _ _ _ _ _ (reconcile_footprint c original) Hrec)
    as (Hf & _ & _ & _). specialize (Hf eq_refl).
  exists fb', err, wr. split; [reflexivity|].
  destruct (decide (fbStatus original = fbStatus fb')) as [Heq|Hne].
  - rewrite (Reconcile_status_equal c key ns name original fb' err w wr
               Hkey Hget Hrec Heq) in Hrun.
    injection Hrun as -> <-. rewrite <- Heq, setStatus_same, Hf. done.
  - destruct (Reconcile_status_differs c key ns name original fb' err w wr
                Hkey Hget Hrec (Hkeyed _ _ _ Hlook) Hne)
      as (r' & w' & ev & HR & _ & _ & Hp & Hb & Hr).
    rewrite HR in Hrun. injection Hrun as -> ->.
    rewrite Haccepting in Hr. destruct Hr as [_ Hfb].
    rewrite Hfb, lookup_insert_eq. done.
Qed.

(** A second [Reconcile] right after one that returned, with no change
    in between: it returns, issues no write (at most it records its
    failure again and asks the resolver again) and leaves the stores as
    they are. *)
Lemma second_cycle_quiet key r w w1 :
  StatusIdempotent ->
  keyedByName w -> childrenKeyedByName w ->
  Reconcile c key w = Done r w1 ->
  exists r2 w2,
    Reconcile c key w1 = Done r2 w2
    /\ forallb (orAction isEvent isResolve) (issued w1 w2) = true
    /\ functionbuilds w2 = functionbuilds w1
    /\ pvcs w2 = pvcs w1 /\ builds w2 = builds w1.
Proof.
  intros Hidem Hkeyed Hchildren Hrun.
  destruct (SplitMetaNamespaceKey key) as [[ns name]|e] eqn:Hkey.
  2:{ unfold Reconcile in Hrun |- *. rewrite Hkey in Hrun |- *.
      injection Hrun as <- <-. exists None, w. by rewrite issued_refl. }
  pose proof (functionbuildLister_Get_reliable ns name w) as Hget.
  destruct (functionbuilds w !! (ns, name)) as [original|] eqn:Hlook.
  2:{ assert (r = None /\ w1 = w) as [-> ->].
      { unfold Reconcile in Hrun. rewrite Hkey in Hrun.
        rewrite (bind_Done _ _ _ _ _ Hget) in Hrun. by injection Hrun. }
      exists None, w. split; [exact Hrun|]. by rewrite issued_refl. }
  destruct (Reconcile_returned_inv key ns name original r w w1 Hkeyed Hkey Hlook Hrun)
    as (fb' & err & wr & Hrec & Hlook1 & Hp1 & Hb1).
  pose proof (functionbuildLister_Get_reliable ns name w1) as Hget1.
  rewrite Hlook1 in Hget1.
  destruct (DeletionTimestamp (fbMeta original)) as [ts|] eqn:Hlive.
  { rewrite (reconcile_deleted c original w ts Hlive) in Hrec.
    injection Hrec as <- <- <-. rewrite setStatus_same in Hget1.
    exists None, w1. split; [by eapply Reconcile_deleted|]. by rewrite issued_refl. }
  destruct (reconcile_stable original fb' err w wr Hlive Hchildren Hrec)
    as (cache & build & Hs1 & Hagain).
  destruct (Hagain (fbStatus fb') w1 Hp1 Hb1) as (fb2 & err2 & w2 & Hrec2 & Hs2 & Hfoot).
  assert (Hfix : fbStatus fb2 = fbStatus fb').
  { rewrite Hs2, Hs1. apply Hidem. }
  destruct Hfoot as (Hf2 & Hp2 & Hb2 & Hg2).
  exists err2, w2. split.
  { eapply Reconcile_status_equal; [exact Hkey|exact Hget1|exact Hrec2|].
    by rewrite Hfix. }
  apply grows_issued in Hg2 as [_ Hg2]. auto.
Qed.

End Quiescence.

Section IdempotentStatusWrite.
Context `{ResourcesPackage, Lifecycle, Formatting}.
Variable c : Reconciler.

Lemma filter_isWrite_quiet (l : list Action) :
  forallb (orAction isEvent isResolve) l = true -> List.filter isWrite l = [].
Proof. apply filter_forallb_nil. by intros []. Qed.


End IdempotentStatusWrite.

(** ** The concrete reconciler satisfies what a second cycle relies on *)

Module ExampleFacts.
Import Example ConditionSet ConditionSetFacts.

Lemma resources_laws : @ResourcesLaws resources.
Proof.
  split; try reflexivity.
  - intros fb d. simpl. destruct (String.eqb (Image (fbSpec fb)) ""); [discriminate|].
    intros Hd. injection Hd as <-. simpl. split; [reflexivity|].
    unfold IsControlledBy. simpl. apply String.eqb_refl.
  - intros fb d. simpl. intros Hd. injection Hd as <-. simpl. split; [reflexivity|].
    unfold IsControlledBy. simpl. apply String.eqb_refl.
Qed.

Ltac members :=
  unfold dependents in *;
  repeat match goal with
         | Hm : context [_ ∈ _ :: _] |- _ => rewrite elem_of_cons in Hm
         | Hm : context [_ ∈ []] |- _ => rewrite elem_of_nil in Hm
         end;
  rewrite ?elem_of_cons, ?elem_of_nil; intuition congruence.

Lemma Ready_not_dependent : Ready ∉ dependents.
Proof.
  unfold dependents. rewrite !not_elem_of_cons. repeat split; try done.
  apply not_elem_of_nil.
Qed.

Lemma deriveReady_ext (m1 m2 : Conditions) :
  m1 !! FunctionBuildConditionBuildCacheReady = m2 !! FunctionBuildConditionBuildCacheReady ->
  m1 !! FunctionBuildConditionBuildSucceeded = m2 !! FunctionBuildConditionBuildSucceeded ->
  deriveReady dependents m1 = deriveReady dependents m2.
Proof.
  intros H1 H2. unfold deriveReady, dependents, isFalse, isUnknown, statusOf, conditionOf.
  cbn [find existsb]. rewrite H1, H2.
  repeat (case_bool_decide; simpl); rewrite ?H1, ?H2; reflexivity.
Qed.

Lemma addMissing_lookup (acc : Conditions) (t k : ConditionType) :
  (match acc !! t with Some _ => acc | None => <[t := unknown]> acc end) !! k
  = match acc !! k with
    | Some x => Some x
    | None => if bool_decide (k = t) then Some unknown else None
    end.
Proof.
  destruct (acc !! t) eqn:E; destruct (decide (k = t)) as [->|Hne].
  - by rewrite E.
  - rewrite bool_decide_eq_false_2 by done. by destruct (acc !! k).
  - by rewrite lookup_insert_eq, E, bool_decide_eq_true_2.
  - rewrite lookup_insert_ne by done. rewrite bool_decide_eq_false_2 by done.
    by destruct (acc !! k).
Qed.

Lemma InitializeConditions_lookup (cs : Conditions) (k : ConditionType) :
  InitializeConditions dependents cs !! k
  = match cs !! k with
    | Some x => Some x
    | None => if bool_decide (k ∈ Ready :: dependents) then Some unknown else None
    end.
Proof.
  unfold InitializeConditions, dependents. cbn [foldr].
  rewrite !addMissing_lookup.
  destruct (cs !! k); [done|].
  repeat case_bool_decide; try done; exfalso; members.
Qed.

Lemma mark_lookup (t : ConditionType) (v : Condition) (cs : Conditions) (k : ConditionType) :
  mark dependents t v cs !! k
  = if bool_decide (k = Ready) then Some (deriveReady dependents (<[t := v]> cs))
    else if bool_decide (k = t) then Some v else cs !! k.
Proof.
  unfold mark, aggregate. repeat case_bool_decide; simplify_map_eq; done.
Qed.

Lemma cycleConditions_consistent v child cs :
  cycleConditions v child cs !! Ready
  = Some (deriveReady dependents (cycleConditions v child cs)).
Proof.
  unfold cycleConditions, PropagateChildStatus.
  destruct (child !! Ready); apply aggregate_consistent, Ready_not_dependent.
Qed.

Lemma cycleConditions_cache v child cs :
  cycleConditions v child cs !! FunctionBuildConditionBuildCacheReady = Some v.
Proof.
  unfold cycleConditions, PropagateChildStatus.
  destruct (child !! Ready); rewrite !mark_lookup; done.
Qed.

Lemma cycleConditions_build v child cs :
  cycleConditions v child cs !! FunctionBuildConditionBuildSucceeded
  = match child !! Ready with
    | Some r => Some (mkCondition (Status r) (Reason r) (Message r))
    | None => Some (default unknown (cs !! FunctionBuildConditionBuildSucceeded))
    end.
Proof.
  unfold cycleConditions, PropagateChildStatus.
  destruct (child !! Ready); rewrite !mark_lookup; [done|].
  rewrite bool_decide_eq_false_2 by done. rewrite bool_decide_eq_false_2 by done.
  rewrite InitializeConditions_lookup.
  destruct (cs !! FunctionBuildConditionBuildSucceeded); [done|].
  rewrite bool_decide_eq_true_2; [done|]. members.
Qed.

Lemma cycleConditions_other v child cs k :
  k <> Ready -> k <> FunctionBuildConditionBuildCacheReady ->
  k <> FunctionBuildConditionBuildSucceeded ->
  cycleConditions v child cs !! k = cs !! k.
Proof.
  intros Hr Hc Hs. unfold cycleConditions, PropagateChildStatus.
  destruct (child !! Ready); rewrite !mark_lookup;
    rewrite ?bool_decide_eq_false_2 by done;
    rewrite InitializeConditions_lookup;
    (destruct (cs !! k); [done|]);
    rewrite bool_decide_eq_false_2; try done; members.
Qed.

Lemma cycleConditions_idempotent v child cs :
  cycleConditions v child (cycleConditions v child cs) = cycleConditions v child cs.
Proof.
  apply map_eq. intros k.
  destruct (decide (k = Ready)) as [->|Hr].
  { rewrite !cycleConditions_consistent. f_equal. apply deriveReady_ext.
    - by rewrite !cycleConditions_cache.
    - rewrite !cycleConditions_build. by destruct (child !! Ready). }
  destruct (decide (k = FunctionBuildConditionBuildCacheReady)) as [->|Hc].
  { by rewrite !cycleConditions_cache. }
  destruct (decide (k = FunctionBuildConditionBuildSucceeded)) as [->|Hs].
  { rewrite !cycleConditions_build. by destruct (child !! Ready). }
  by rewrite !cycleConditions_other.
Qed.

Lemma InitializeConditions_idempotent cs :
  InitializeConditions dependents (InitializeConditions dependents cs)
  = InitializeConditions dependents cs.
Proof.
  apply map_eq. intros k. rewrite !InitializeConditions_lookup.
  destruct (cs !! k); [done|]. by case_bool_decide.
Qed.

(** Marking the image as missing touches neither the conditions a cycle
    derives from nor the ones it sets. *)
Lemma cycleConditions_image v child im cs :
  cycleConditions v child
    (<[FunctionBuildConditionImageResolved := im]> (cycleConditions v child cs))
  = <[FunctionBuildConditionImageResolved := im]> (cycleConditions v child cs).
Proof.
  apply map_eq. intros k.
  destruct (decide (k = Ready)) as [->|Hr].
  { rewrite lookup_insert_ne by discriminate.
    rewrite !cycleConditions_consistent. f_equal. apply deriveReady_ext.
    - by rewrite !cycleConditions_cache.
    - rewrite !cycleConditions_build. destruct (child !! Ready) eqn:E; [done|].
      rewrite lookup_insert_ne by discriminate. by rewrite cycleConditions_build, E. }
  destruct (decide (k = FunctionBuildConditionBuildCacheReady)) as [->|Hc].
  { rewrite lookup_insert_ne by discriminate. by rewrite !cycleConditions_cache. }
  destruct (decide (k = FunctionBuildConditionBuildSucceeded)) as [->|Hs].
  { rewrite lookup_insert_ne by discriminate. rewrite !cycleConditions_build.
    destruct (child !! Ready) eqn:E; [done|].
    rewrite lookup_insert_ne by discriminate. by rewrite cycleConditions_build, E. }
  rewrite cycleConditions_other by done.
  destruct (decide (k = FunctionBuildConditionImageResolved)) as [->|Hi].
  - by rewrite !lookup_insert_eq.
  - rewrite !lookup_insert_ne by done. by rewrite cycleConditions_other.
Qed.

Lemma mark_cycleConditions v cs :
  mark dependents FunctionBuildConditionBuildCacheReady v
    (InitializeConditions dependents cs)
  = cycleConditions v ∅ cs.
Proof. reflexivity. Qed.

Lemma mark_mark_cycleConditions v v2 cs :
  mark dependents FunctionBuildConditionBuildSucceeded v2
    (mark dependents FunctionBuildConditionBuildCacheReady v
       (InitializeConditions dependents cs))
  = cycleConditions v {[ Ready := v2 ]} cs.
Proof.
  unfold cycleConditions, PropagateChildStatus. rewrite lookup_singleton_eq.
  by destruct v2.
Qed.

Lemma status_idempotent : @StatusIdempotent lifecycle formatting.
Proof.
  intros cacheName buildName image generation cache build resolution s.
  destruct cache as [bc|e|].
  2:{ unfold cycleStatus. simpl. unfold onConditions. simpl.
      by rewrite InitializeConditions_idempotent. }
  2:{ unfold cycleStatus. simpl. unfold onConditions, MarkNotOwned. simpl.
      rewrite !mark_cycleConditions. by rewrite cycleConditions_idempotent. }
  destruct build as [b|e|].
  2:{ unfold cycleStatus, cacheStatus. destruct bc; simpl; unfold onConditions; simpl;
        rewrite !mark_cycleConditions; by rewrite cycleConditions_idempotent. }
  2:{ unfold cycleStatus, cacheStatus.
      destruct bc; simpl; unfold onConditions, MarkNotOwned; simpl;
        rewrite !mark_mark_cycleConditions; by rewrite cycleConditions_idempotent. }
  assert (Hcycle : forall s0,
            cycleStatus cacheName buildName image generation (SeenChild bc) (SeenChild b)
              resolution s0
            = let cs := cycleConditions (cacheValue bc) (bsConditions (buildStatus b))
                          (StatusConditions s0) in
              let cache := match bc with
                           | Some o => Name (pvcMeta o)
                           | None => BuildCacheName s0
                           end in
              if bool_decide (statusOf cs Ready = ConditionTrue) then
                match resolution with
                | Ok digest =>
                    mkFunctionBuildStatus cs generation cache (Name (buildMeta b)) digest
                | Err err =>
                    mkFunctionBuildStatus
                      (<[FunctionBuildConditionImageResolved
                         := mkCondition ConditionFalse "ImageMissing"
                              (imageMissingMessage image err)]> cs)
                      (ObservedGeneration s0) cache (Name (buildMeta b)) (LatestImage s0)
                end
              else mkFunctionBuildStatus cs generation cache (Name (buildMeta b))
                     (LatestImage s0)).
  { intros s0. unfold cycleStatus, cacheStatus, cycleConditions.
    destruct bc, resolution; simpl; case_bool_decide; reflexivity. }
  rewrite !Hcycle. cbv zeta.
  set (C := cycleConditions (cacheValue bc) (bsConditions (buildStatus b))).
  destruct (bool_decide (statusOf (C (StatusConditions s)) Ready = ConditionTrue))
    eqn:Hready.
  - destruct resolution as [d|err]; simpl.
    + subst C. rewrite cycleConditions_idempotent, Hready.
      f_equal. by destruct bc.
    + subst C. rewrite cycleConditions_image.
      assert (Hsame : statusOf
                (<[FunctionBuildConditionImageResolved
                   := mkCondition ConditionFalse "ImageMissing"
                        (imageMissingMessage image err)]>
                   (cycleConditions (cacheValue bc) (bsConditions (buildStatus b))
                      (StatusConditions s))) Ready
              = statusOf (cycleConditions (cacheValue bc) (bsConditions (buildStatus b))
                            (StatusConditions s)) Ready).
      { unfold statusOf. by rewrite lookup_insert_ne by discriminate. }
      rewrite Hsame, Hready. rewrite insert_insert_eq.
      f_equal. by destruct bc.
  - simpl. subst C. rewrite cycleConditions_idempotent, Hready.
    f_equal. by destruct bc.
Qed.

End ExampleFacts.

(** ** The models run on the cases of the Deployer table test *)

Module TableTest.
Import Example ConditionSet ChildSynchronizer.

(** Freshly initialized conditions are all [Unknown]. *)
Example conditions_initialized :
  InitializeConditions deployerDependents ∅
  = {[ DeployerConditionConfigurationReady := unknown;
       Ready := unknown;
       DeployerConditionRouteReady := unknown ]}.
Proof. vm_compute. reflexivity. Qed.

(** Case "ready". *)
Example conditions_ready :
  PropagateChildStatus deployerDependents DeployerConditionRouteReady
    {[ Ready := mkCondition ConditionTrue "" "" ]}
    (PropagateChildStatus deployerDependents DeployerConditionConfigurationReady
       {[ Ready := mkCondition ConditionTrue "" "" ]}
       (InitializeConditions deployerDependents ∅))
  = {[ DeployerConditionConfigurationReady := mkCondition ConditionTrue "" "";
       Ready := mkCondition ConditionTrue "" "";
       DeployerConditionRouteReady := mkCondition ConditionTrue "" "" ]}.
Proof. vm_compute. reflexivity. Qed.

(** Case "not ready, configuration". *)
Example conditions_configuration_not_ready :
  PropagateChildStatus deployerDependents DeployerConditionRouteReady
    {[ Ready := mkCondition ConditionTrue "" "" ]}
    (PropagateChildStatus deployerDependents DeployerConditionConfigurationReady
       {[ Ready := mkCondition ConditionFalse "TestReason" "a human readable message" ]}
       (InitializeConditions deployerDependents ∅))
  = {[ DeployerConditionConfigurationReady :=
         mkCondition ConditionFalse "TestReason" "a human readable message";
       Ready := mkCondition ConditionFalse "TestReason" "a human readable message";
       DeployerConditionRouteReady := mkCondition ConditionTrue "" "" ]}.
Proof. vm_compute. reflexivity. Qed.

(** Case "create knative resources, route exists". *)
Example conditions_route_not_owned :
  MarkNotOwned deployerDependents DeployerConditionRouteReady "Route" "Deployer"
    (quote "test-deployer") (InitializeConditions deployerDependents ∅)
  = {[ DeployerConditionConfigurationReady := unknown;
       Ready := mkCondition ConditionFalse "NotOwned"
                  ("There is an existing Route " ++ quote "test-deployer"
                     ++ " that the Deployer does not own.");
       DeployerConditionRouteReady :=
         mkCondition ConditionFalse "NotOwned"
           ("There is an existing Route " ++ quote "test-deployer"
              ++ " that the Deployer does not own.") ]}.
Proof. vm_compute. reflexivity. Qed.

(** Case "create knative resources, delete extra configurations". *)
Example delete_extra_configurations :
  issued extrasOnly (snd (converge cleanSlate noFailure extrasOnly))
  = [Delete testNamespace "extra-configuration-1" "extra-configuration-1";
     Delete testNamespace "extra-configuration-2" "extra-configuration-2";
     Create testConfigurationCreate].
Proof. vm_compute. reflexivity. Qed.

(** Case "... delete extra configurations, delete failed". *)
Example delete_extra_configurations_failed :
  fst (converge cleanSlate deleteFails extrasOnly)
  = Failed (StatusError StatusReasonInternalError "induced failure")
  /\ issued extrasOnly (snd (converge cleanSlate deleteFails extrasOnly))
     = [Delete testNamespace "extra-configuration-1" "extra-configuration-1"]
  /\ objects (snd (converge cleanSlate deleteFails extrasOnly)) = objects extrasOnly.
Proof. vm_compute. auto. Qed.

(** The second delete fails: the first extra stays deleted. *)
Example second_delete_failed :
  fst (converge cleanSlate secondDeleteFails extrasOnly)
  = Failed (StatusError StatusReasonInternalError "induced failure")
  /\ objects (snd (converge cleanSlate secondDeleteFails extrasOnly))
     = [extraConfiguration2].
Proof. vm_compute. auto. Qed.

(** With the most recently created configuration kept as the canonical
    one, the two older ones are deleted and nothing is created. *)
Example delete_older_configurations :
  converge (mostRecentlyCreated cfgMeta) noFailure extrasAndCurrent
  = (Observed (Some testConfigurationGiven),
     mkStore [testConfigurationGiven]
       [Delete testNamespace "extra-configuration-1" "extra-configuration-1";
        Delete testNamespace "extra-configuration-2" "extra-configuration-2"]).
Proof. vm_compute. reflexivity. Qed.

End TableTest.

(** ** The theorems at work on concrete clusters *)

Module Witnesses.
Import Example ExampleFacts.

Ltac by_evaluation := vm_compute; reflexivity.
Ltac decide_by_evaluation :=
  lazymatch goal with
  | |- ?P =>
      let d := constr:(_ : Decision P) in
      apply (@bool_decide_unpack P d); vm_compute; exact I
  end.

Lemma keyedByName_singleton (fb : FunctionBuild) p b t :
  keyedByName (mkWorld {[ (Namespace (fbMeta fb), Name (fbMeta fb)) := fb ]} p b t).
Proof.
  intros ns name o Hl. simpl in Hl.
  apply lookup_singleton_Some in Hl as [Hk <-]. by injection Hk as <- <-.
Qed.

Lemma childrenKeyedByName_empty f t : childrenKeyedByName (mkWorld f ∅ ∅ t).
Proof. split; intros ns name o Hl; simpl in Hl; by rewrite lookup_empty in Hl. Qed.

Lemma childrenKeyedByName_foreign : childrenKeyedByName worldWithForeignBuildCache.
Proof.
  split; intros ns name o Hl; simpl in Hl.
  - apply lookup_singleton_Some in Hl as [Hk <-]. by injection Hk as _ <-.
  - by rewrite lookup_empty in Hl.
Qed.

Lemma reliable_reconciler : reliableListers reconciler.
Proof. intros r. reflexivity. Qed.

Lemma accepting_reconciler : acceptingStore reconciler.
Proof. intros a. reflexivity. Qed.

(** The table test's case of a route that is not ready: the
    configuration is ready, the route reports [False] with a reason and
    a message, and [Ready] adopts them. *)
Lemma Ready_aggregation_witness :
  (ConditionSet.Ready ∉ deployerDependents)
  /\ exists r,
      (ConditionSet.apply deployerDependents
         (ConditionSet.OpPropagate DeployerConditionRouteReady
            (mkCondition ConditionFalse "TestReason" "a human readable message"))
         {[ DeployerConditionConfigurationReady := mkCondition ConditionTrue "" "" ]})
        !! ConditionSet.Ready = Some r
      /\ Status r = ConditionFalse
      /\ Reason r = "TestReason"
      /\ Message r = "a human readable message".
Proof.
  assert (Hdeps : ConditionSet.Ready ∉ deployerDependents) by decide_by_evaluation.
  split; [exact Hdeps|].
  destruct (ConditionSetFacts.Ready_aggregation deployerDependents
              (ConditionSet.OpPropagate DeployerConditionRouteReady
                 (mkCondition ConditionFalse "TestReason" "a human readable message"))
              {[ DeployerConditionConfigurationReady := mkCondition ConditionTrue "" "" ]}
              Hdeps) as (r & Hlook & _ & _ & Hfalse & _).
  exists r. split; [exact Hlook|].
  apply (Hfalse DeployerConditionRouteReady).
  exists [DeployerConditionConfigurationReady], [].
  split; [reflexivity|]. split; [by_evaluation|].
  constructor; [|constructor]. decide_by_evaluation.
Defined.

Lemma Reconcile_owner_not_found_witness :
  Reconcile reconciler testKey emptyWorld = Done None emptyWorld.
Proof.
  apply Reconcile_owner_not_found. intros ns name Hkey.
  vm_compute in Hkey. injection Hkey as <- <-.
  eexists. split; by_evaluation.
Defined.

Lemma reconcile_deleted_owner_witness :
  DeletionTimestamp (fbMeta deletedFunctionBuild) = Some 1
  /\ reconcile reconciler deletedFunctionBuild (worldWith deletedFunctionBuild)
     = Done (deletedFunctionBuild, None) (worldWith deletedFunctionBuild)
  /\ Reconcile reconciler testKey (worldWith deletedFunctionBuild)
     = Done None (worldWith deletedFunctionBuild).
Proof.
  split; [reflexivity|].
  destruct (reconcile_deleted_owner reconciler deletedFunctionBuild
              (worldWith deletedFunctionBuild) 1 eq_refl) as [Hinner Hdriver].
  split; [exact Hinner|].
  apply (Hdriver testKey testNamespace testName); by_evaluation.
Defined.

Lemma reconcile_not_owned_child_witness :
  DeletionTimestamp (fbMeta testFunctionBuild) = None
  /\ (exists marked,
        reconcile reconciler testFunctionBuild worldWithForeignBuildCache
        = Done (marked,
                Some (notOwnedError testName "PersistentVolumeClaim"
                        "build-cache-test-functionbuild"))
               worldWithForeignBuildCache
        /\ StatusConditions (fbStatus marked)
             !! FunctionBuildConditionBuildCacheReady
           = Some (mkCondition ConditionFalse "NotOwned"
                     "There is an existing PersistentVolumeClaim build-cache-test-functionbuild that the FunctionBuild does not own."))
  /\ (exists marked w1,
        reconcile reconciler testFunctionBuild worldWithForeignBuild
        = Done (marked, Some (notOwnedError testName "Build" testName)) w1
        /\ builds w1 = builds worldWithForeignBuild
        /\ StatusConditions (fbStatus marked) !! FunctionBuildConditionBuildSucceeded
           = Some (mkCondition ConditionFalse "NotOwned"
                     "There is an existing Build test-functionbuild that the FunctionBuild does not own.")).
Proof.
  split; [reflexivity|]. split.
  - destruct (reconcile_not_owned_child reconciler testFunctionBuild
                worldWithForeignBuildCache eq_refl) as [Hcache _].
    destruct (Hcache foreignBuildCache) as [Hrec _]; [by_evaluation|by_evaluation|].
    eexists. split; [exact Hrec|]. by_evaluation.
  - destruct (reconcile_not_owned_child reconciler testFunctionBuild
                worldWithForeignBuild eq_refl) as [_ Hbuild].
    edestruct (Hbuild (initialized testFunctionBuild)
                 (pvcs (worldOf (reconcile_buildCache reconciler
                                   (initialized testFunctionBuild) worldWithForeignBuild))
                    !! (testNamespace, "build-cache-test-functionbuild"))
                 (worldOf (reconcile_buildCache reconciler (initialized testFunctionBuild)
                             worldWithForeignBuild))
                 foreignBuild) as (Hrec & Hb & _); [by_evaluation|by_evaluation|by_evaluation|].
    eexists _, _. split; [exact Hrec|]. split; [exact Hb|]. by_evaluation.
Defined.




(** The table test's case of two extra configurations: both are
    deleted and the desired configuration is created. *)
Lemma extras_cleanup_witness :
  ChildSynchronizer.conflict cfgMeta testDeployer (Some testConfigurationCreate) extrasOnly
  = None
  /\ ChildSynchronizer.extrasOf cfgMeta
       (ChildSynchronizer.canonicalOf cleanSlate
          (ChildSynchronizer.ownedChildren cfgMeta DeployerLabelKey testDeployer extrasOnly))
       (ChildSynchronizer.ownedChildren cfgMeta DeployerLabelKey testDeployer extrasOnly)
     = [extraConfiguration1; extraConfiguration2]
  /\ List.filter ChildSynchronizer.isDelete
       (ChildSynchronizer.issued extrasOnly (snd (converge cleanSlate noFailure extrasOnly)))
     = [ChildSynchronizer.deleteCall cfgMeta extraConfiguration1;
        ChildSynchronizer.deleteCall cfgMeta extraConfiguration2].
Proof.
  assert (Hconflict : ChildSynchronizer.conflict cfgMeta testDeployer
                        (Some testConfigurationCreate) extrasOnly = None)
    by by_evaluation.
  assert (Hextras : ChildSynchronizer.extrasOf cfgMeta
                      (ChildSynchronizer.canonicalOf cleanSlate
                         (ChildSynchronizer.ownedChildren cfgMeta DeployerLabelKey
                            testDeployer extrasOnly))
                      (ChildSynchronizer.ownedChildren cfgMeta DeployerLabelKey
                         testDeployer extrasOnly)
                    = [extraConfiguration1; extraConfiguration2])
    by by_evaluation.
  split; [exact Hconflict|]. split; [exact Hextras|].
  pose proof (ChildSynchronizerFacts.extras_cleanup cfgMeta configurationEquals
                configurationCopy cleanSlate DeployerLabelKey noFailure testDeployer
                testConfigurationCreate extraConfiguration1 extraConfiguration2
                extrasOnly Hconflict Hextras) as [_ Hdeletes].
  exact Hdeletes.
Defined.

(** A foreign build cache: the inner pass fails after marking the
    condition, and the driver writes the status before it returns the
    conflict error. *)
Lemma Reconcile_persists_status_on_error_witness :
  let inner := reconcile reconciler testFunctionBuild worldWithForeignBuildCache in
  exists err r w' ev,
    errorOf inner = Some err
    /\ fbStatus (ownerOf inner testFunctionBuild) <> fbStatus testFunctionBuild
    /\ Reconcile reconciler testKey worldWithForeignBuildCache = Done (Some r) w'
    /\ trace w'
       = (trace (worldOf inner)
          ++ UpdateStatus testNamespace
               (setStatus testFunctionBuild (fbStatus (ownerOf inner testFunctionBuild)))
             :: ev)%list
    /\ r = err.
Proof.
  intros inner.
  assert (Hchanged : fbStatus (ownerOf inner testFunctionBuild)
                     <> fbStatus testFunctionBuild) by decide_by_evaluation.
  edestruct (Reconcile_persists_status_on_error reconciler testKey testNamespace testName
               testFunctionBuild (ownerOf inner testFunctionBuild)
               (notOwnedError testName "PersistentVolumeClaim"
                  "build-cache-test-functionbuild")
               worldWithForeignBuildCache (worldOf inner))
    as (r & w' & ev & Hrun & Htrace & _ & Hr).
  - by_evaluation.
  - by_evaluation.
  - apply (keyedByName_singleton testFunctionBuild).
  - by_evaluation.
  - exact Hchanged.
  - cbn [reconciler reactor] in Hr. destruct Hr as [-> _].
    eexists _, _, w', ev. split; [by_evaluation|]. split; [exact Hchanged|].
    split; [exact Hrun|]. split; [exact Htrace|reflexivity].
Defined.

End Witnesses.

(** ** Where the code departs from the specification *)

Module Counterexamples.
Import Example.

(** An owner that is being deleted, next to a claim that carries the
    build cache's canonical name and that the owner does not control:
    the inner pass returns nil and leaves the owner's status as it was,
    so no condition reports the claim, and [Reconcile] returns nil
    without any call. *)
Lemma not_owned_child_of_deleted_owner :
  pvcs worldOfDeletedWithForeignBuildCache
    !! (Namespace (fbMeta deletedFunctionBuild), names_BuildCache deletedFunctionBuild)
  = Some foreignBuildCache
  /\ IsControlledBy (pvcMeta foreignBuildCache) (fbMeta deletedFunctionBuild) = false
  /\ reconcile reconciler deletedFunctionBuild worldOfDeletedWithForeignBuildCache
     = Done (deletedFunctionBuild, None) worldOfDeletedWithForeignBuildCache
  /\ Reconcile reconciler testKey worldOfDeletedWithForeignBuildCache
     = Done None worldOfDeletedWithForeignBuildCache.
Proof. repeat split; vm_compute; reflexivity. Qed.

End Counterexamples.

(** * Further properties of the sources *)

(** ** Defaulting establishes what its callers rely on *)

Section DefaultedSpecs.
Import Deployer.

Lemma Default_isDefaulted (s : DeployerSpec) : isDefaulted (Default s) = true.
Proof.
  destruct (DeployerFacts.Default_template s) as (t & Ht & Ha & Hl & Hc).
  unfold isDefaulted. rewrite Ht.
  rewrite !bool_decide_eq_true_2 by assumption. simpl.
  destruct (Containers (ptSpec t)); [done|]. simpl.
  unfold Default. simpl.
  destruct (String.eqb (IngressPolicy s) "") eqn:Hp; [reflexivity|by rewrite Hp].
Qed.

(** X1. [DeployerSpec.Default] leaves a spec with a template whose
    annotation and label maps are non-nil and which has at least one
    container, and with an ingress policy; and the specs it leaves
    untouched are exactly the specs that are already of that form. *)
Theorem Default_fixpoints (s : Deployer.DeployerSpec) :
  isDefaulted (Default s) = true
  /\ (Default s = s <-> isDefaulted s = true).
Proof.
  split; [apply Default_isDefaulted|]. split.
  - intros Heq. rewrite <- Heq. apply Default_isDefaulted.
  - unfold isDefaulted. destruct s as [[t|] p]; [|discriminate]. simpl.
    rewrite !andb_true_iff, !negb_true_iff, !bool_decide_eq_true.
    intros [[[Ha Hl] Hc] Hp].
    apply DeployerFacts.Default_fixpoint; try assumption.
    + destruct (Containers (ptSpec t)); [discriminate|done].
    + by apply String.eqb_neq.
Qed.

End DefaultedSpecs.

(** ** The calls of the clients, one by one *)

Ltac grows_prim :=
  intros w; unfold mbind, M_bind, mret, M_ret, issue, setPvcs, setBuilds,
    setFunctionbuilds;
  simpl;
  repeat (case_match; simplify_eq/=);
  first [ apply grows_same
        | apply grows_one; unfold only; by apply bool_decide_eq_true_2
        | reflexivity ].

Section ClientCalls.
Variable c : Reconciler.

Lemma functionbuildLister_Get_silent ns name :
  respects (grows noAction) (functionbuildLister_Get c ns name).
Proof. unfold functionbuildLister_Get. grows_prim. Qed.

Lemma pvcLister_Get_silent ns name :
  respects (grows noAction) (pvcLister_Get c ns name).
Proof. unfold pvcLister_Get. grows_prim. Qed.

Lemma knbuildLister_Get_silent ns name :
  respects (grows noAction) (knbuildLister_Get c ns name).
Proof. unfold knbuildLister_Get. grows_prim. Qed.

Lemma PersistentVolumeClaims_Create_call ns o :
  respects (grows (only (CreatePersistentVolumeClaim ns o)))
           (PersistentVolumeClaims_Create c ns o).
Proof. unfold PersistentVolumeClaims_Create. grows_prim. Qed.

Lemma PersistentVolumeClaims_Update_call ns o :
  respects (grows (only (UpdatePersistentVolumeClaim ns o)))
           (PersistentVolumeClaims_Update c ns o).
Proof. unfold PersistentVolumeClaims_Update. grows_prim. Qed.

Lemma PersistentVolumeClaims_Delete_call ns name uid :
  respects (grows (only (DeletePersistentVolumeClaim ns name uid)))
           (PersistentVolumeClaims_Delete c ns name uid).
Proof. unfold PersistentVolumeClaims_Delete. grows_prim. Qed.

Lemma Builds_Create_call ns o :
  respects (grows (only (CreateBuild ns o))) (Builds_Create c ns o).
Proof. unfold Builds_Create. grows_prim. Qed.

Lemma Builds_Update_call ns o :
  respects (grows (only (UpdateBuild ns o))) (Builds_Update c ns o).
Proof. unfold Builds_Update. grows_prim. Qed.

Lemma FunctionBuilds_UpdateStatus_call ns o :
  respects (grows (only (UpdateStatus ns o))) (FunctionBuilds_UpdateStatus c ns o).
Proof. unfold FunctionBuilds_UpdateStatus. grows_prim. Qed.

Lemma resolver_Resolve_call image opt skip :
  respects (grows (only (Resolve image opt skip))) (resolver_Resolve c image opt skip).
Proof. unfold resolver_Resolve. grows_prim. Qed.

Lemma Recorder_Eventf_call t r m :
  respects (grows (only (Eventf t r m))) (Recorder_Eventf t r m).
Proof. unfold Recorder_Eventf. grows_prim. Qed.

End ClientCalls.

Lemma respects_grows_weaken {A} (P Q : Action -> bool) (m : M A) :
  (forall a, P a = true -> Q a = true) ->
  respects (grows P) m -> respects (grows Q) m.
Proof.
  intros HPQ Hm w. specialize (Hm w).
  destruct (m w); eapply grows_weaken; eassumption.
Qed.

Lemma only_inNamespace (x : Action) (ns : string) :
  inNamespace ns x = true -> forall a, only x a = true -> inNamespace ns a = true.
Proof. intros Hx a Ha. apply bool_decide_eq_true in Ha. by subst. Qed.

Lemma noAction_any (Q : Action -> bool) : forall a, noAction a = true -> Q a = true.
Proof. intros a Ha. discriminate. Qed.

(** A step of a proof that all calls of a computation go to the
    namespace [ns]. *)
Ltac namespace_call lem :=
  eapply respects_grows_weaken; [ | apply lem ];
  apply only_inNamespace; unfold inNamespace; simpl;
  first [ reflexivity | apply String.eqb_refl ].

Ltac namespace_step :=
  first
    [ apply respects_ret; apply _
    | apply respects_panic; apply _
    | eapply respects_grows_weaken;
      [ apply noAction_any
      | first [ apply functionbuildLister_Get_silent
              | apply pvcLister_Get_silent
              | apply knbuildLister_Get_silent ] ]
    | namespace_call PersistentVolumeClaims_Create_call
    | namespace_call PersistentVolumeClaims_Update_call
    | namespace_call PersistentVolumeClaims_Delete_call
    | namespace_call Builds_Create_call
    | namespace_call Builds_Update_call
    | namespace_call FunctionBuilds_UpdateStatus_call
    | namespace_call resolver_Resolve_call
    | namespace_call Recorder_Eventf_call
    | apply respects_bind; [ apply _ | | intros ? ]
    | match goal with
      | |- respects _ (match ?x with _ => _ end) => destruct x
      | |- respects _ (if ?x then _ else _) => destruct x
      end ].

(** ** [reconcile], stage by stage *)

Section Stages.
Context `{ResourcesPackage, Lifecycle, Formatting}.
Variable c : Reconciler.

(** What holds of the two if-chains and of the tail of [reconcile], each
    on the owner as the stages before it left it, holds of [reconcile]
    once the three are put one after the other. *)
Lemma reconcile_by_stages (R1 R2 R3 R : World -> World -> Prop) (fb : FunctionBuild) :
  (forall w, R w w) ->
  (forall w w1, R1 w w1 -> R w w1) ->
  (forall w w1 w2, R1 w w1 -> R2 w1 w2 -> R w w2) ->
  (forall w w1 w2 w3, R1 w w1 -> R2 w1 w2 -> R3 w2 w3 -> R w w3) ->
  respects R1 (reconcile_buildCache c (initialized fb)) ->
  (forall bc, respects R2 (reconcile_build c (withBuildCache (initialized fb) bc))) ->
  (forall bc b, respects R3 (reconcile_image c (withBuildCache (initialized fb) bc) b)) ->
  respects R (reconcile c fb).
Proof.
  intros Hrefl H1only H12 H123 Hs1 Hs2 Hs3 w.
  destruct (DeletionTimestamp (fbMeta fb)) as [ts|] eqn:Hlive.
  { rewrite (reconcile_deleted c fb w ts Hlive). apply Hrefl. }
  rewrite reconcile_unfold by exact Hlive. unfold mbind, M_bind.
  specialize (Hs1 w).
  destruct (reconcile_buildCache c (initialized fb) w) as [[fb1 r1] w1|w1] eqn:Hc1;
    [|by apply H1only].
  pose proof (reconcile_buildCache_owner c _ _ _ _ Hc1) as Ho1. simpl in Ho1.
  destruct r1 as [bc|e1]; [|by apply H1only]. subst fb1.
  specialize (Hs2 bc w1).
  destruct (reconcile_build c (withBuildCache (initialized fb) bc) w1)
    as [[fb2 r2] w2|w2] eqn:Hc2; [|by eapply H12].
  pose proof (reconcile_build_owner c _ _ _ _ Hc2) as Ho2. simpl in Ho2.
  destruct r2 as [b|e2]; [|by eapply H12]. subst fb2.
  specialize (Hs3 bc b w2).
  destruct (reconcile_image c (withBuildCache (initialized fb) bc) b w2);
    by eapply H123.
Qed.

End Stages.

Section Namespaces.
Context `{ResourcesPackage, Lifecycle, Formatting}.
Variable c : Reconciler.

Lemma reconcile_buildCache_namespace fb :
  respects (grows (inNamespace (Namespace (fbMeta fb)))) (reconcile_buildCache c fb).
Proof.
  unfold reconcile_buildCache, createBuildCache, reconcileBuildCache.
  repeat namespace_step.
Qed.

Lemma reconcile_build_namespace fb :
  respects (grows (inNamespace (Namespace (fbMeta fb)))) (reconcile_build c fb).
Proof.
  unfold reconcile_build, createBuild, reconcileBuild.
  repeat namespace_step.
Qed.

Lemma reconcile_image_namespace fb b :
  respects (grows (inNamespace (Namespace (fbMeta fb)))) (reconcile_image c fb b).
Proof. unfold reconcile_image. repeat namespace_step. Qed.

Lemma reconcile_namespace fb :
  respects (grows (inNamespace (Namespace (fbMeta fb)))) (reconcile c fb).
Proof.
  apply (reconcile_by_stages c (grows (inNamespace (Namespace (fbMeta fb))))
           (grows (inNamespace (Namespace (fbMeta fb))))
           (grows (inNamespace (Namespace (fbMeta fb))))).
  - reflexivity.
  - auto.
  - intros w w1 w2 Hg1 Hg2. by etransitivity.
  - intros w w1 w2 w3 Hg1 Hg2 Hg3. etransitivity; [|exact Hg3]. by etransitivity.
  - apply (reconcile_buildCache_namespace (initialized fb)).
  - intros bc. replace (Namespace (fbMeta fb))
      with (Namespace (fbMeta (withBuildCache (initialized fb) bc))) by by destruct bc.
    apply reconcile_build_namespace.
  - intros bc b. replace (Namespace (fbMeta fb))
      with (Namespace (fbMeta (withBuildCache (initialized fb) bc))) by by destruct bc.
    apply reconcile_image_namespace.
Qed.

End Namespaces.

(** ** [Reconcile], stage by stage *)

Section DriverStages.
Context `{ResourcesPackage, Lifecycle, Formatting}.
Variable c : Reconciler.

Lemma Reconcile_then_writeBack (key : string) :
  Reconcile c key
  = match SplitMetaNamespaceKey key with
    | Err _ => mret None
    | Ok (namespace, name) =>
        r ← functionbuildLister_Get c namespace name;
        match r with
        | Err err => if IsNotFound err then mret None else mret (Some err)
        | Ok original =>
            '(functionbuild, err) ← reconcile c original;
            writeBack c original functionbuild err
        end
    end.
Proof. reflexivity. Qed.

(** What holds of the inner pass and of the write-back holds of
    [Reconcile] once the two are put one after the other; nothing is
    issued when the key is malformed or the owner cannot be fetched. *)
Lemma driver_by_stages (R1 R2 R : World -> World -> Prop) (key : string) (w : World) :
  R w w ->
  (forall ns name original,
      SplitMetaNamespaceKey key = Ok (ns, name) ->
      functionbuildLister_Get c ns name w = Done (Ok original) w ->
      (forall w1, R1 w w1 -> R w w1)
      /\ (forall w1 w2, R1 w w1 -> R2 w1 w2 -> R w w2)
      /\ respects R1 (reconcile c original)
      /\ forall functionbuild err,
           fbMeta functionbuild = fbMeta original ->
           respects R2 (writeBack c original functionbuild err)) ->
  R w (worldOf (Reconcile c key w)).
Proof.
  intros Hrefl Hstages. rewrite Reconcile_then_writeBack.
  destruct (SplitMetaNamespaceKey key) as [[ns name]|e] eqn:Hkey; [|exact Hrefl].
  destruct (functionbuildLister_Get_returns c ns name w) as [r Hget].
  rewrite (bind_Done _ _ _ _ _ Hget).
  destruct r as [original|e]; [|by destruct (IsNotFound e)].
  destruct (Hstages ns name original eq_refl Hget) as (H1only & H12 & Hs1 & Hs2).
  unfold mbind, M_bind. specialize (Hs1 w).
  destruct (reconcile c original w) as [[fb' err] w1|w1] eqn:Hrec; [|by apply H1only].
  pose proof (reconcile_owner_meta c original _ _ _ Hrec) as Hmeta. simpl in Hmeta.
  specialize (Hs2 fb' err Hmeta w1). simpl.
  destruct (writeBack c original fb' err w1); by eapply H12.
Qed.

End DriverStages.

(** ** Where the calls go and what they leave alone *)

Section Frames.
Context `{ResourcesPackage, Lifecycle, Formatting}.
Variable c : Reconciler.

Lemma writeBack_namespace original fb err :
  respects (grows (inNamespace (Namespace (fbMeta fb)))) (writeBack c original fb err).
Proof. unfold writeBack, updateStatus. repeat namespace_step. Qed.

(** X2. Every call of a cycle is addressed to the namespace of the
    owner: the inner pass creates, updates and deletes children only
    there and resolves the image with the credentials of that
    namespace, and [Reconcile], for a key that names a stored owner,
    also writes the status there. *)
Theorem calls_stay_in_namespace :
  (forall fb w,
      forallb (inNamespace (Namespace (fbMeta fb)))
        (issued w (worldOf (reconcile c fb w))) = true)
  /\ (forall key ns name w,
        SplitMetaNamespaceKey key = Ok (ns, name) ->
        keyedByName w ->
        forallb (inNamespace ns) (issued w (worldOf (Reconcile c key w))) = true).
Proof.
  split.
  - intros fb w. pose proof (reconcile_namespace c fb w) as Hg.
    destruct (reconcile c fb w); by apply grows_issued in Hg as [_ Hg].
  - intros key ns name w Hkey Hkeyed.
    assert (Hg : grows (inNamespace ns) w (worldOf (Reconcile c key w))).
    { apply (driver_by_stages c (grows (inNamespace ns)) (grows (inNamespace ns))).
      - reflexivity.
      - intros ns' name' original Hkey' Hget. rewrite Hkey in Hkey'.
        injection Hkey' as <- <-.
        apply functionbuildLister_Get_inv in Hget as (_ & _ & Hlook).
        destruct (Hkeyed _ _ _ Hlook) as [Hns _].
        split; [auto|]. split; [intros w1 w2 Hg1 Hg2; by etransitivity|].
        split; [rewrite <- Hns; apply reconcile_namespace|].
        intros fb' err Hmeta. rewrite <- Hns, <- Hmeta. apply writeBack_namespace. }
    by apply grows_issued in Hg as [_ Hg].
Qed.

Lemma storedIdentity_keeps (w w' : World) :
  functionbuilds w' = functionbuilds w -> storedIdentity w' = storedIdentity w.
Proof. unfold storedIdentity. by intros ->. Qed.

Lemma FunctionBuilds_UpdateStatus_identity ns o :
  respects (fun w w' => storedIdentity w' = storedIdentity w)
           (FunctionBuilds_UpdateStatus c ns o).
Proof.
  intros w. unfold FunctionBuilds_UpdateStatus, mbind, M_bind, issue, setFunctionbuilds,
    mret, M_ret. simpl.
  destruct (reactor c (UpdateStatus ns o)); [reflexivity|]. simpl.
  destruct (functionbuilds w !! (ns, Name (fbMeta o))) as [stored|] eqn:Hlook;
    [|reflexivity].
  unfold storedIdentity. simpl. rewrite fmap_insert. simpl.
  apply insert_id. by rewrite lookup_fmap, Hlook.
Qed.

Lemma writeBack_identity original fb err :
  respects (fun w w' => storedIdentity w' = storedIdentity w) (writeBack c original fb err).
Proof.
  intros w. unfold writeBack.
  destruct (semanticStatus _ _); [reflexivity|].
  unfold updateStatus, mbind, M_bind.
  pose proof (functionbuildLister_Get_footprint c (Namespace (fbMeta fb))
                (Name (fbMeta fb)) w) as Hget.
  destruct (functionbuildLister_Get c _ _ w) as [[stored|e] w1|w1];
    destruct Hget as (Hf & _); specialize (Hf eq_refl).
  - destruct (reflectStatus _ _); simpl.
    + destruct err; simpl; by apply storedIdentity_keeps.
    + pose proof (FunctionBuilds_UpdateStatus_identity (Namespace (fbMeta fb))
                    (setStatus stored (fbStatus fb)) w1) as Hu.
      destruct (FunctionBuilds_UpdateStatus c _ _ w1) as [[u|e] w2|w2]; simpl;
        rewrite <- (storedIdentity_keeps _ _ Hf); [destruct err|..]; simpl; exact Hu.
  - simpl. by apply storedIdentity_keeps.
  - by apply storedIdentity_keeps.
Qed.

(** X3. A cycle writes nothing of the owner but its status: the inner
    pass leaves the stored owners as they are and issues no status
    write, and after a whole [Reconcile] every stored owner has the
    metadata and the spec it had, so that neither the defaults applied
    to the working copy nor any other change of it reaches the store. *)
Theorem owner_written_by_status_only (w : World) :
  (forall fb,
      functionbuilds (worldOf (reconcile c fb w)) = functionbuilds w
      /\ List.filter isStatusWrite (issued w (worldOf (reconcile c fb w))) = [])
  /\ (forall key, storedIdentity (worldOf (Reconcile c key w)) = storedIdentity w).
Proof.
  split.
  - intros fb. split; [|apply reconcile_no_status_write].
    pose proof (reconcile_footprint c fb w) as Hf.
    destruct (reconcile c fb w); destruct Hf as (Hf & _); by apply Hf.
  - intros key.
    apply (driver_by_stages c (fun w w' => functionbuilds w' = functionbuilds w)
             (fun w w' => storedIdentity w' = storedIdentity w)
             (fun w w' => storedIdentity w' = storedIdentity w)).
    + reflexivity.
    + intros ns name original _ _.
      split; [intros w1; apply storedIdentity_keeps|].
      split; [intros w1 w2 Hk Hi; by rewrite Hi, (storedIdentity_keeps _ _ Hk)|].
      split.
      * intros w0. pose proof (reconcile_footprint c original w0) as Hf.
        destruct (reconcile c original w0); destruct Hf as (Hf & _); by apply Hf.
      * intros fb' err _. apply writeBack_identity.
Qed.

End Frames.

(** ** How many calls, and in which order *)

Lemma atMost_refl (P : Action -> bool) (n : nat) (w : World) : atMost P n w w.
Proof. exists []. rewrite app_nil_r. split; [done|]. simpl. lia. Qed.

Lemma atMost_trans (P : Action -> bool) (n1 n2 : nat) (w w1 w2 : World) :
  atMost P n1 w w1 -> atMost P n2 w1 w2 -> atMost P (n1 + n2) w w2.
Proof.
  intros (a1 & Ht1 & Hn1) (a2 & Ht2 & Hn2). exists (a1 ++ a2)%list.
  rewrite Ht2, Ht1, <- app_assoc. split; [done|].
  rewrite List.filter_app, length_app. lia.
Qed.

Lemma atMost_weaken (P : Action -> bool) (n n' : nat) (w w' : World) :
  (n <= n')%nat -> atMost P n w w' -> atMost P n' w w'.
Proof. intros Hle (a & Ht & Hn). exists a. split; [done|lia]. Qed.

Lemma atMost_issued (P : Action -> bool) (n : nat) (w w' : World) :
  atMost P n w w' -> (length (List.filter P (issued w w')) <= n)%nat.
Proof. intros (a & Ht & Hn). by rewrite (issued_app _ _ _ Ht). Qed.

(** Calls of another kind do not count. *)
Lemma grows_atMost (Q P : Action -> bool) (w w' : World) :
  (forall a, Q a = true -> P a = false) -> grows Q w w' -> atMost P 0 w w'.
Proof.
  intros HQP (a & Ht & Ha). exists a. split; [done|].
  by rewrite (filter_forallb_nil Q P a HQP Ha).
Qed.

(** A call counts once at most. *)
Lemma grows_one_atMost (P : Action -> bool) (x : Action) f p b (w : World) :
  atMost P 1 w (mkWorld f p b (trace w ++ [x])%list).
Proof. exists [x]. split; [done|]. simpl. destruct (P x); simpl; lia. Qed.

Lemma spends_ret {A} (P : Action -> bool) (n : nat) (a : A) : spends P n (mret a).
Proof. intros w. apply atMost_refl. Qed.

Lemma spends_panic {A} (P : Action -> bool) (n : nat) : spends P n (@panic A).
Proof. intros w. apply atMost_refl. Qed.

Lemma spends_bind {A B} (P : Action -> bool) (n1 n2 n : nat) (m : M A) (f : A -> M B) :
  spends P n1 m -> (forall a, spends P n2 (f a)) -> (n1 + n2 <= n)%nat ->
  spends P n (m ≫= f).
Proof.
  intros Hm Hf Hle w. unfold mbind, M_bind. specialize (Hm w).
  destruct (m w) as [a w1|w1]; simpl in *.
  - eapply atMost_weaken; [exact Hle|]. eapply atMost_trans; [exact Hm|apply Hf].
  - eapply atMost_weaken; [|exact Hm]. lia.
Qed.

Lemma spends_weaken {A} (P : Action -> bool) (n n' : nat) (m : M A) :
  (n <= n')%nat -> spends P n m -> spends P n' m.
Proof. intros Hle Hm w. eapply atMost_weaken; [exact Hle|apply Hm]. Qed.

Lemma spends_respects {A} (P : Action -> bool) (n : nat) (m : M A) :
  spends P n m <-> respects (atMost P n) m.
Proof. split; intros Hm w; specialize (Hm w); by destruct (m w). Qed.

Lemma spends_silent {A} (Q P : Action -> bool) (n : nat) (m : M A) :
  (forall a, Q a = true -> P a = false) -> respects (grows Q) m -> spends P n m.
Proof.
  intros HQP Hm w. specialize (Hm w). eapply atMost_weaken; [apply Nat.le_0_l|].
  destruct (m w); by eapply grows_atMost.
Qed.

Ltac spends_prim :=
  intros w; unfold mbind, M_bind, mret, M_ret, issue, setPvcs, setBuilds,
    setFunctionbuilds;
  simpl;
  repeat (case_match; simplify_eq/=);
  first [ apply grows_one_atMost
        | eapply atMost_weaken; [|apply grows_one_atMost]; lia ].

Section ClientCounts.
Variable c : Reconciler.
Variable P : Action -> bool.

Lemma PersistentVolumeClaims_Create_once ns o :
  spends P 1 (PersistentVolumeClaims_Create c ns o).
Proof. unfold PersistentVolumeClaims_Create. spends_prim. Qed.

Lemma PersistentVolumeClaims_Update_once ns o :
  spends P 1 (PersistentVolumeClaims_Update c ns o).
Proof. unfold PersistentVolumeClaims_Update. spends_prim. Qed.

Lemma PersistentVolumeClaims_Delete_once ns name uid :
  spends P 1 (PersistentVolumeClaims_Delete c ns name uid).
Proof. unfold PersistentVolumeClaims_Delete. spends_prim. Qed.

Lemma Builds_Create_once ns o : spends P 1 (Builds_Create c ns o).
Proof. unfold Builds_Create. spends_prim. Qed.

Lemma Builds_Update_once ns o : spends P 1 (Builds_Update c ns o).
Proof. unfold Builds_Update. spends_prim. Qed.

Lemma FunctionBuilds_UpdateStatus_once ns o :
  spends P 1 (FunctionBuilds_UpdateStatus c ns o).
Proof. unfold FunctionBuilds_UpdateStatus. spends_prim. Qed.

End ClientCounts.

Lemma Recorder_Eventf_free (P : Action -> bool) (n : nat) t r m :
  P (Eventf t r m) = false -> spends P n (Recorder_Eventf t r m).
Proof.
  intros HP. eapply spends_silent; [|apply Recorder_Eventf_call].
  intros a Ha. apply bool_decide_eq_true in Ha. by subst.
Qed.

Lemma resolver_Resolve_free (P : Action -> bool) (n : nat) c image opt skip :
  P (Resolve image opt skip) = false -> spends P n (resolver_Resolve c image opt skip).
Proof.
  intros HP. eapply spends_silent; [|apply resolver_Resolve_call].
  intros a Ha. apply bool_decide_eq_true in Ha. by subst.
Qed.

(** A step of a proof that a computation issues at most one call that
    satisfies the predicate: reads, events and resolutions are free, a
    write takes the budget, and of two computations in sequence one
    gets the budget and the other none. *)
Ltac spends_free :=
  first [ apply spends_ret
        | apply spends_panic
        | eapply spends_silent;
          [ | first [ apply functionbuildLister_Get_silent
                    | apply pvcLister_Get_silent
                    | apply knbuildLister_Get_silent ] ];
          intros ? ?; discriminate
        | apply Recorder_Eventf_free; first [ reflexivity | solve [auto] ]
        | apply resolver_Resolve_free; first [ reflexivity | solve [auto] ] ].

Ltac spends_auto :=
  lazymatch goal with
  | |- spends _ _ (match ?x with _ => _ end) => destruct x; spends_auto
  | |- spends _ _ (if ?x then _ else _) => destruct x; spends_auto
  | |- spends _ ?n (_ ≫= _) =>
      first [ eapply (spends_bind _ 0 n);
              [ solve [spends_auto] | intros ?; spends_auto | lia ]
            | eapply (spends_bind _ n 0);
              [ solve [spends_auto] | intros ?; spends_auto | lia ] ]
  | |- spends _ _ _ =>
      first [ spends_free
            | eapply spends_weaken;
              [ | first [ apply PersistentVolumeClaims_Create_once
                        | apply PersistentVolumeClaims_Update_once
                        | apply PersistentVolumeClaims_Delete_once
                        | apply Builds_Create_once
                        | apply Builds_Update_once
                        | apply FunctionBuilds_UpdateStatus_once ] ]; lia ]
  end.

Section Counts.
Context `{ResourcesPackage, Lifecycle, Formatting}.
Variable c : Reconciler.
Variable P : Action -> bool.
Hypothesis Pevent : forall t r m, P (Eventf t r m) = false.

Lemma reconcile_buildCache_once fb : spends P 1 (reconcile_buildCache c fb).
Proof.
  unfold reconcile_buildCache, createBuildCache, reconcileBuildCache. spends_auto.
Qed.

Lemma reconcile_build_once fb : spends P 1 (reconcile_build c fb).
Proof. unfold reconcile_build, createBuild, reconcileBuild. spends_auto. Qed.

Lemma writeBack_once original fb err : spends P 1 (writeBack c original fb err).
Proof. unfold writeBack, updateStatus. spends_auto. Qed.

End Counts.

Section CountsAndOrder.
Context `{ResourcesPackage, Lifecycle, Formatting}.
Variable c : Reconciler.

Lemma respects_footprint_grows {A} (P : Action -> bool) (kf kp kb : bool) (m : M A) :
  respects (footprint P kf kp kb) m -> respects (grows P) m.
Proof. intros Hm w. specialize (Hm w). by destruct (m w); destruct Hm as (_ & _ & _ & Hg). Qed.

Lemma writeBack_footprint original fb err :
  respects (footprint (orAction isStatusWrite isEvent) false true true)
           (writeBack c original fb err).
Proof.
  unfold writeBack.
  repeat first [ footprint_use updateStatus_footprint | footprint_step ].
Qed.

(** The inner pass issues at most one call that satisfies [P] when the
    calls that satisfy [P] are those of one of its stages. *)
Lemma reconcile_once (P : Action -> bool) (n1 n2 n3 : nat) fb :
  (n1 + n2 + n3 <= 1)%nat ->
  (forall fb', spends P n1 (reconcile_buildCache c fb')) ->
  (forall fb', spends P n2 (reconcile_build c fb')) ->
  (forall fb' b, spends P n3 (reconcile_image c fb' b)) ->
  spends P 1 (reconcile c fb).
Proof.
  intros Hle Hs1 Hs2 Hs3. apply spends_respects.
  apply (reconcile_by_stages c (atMost P n1) (atMost P n2) (atMost P n3)).
  - intros w. apply atMost_refl.
  - intros w w1 Ha. eapply atMost_weaken; [|exact Ha]. lia.
  - intros w w1 w2 Ha Hb. eapply atMost_weaken; [|eapply atMost_trans; eassumption]. lia.
  - intros w w1 w2 w3 Ha Hb Hc.
    eapply atMost_weaken; [|eapply atMost_trans; [eapply atMost_trans|]; eassumption].
    lia.
  - apply spends_respects, Hs1.
  - intros bc. apply spends_respects, Hs2.
  - intros bc b. apply spends_respects, Hs3.
Qed.

Lemma reconcile_image_silent (P : Action -> bool) fb b :
  (forall image opt skip, P (Resolve image opt skip) = false) ->
  spends P 0 (reconcile_image c fb b).
Proof. intros HP. unfold reconcile_image. spends_auto. Qed.

Lemma reconcile_buildCache_no_build fb :
  spends touchesBuild 0 (reconcile_buildCache c fb).
Proof.
  eapply spends_silent;
    [|eapply respects_footprint_grows, reconcile_buildCache_footprint].
  by intros [].
Qed.

Lemma reconcile_build_no_claim fb :
  spends touchesPersistentVolumeClaim 0 (reconcile_build c fb).
Proof.
  eapply spends_silent; [|eapply respects_footprint_grows, reconcile_build_footprint].
  by intros [].
Qed.

Lemma driver_once (P : Action -> bool) (n1 n2 : nat) key w :
  (n1 + n2 <= 1)%nat ->
  (forall fb, spends P n1 (reconcile c fb)) ->
  (forall original fb err, spends P n2 (writeBack c original fb err)) ->
  atMost P 1 w (worldOf (Reconcile c key w)).
Proof.
  intros Hle Hs1 Hs2.
  apply (driver_by_stages c (atMost P n1) (atMost P n2)).
  - apply atMost_refl.
  - intros ns name original _ _.
    split; [intros w1 Ha; eapply atMost_weaken; [|exact Ha]; lia|].
    split.
    { intros w1 w2 Ha Hb.
      eapply atMost_weaken; [|eapply atMost_trans; eassumption]. lia. }
    split; [apply spends_respects, Hs1|].
    intros fb' err _. apply spends_respects, Hs2.
Qed.

Lemma filter_isWrite_length (l : list Action) :
  length (List.filter isWrite l)
  = (length (List.filter touchesPersistentVolumeClaim l)
     + length (List.filter touchesBuild l)
     + length (List.filter isStatusWrite l))%nat.
Proof. induction l as [|[] l IH]; simpl; lia. Qed.

(** X4. One [Reconcile] issues at most one write for the build cache, at
    most one for the build and at most one for the status of the owner:
    three writes at most, whatever the listers, the store and the
    resolver answer. *)
Theorem Reconcile_writes_at_most_once (key : string) (w : World) :
  let acts := issued w (worldOf (Reconcile c key w)) in
  (length (List.filter touchesPersistentVolumeClaim acts) <= 1)%nat
  /\ (length (List.filter touchesBuild acts) <= 1)%nat
  /\ (length (List.filter isStatusWrite acts) <= 1)%nat
  /\ (length (List.filter isWrite acts) <= 3)%nat.
Proof.
  intros acts.
  assert (Hp : (length (List.filter touchesPersistentVolumeClaim acts) <= 1)%nat).
  { apply atMost_issued, (driver_once _ 1 0); [lia| |].
    - intros fb. apply (reconcile_once _ 1 0 0); [lia| | |].
      + intros fb'. by apply reconcile_buildCache_once.
      + apply reconcile_build_no_claim.
      + intros fb' b. by apply reconcile_image_silent.
    - intros original fb err. eapply spends_silent;
        [|eapply respects_footprint_grows, writeBack_footprint].
      by intros []. }
  assert (Hb : (length (List.filter touchesBuild acts) <= 1)%nat).
  { apply atMost_issued, (driver_once _ 1 0); [lia| |].
    - intros fb. apply (reconcile_once _ 0 1 0); [lia| | |].
      + apply reconcile_buildCache_no_build.
      + intros fb'. by apply reconcile_build_once.
      + intros fb' b. by apply reconcile_image_silent.
    - intros original fb err. eapply spends_silent;
        [|eapply respects_footprint_grows, writeBack_footprint].
      by intros []. }
  assert (Hs : (length (List.filter isStatusWrite acts) <= 1)%nat).
  { apply atMost_issued, (driver_once _ 0 1); [lia| |].
    - intros fb. eapply spends_silent;
        [|eapply respects_footprint_grows, reconcile_footprint].
      intros a. unfold notStatusWrite. by destruct (isStatusWrite a).
    - intros original fb err. by apply writeBack_once. }
  repeat split; try assumption. rewrite filter_isWrite_length. lia.
Qed.

(** X5. The calls of one [Reconcile] come in a fixed order: first those
    for the build cache, then those for the build, then the resolution
    of the image, and last the write of the status; no build is written
    before the build cache is settled and no status before the
    children are. *)
Theorem Reconcile_calls_in_order (key : string) (w : World) :
  inOrder w (worldOf (Reconcile c key w)).
Proof.
  apply (driver_by_stages c
           (fun w w' => exists l1 l2 l3,
                trace w' = (trace w ++ l1 ++ l2 ++ l3)%list
                /\ forallb buildCacheAction l1 = true
                /\ forallb buildAction l2 = true
                /\ forallb isResolve l3 = true)
           (grows (orAction isStatusWrite isEvent))).
  - exists [], [], [], []. rewrite issued_refl. by repeat split.
  - intros ns name original _ _. split; [|split; [|split]].
    + intros w1 (l1 & l2 & l3 & Ht & F1 & F2 & F3).
      exists l1, l2, l3, []. rewrite app_nil_r.
      rewrite (issued_app _ _ _ Ht). by repeat split.
    + intros w1 w2 (l1 & l2 & l3 & Ht & F1 & F2 & F3) (l4 & Ht4 & F4).
      exists l1, l2, l3, l4. split; [|by repeat split].
      apply issued_app. rewrite Ht4, Ht, <- !app_assoc. reflexivity.
    + apply (reconcile_by_stages c (grows buildCacheAction) (grows buildAction)
               (grows isResolve)).
      * intros w0. exists [], [], []. rewrite app_nil_r. by repeat split.
      * intros w0 w1 (l1 & Ht & F1). exists l1, [], []. rewrite !app_nil_r.
        by repeat split.
      * intros w0 w1 w2 (l1 & Ht1 & F1) (l2 & Ht2 & F2). exists l1, l2, [].
        rewrite app_nil_r. split; [|by repeat split].
        by rewrite Ht2, Ht1, <- app_assoc.
      * intros w0 w1 w2 w3 (l1 & Ht1 & F1) (l2 & Ht2 & F2) (l3 & Ht3 & F3).
        exists l1, l2, l3. split; [|by repeat split].
        by rewrite Ht3, Ht2, Ht1, <- !app_assoc.
      * eapply respects_footprint_grows, reconcile_buildCache_footprint.
      * intros bc. eapply respects_footprint_grows, reconcile_build_footprint.
      * intros bc b. eapply respects_footprint_grows, reconcile_image_footprint.
    + intros fb' err _. eapply respects_footprint_grows, writeBack_footprint.
Qed.

End CountsAndOrder.

(** ** When the inner pass does not return *)

Lemma returns_ret {A} (Q : A -> Prop) (a : A) : Q a -> returns Q (mret a).
Proof. intros Ha w. by exists a, w. Qed.

Lemma returns_bind {A B} (Q1 : A -> Prop) (Q : B -> Prop) (m : M A) (f : A -> M B) :
  returns Q1 m -> (forall a, Q1 a -> returns Q (f a)) -> returns Q (m ≫= f).
Proof.
  intros Hm Hf w. destruct (Hm w) as (a & w1 & Hrun & Ha).
  rewrite (bind_Done _ _ _ _ _ Hrun). by apply Hf.
Qed.

Lemma returns_weaken {A} (Q1 Q : A -> Prop) (m : M A) :
  (forall a, Q1 a -> Q a) -> returns Q1 m -> returns Q m.
Proof. intros HQ Hm w. destruct (Hm w) as (a & w' & Hrun & Ha). eauto. Qed.

Ltac returns_prim :=
  intros w; unfold mbind, M_bind, mret, M_ret, issue, setPvcs, setBuilds,
    setFunctionbuilds;
  simpl; repeat case_match; eauto.

Section ClientReturns.
Variable c : Reconciler.

Lemma functionbuildLister_Get_always ns name :
  returns (fun _ => True) (functionbuildLister_Get c ns name).
Proof. unfold functionbuildLister_Get. returns_prim. Qed.

Lemma pvcLister_Get_always ns name : returns (fun _ => True) (pvcLister_Get c ns name).
Proof. unfold pvcLister_Get. returns_prim. Qed.

Lemma knbuildLister_Get_always ns name :
  returns (fun _ => True) (knbuildLister_Get c ns name).
Proof. unfold knbuildLister_Get. returns_prim. Qed.

Lemma PersistentVolumeClaims_Create_always ns o :
  returns (fun _ => True) (PersistentVolumeClaims_Create c ns o).
Proof. unfold PersistentVolumeClaims_Create. returns_prim. Qed.

Lemma PersistentVolumeClaims_Update_always ns o :
  returns (fun _ => True) (PersistentVolumeClaims_Update c ns o).
Proof. unfold PersistentVolumeClaims_Update. returns_prim. Qed.

Lemma PersistentVolumeClaims_Delete_always ns name uid :
  returns (fun _ => True) (PersistentVolumeClaims_Delete c ns name uid).
Proof. unfold PersistentVolumeClaims_Delete. returns_prim. Qed.

Lemma Builds_Create_always ns o : returns (fun _ => True) (Builds_Create c ns o).
Proof. unfold Builds_Create. returns_prim. Qed.

Lemma Builds_Update_always ns o : returns (fun _ => True) (Builds_Update c ns o).
Proof. unfold Builds_Update. returns_prim. Qed.

Lemma FunctionBuilds_UpdateStatus_always ns o :
  returns (fun _ => True) (FunctionBuilds_UpdateStatus c ns o).
Proof. unfold FunctionBuilds_UpdateStatus. returns_prim. Qed.

Lemma resolver_Resolve_always image opt skip :
  returns (fun _ => True) (resolver_Resolve c image opt skip).
Proof. unfold resolver_Resolve. returns_prim. Qed.

Lemma Recorder_Eventf_always t r m : returns (fun _ => True) (Recorder_Eventf t r m).
Proof. unfold Recorder_Eventf. returns_prim. Qed.

End ClientReturns.

(** A step of a proof that a computation returns. *)
Ltac returns_step :=
  first
    [ apply returns_ret; first [ exact I | done ]
    | eapply returns_bind;
      [ first [ apply functionbuildLister_Get_always
              | apply pvcLister_Get_always
              | apply knbuildLister_Get_always
              | apply PersistentVolumeClaims_Create_always
              | apply PersistentVolumeClaims_Update_always
              | apply PersistentVolumeClaims_Delete_always
              | apply Builds_Create_always
              | apply Builds_Update_always
              | apply FunctionBuilds_UpdateStatus_always
              | apply resolver_Resolve_always
              | apply Recorder_Eventf_always ]
      | intros ? _ ]
    | match goal with
      | |- returns _ (match ?x with _ => _ end) => destruct x
      | |- returns _ (if ?x then _ else _) => destruct x
      end ].

Section Panics.
Context `{ResourcesPackage, Lifecycle, Formatting}.
Variable c : Reconciler.

Lemma reconcile_buildCache_returns fb :
  returns (fun _ => True) (reconcile_buildCache c fb).
Proof.
  unfold reconcile_buildCache.
  eapply returns_bind; [apply pvcLister_Get_always|]. intros r _.
  destruct r as [o|e].
  - destruct (negb _); [returns_step|].
    eapply (returns_bind (fun _ => True)).
    + unfold reconcileBuildCache. repeat returns_step.
    + intros r _. repeat returns_step.
  - destruct (IsNotFound e); [|returns_step].
    eapply (returns_bind (fun _ => True)).
    + unfold createBuildCache. repeat returns_step.
    + intros r _. repeat returns_step.
Qed.

Lemma updateStatus_returns fb : returns (fun _ => True) (updateStatus c fb).
Proof.
  unfold updateStatus. repeat returns_step.
  eapply returns_weaken; [|apply FunctionBuilds_UpdateStatus_always]. done.
Qed.

Lemma writeBack_returns original fb err :
  returns (fun _ => True) (writeBack c original fb err).
Proof.
  unfold writeBack. destruct (semanticStatus _ _); [returns_step|].
  eapply returns_bind; [apply updateStatus_returns|]. intros u _.
  repeat returns_step.
Qed.

Lemma reconcile_image_returns fb b :
  returns (fun _ => True) (reconcile_image c fb (Some b)).
Proof. unfold reconcile_image. repeat returns_step. Qed.

(** With a desired build, the second if-chain returns a build or an
    error. *)
Lemma reconcile_build_returns fb :
  MakeBuild fb <> Ok None ->
  returns (fun '(_, r) => r <> Ok None) (reconcile_build c fb).
Proof.
  intros Hmake. unfold reconcile_build.
  eapply returns_bind; [apply knbuildLister_Get_always|]. intros r _.
  destruct r as [o|e].
  - destruct (negb _); [by apply returns_ret|].
    eapply (returns_bind (fun r => r <> Ok None)).
    + unfold reconcileBuild. destruct (MakeBuild fb) as [[d|]|e]; [|done|].
      * destruct (buildSemanticEquals d o); [by apply returns_ret|].
        destruct (SafeDiffBuildSpec _ _); [|by apply returns_ret].
        eapply returns_bind; [apply Builds_Update_always|]. intros u _.
        apply returns_ret. by destruct u.
      * by apply returns_ret.
    + intros r Hr. by apply returns_ret.
  - destruct (IsNotFound e); [|by apply returns_ret].
    eapply (returns_bind (fun r => r <> Ok None)).
    + unfold createBuild. destruct (MakeBuild fb) as [[d|]|e0]; [|done|].
      * eapply returns_bind; [apply Builds_Create_always|]. intros u _.
        apply returns_ret. by destruct u.
      * by apply returns_ret.
    + intros r Hr. destruct r as [[b|]|e0]; [|done|].
      * eapply returns_bind; [apply Recorder_Eventf_always|]. intros _ _.
        by apply returns_ret.
      * eapply returns_bind; [apply Recorder_Eventf_always|]. intros _ _.
        by apply returns_ret.
Qed.

(** Without one, it dereferences nil as soon as it gets to create or to
    converge the build, and returns an error otherwise. *)
Lemma reconcile_build_nil fb w :
  MakeBuild fb = Ok None ->
  if reachesBuild c fb w
  then reconcile_build c fb w = Panic w \/ reconcile_build c fb w = Done (fb, Ok None) w
  else exists fb' e, reconcile_build c fb w = Done (fb', Err e) w.
Proof.
  intros Hmake. unfold reachesBuild, reconcile_build.
  destruct (knbuildLister_Get_always c (Namespace (fbMeta fb)) (names_Build fb) w)
    as (r & w1 & Hget & _).
  assert (w1 = w) as ->.
  { pose proof (knbuildLister_Get_footprint c (Namespace (fbMeta fb)) (names_Build fb) w)
      as Hf. rewrite Hget in Hf. destruct Hf as (Hf & Hp & Hb & (acts & Ht & _)).
    destruct w, w1; simpl in *. rewrite Hf, Hp, Hb by done. f_equal.
    revert Ht. unfold knbuildLister_Get in Hget. repeat case_match; by simplify_eq/=. }
  rewrite (bind_Done _ _ _ _ _ Hget), Hget.
  destruct r as [o|e]; simpl.
  - destruct (IsControlledBy (buildMeta o) (fbMeta fb)); simpl; [|eauto].
    left. unfold reconcileBuild. by rewrite Hmake.
  - destruct (IsNotFound e); simpl; [|eauto].
    right. unfold createBuild. by rewrite Hmake.
Qed.

(** X6. The inner pass panics on a nil dereference in exactly one
    situation: the owner is live, the build cache went through, the
    second if-chain gets to create or to converge the build, and
    [MakeBuild] returns neither a build nor an error.  So when
    [MakeBuild] never does that, every [Reconcile] returns. *)
Theorem reconcile_panics_iff (fb : FunctionBuild) (w : World) :
  ((exists w', reconcile c fb w = Panic w')
   <-> DeletionTimestamp (fbMeta fb) = None
       /\ exists buildCache w1,
           reconcile_buildCache c (initialized fb) w
           = Done (initialized fb, Ok buildCache) w1
           /\ MakeBuild (withBuildCache (initialized fb) buildCache) = Ok None
           /\ reachesBuild c (withBuildCache (initialized fb) buildCache) w1 = true)
  /\ ((forall fb', MakeBuild fb' <> Ok None) ->
      forall key, exists r w', Reconcile c key w = Done r w').
Proof.
  assert (Hiff : forall fb0 w0,
    (exists w', reconcile c fb0 w0 = Panic w')
    <-> DeletionTimestamp (fbMeta fb0) = None
        /\ exists buildCache w1,
            reconcile_buildCache c (initialized fb0) w0
            = Done (initialized fb0, Ok buildCache) w1
            /\ MakeBuild (withBuildCache (initialized fb0) buildCache) = Ok None
            /\ reachesBuild c (withBuildCache (initialized fb0) buildCache) w1 = true).
  { clear fb w. intros fb w.
    destruct (DeletionTimestamp (fbMeta fb)) as [ts|] eqn:Hlive.
    { rewrite (reconcile_deleted c fb w ts Hlive).
      split; [intros [? ?]; discriminate|intros [? _]; discriminate]. }
    rewrite reconcile_unfold by exact Hlive.
    destruct (reconcile_buildCache_returns (initialized fb) w)
      as ([fb1 r1] & w1 & Hc1 & _).
    pose proof (reconcile_buildCache_owner c _ _ _ _ Hc1) as Ho1. simpl in Ho1.
    rewrite (bind_Done _ _ _ _ _ Hc1).
    destruct r1 as [bc|e1].
    2:{ split; [intros [? ?]; discriminate|].
        intros (_ & bc & w1' & Hc1' & _). rewrite Hc1 in Hc1'. discriminate. }
    subst fb1. set (fb2 := withBuildCache (initialized fb) bc).
    assert (MakeBuild fb2 = Ok None \/ MakeBuild fb2 <> Ok None) as [Hnil|Hsome]
      by (destruct (MakeBuild fb2) as [[?|]|?]; [right|left|right]; done).
    - pose proof (reconcile_build_nil fb2 w1 Hnil) as Hcases.
      destruct (reachesBuild c fb2 w1) eqn:Hreach.
      + split.
        * intros _. split; [reflexivity|]. by exists bc, w1.
        * intros _. destruct Hcases as [Hp|Hd].
          -- exists w1. by rewrite (bind_Panic _ _ _ _ Hp).
          -- exists w1. by rewrite (bind_Done _ _ _ _ _ Hd).
      + destruct Hcases as (fb' & e & Hd). rewrite (bind_Done _ _ _ _ _ Hd).
        split; [intros [? ?]; discriminate|].
        intros (_ & bc' & w1' & Hc1' & _ & Hreach').
        rewrite Hc1 in Hc1'. injection Hc1' as <- <-. fold fb2 in Hreach'. congruence.
    - destruct (reconcile_build_returns fb2 Hsome w1) as ([fb2' r2] & w2 & Hc2 & Hr2).
      rewrite (bind_Done _ _ _ _ _ Hc2).
      split.
      + intros [w' Hp]. exfalso. destruct r2 as [[b|]|e2]; [|done|discriminate].
        destruct (reconcile_image_returns fb2' b w2) as (r & w3 & Himg & _).
        rewrite Himg in Hp. discriminate.
      + intros (_ & bc' & w1' & Hc1' & Hnil & _).
        rewrite Hc1 in Hc1'. injection Hc1' as <- <-. contradiction. }
  split; [apply Hiff|].
  intros Hmake key. rewrite Reconcile_then_writeBack.
  destruct (SplitMetaNamespaceKey key) as [[ns name]|e]; [|by eexists _, _].
  destruct (functionbuildLister_Get_always c ns name w) as (r & w1 & Hget & _).
  rewrite (bind_Done _ _ _ _ _ Hget).
  destruct r as [original|e]; [|destruct (IsNotFound e); by eexists _, _].
  destruct (reconcile c original w1) as [[fb' err] w2|w2] eqn:Hrec.
  - rewrite (bind_Done _ _ _ _ _ Hrec).
    destruct (writeBack_returns original fb' err w2) as (r & w3 & Hwb & _). eauto.
  - exfalso. destruct (proj1 (Hiff original w1) (ex_intro _ w2 Hrec))
      as (_ & bc & w1' & _ & Hnil & _).
    exact (Hmake _ Hnil).
Qed.

End Panics.

(** ** What a cycle that succeeded leaves behind *)

Section Success.
Context `{ResourcesPackage, Lifecycle, Formatting}.
Variable c : Reconciler.

(** An inner pass that returns nil for a live owner ends by recording
    the generation it has seen. *)
Lemma reconcile_success_generation fb fb' w w' :
  DeletionTimestamp (fbMeta fb) = None ->
  reconcile c fb w = Done (fb', None) w' ->
  ObservedGeneration (fbStatus fb') = Generation (fbMeta fb).
Proof.
  intros Hlive Hrec. rewrite reconcile_unfold in Hrec by exact Hlive.
  apply bind_inv in Hrec as ([fb1 r1] & w1 & Hc1 & Hrec).
  pose proof (reconcile_buildCache_owner c _ _ _ _ Hc1) as Ho1. simpl in Ho1.
  destruct r1 as [bc|e1]; [|discriminate]. subst fb1.
  apply bind_inv in Hrec as ([fb2 r2] & w2 & Hc2 & Hrec).
  pose proof (reconcile_build_owner c _ _ _ _ Hc2) as Ho2. simpl in Ho2.
  destruct r2 as [[b|]|e2]; [|discriminate|discriminate]. subst fb2.
  rewrite reconcile_image_cases in Hrec.
  destruct (IsReady _); [destruct (resolver c _ _ _); [|discriminate]|];
    injection Hrec as <- _; by destruct bc.
Qed.

(** X7. When [Reconcile] returns nil for a live owner it fetched, the
    owner in the store carries the generation of its metadata as the
    observed generation of its status: a cycle that succeeded has seen
    the spec as it is stored. *)
Theorem success_records_generation (key ns name : string) (original : FunctionBuild)
    (w w' : World)
    (Hkey : SplitMetaNamespaceKey key = Ok (ns, name))
    (Hget : functionbuildLister_Get c ns name w = Done (Ok original) w)
    (Hkeyed : keyedByName w)
    (Hlive : DeletionTimestamp (fbMeta original) = None)
    (Hrun : Reconcile c key w = Done None w') :
  exists stored,
    functionbuilds w' !! (ns, name) = Some stored
    /\ fbMeta stored = fbMeta original
    /\ fbSpec stored = fbSpec original
    /\ ObservedGeneration (fbStatus stored) = Generation (fbMeta original).
Proof.
  pose proof (functionbuildLister_Get_inv c _ _ _ _ _ Hget) as (_ & _ & Hlook).
  destruct (reconcile c original w) as [[fb' err] w1|w1] eqn:Hrec.
  2:{ rewrite Reconcile_then_writeBack, Hkey, (bind_Done _ _ _ _ _ Hget) in Hrun.
      rewrite (bind_Panic _ _ _ _ Hrec) in Hrun. discriminate. }
  pose proof (respects_Done _ _ _ _ _ (reconcile_footprint c original) Hrec)
    as (Hf & _ & _ & _). specialize (Hf eq_refl).
  destruct (decide (fbStatus original = fbStatus fb')) as [Heq|Hne].
  - rewrite (Reconcile_status_equal c key ns name original fb' err w w1
               Hkey Hget Hrec Heq) in Hrun.
    injection Hrun as -> <-. exists original. rewrite Hf.
    split; [exact Hlook|]. split; [done|]. split; [done|].
    rewrite Heq. eapply reconcile_success_generation; eassumption.
  - destruct (Reconcile_status_differs c key ns name original fb' err w w1
                Hkey Hget Hrec (Hkeyed _ _ _ Hlook) Hne)
      as (r & w2 & ev & HR & _ & _ & _ & _ & Hr).
    rewrite HR in Hrun. injection Hrun as -> ->.
    destruct (reactor c _); destruct Hr as [Hr Hfb]; [discriminate|]. subst err.
    exists (setStatus original (fbStatus fb')). rewrite Hfb, lookup_insert_eq.
    split; [done|]. split; [done|]. split; [done|].
    simpl. exact (reconcile_success_generation original fb' w w1 Hlive Hrec).
Qed.

(** X8. Converging a child takes one step: the child that
    [reconcileBuildCache] or [reconcileBuild] returns is semantically
    equal to the desired one, so that converging it again, in the world
    the first convergence left, issues no call and returns it as it
    is. *)
Theorem convergence_takes_one_step (fb : FunctionBuild) (w w' : World) :
  (forall buildCache buildCache',
      reconcileBuildCache c fb buildCache w = Done (Ok (Some buildCache')) w' ->
      (exists desired,
          MakeBuildCache fb = Ok (Some desired)
          /\ buildCacheSemanticEquals desired buildCache' = true)
      /\ reconcileBuildCache c fb buildCache' w' = Done (Ok (Some buildCache')) w')
  /\ (forall build build',
        reconcileBuild c fb build w = Done (Ok (Some build')) w' ->
        (exists desired,
            MakeBuild fb = Ok (Some desired)
            /\ buildSemanticEquals desired build' = true)
        /\ reconcileBuild c fb build' w' = Done (Ok (Some build')) w').
Proof.
  split.
  - intros bc bc' Hrun. unfold reconcileBuildCache in Hrun |- *.
    destruct (MakeBuildCache fb) as [[d|]|e] eqn:Hmake.
    + assert (Heq' : buildCacheSemanticEquals d bc' = true).
      { destruct (buildCacheSemanticEquals d bc) eqn:Heq.
        - by injection Hrun as <- <-.
        - destruct (SafeDiffPersistentVolumeClaimSpec _ _); [|discriminate].
          apply bind_inv in Hrun as (u & w1 & Hu & Hret). injection Hret as Hres <-.
          destruct u as [u|e]; [|discriminate]. injection Hres as <-.
          apply PersistentVolumeClaims_Update_Ok in Hu as (-> & _).
          unfold buildCacheSemanticEquals. simpl.
          by rewrite semanticResourceRequirements_refl, semanticStringMap_refl. }
      split; [by exists d|]. by rewrite Heq'.
    + apply bind_inv in Hrun as (dr & w1 & _ & Hret). by destruct dr.
    + discriminate.
  - intros b b' Hrun. unfold reconcileBuild in Hrun |- *.
    destruct (MakeBuild fb) as [[d|]|e] eqn:Hmake; [|discriminate|discriminate].
    assert (Heq' : buildSemanticEquals d b' = true).
    { destruct (buildSemanticEquals d b) eqn:Heq.
      - by injection Hrun as <- <-.
      - destruct (SafeDiffBuildSpec _ _); [|discriminate].
        apply bind_inv in Hrun as (u & w1 & Hu & Hret). injection Hret as Hres <-.
        destruct u as [u|e]; [|discriminate]. injection Hres as <-.
        apply Builds_Update_Ok in Hu as (-> & _).
        unfold buildSemanticEquals. simpl.
        by rewrite semanticBuildSpec_refl, semanticStringMap_refl. }
    split; [by exists d|]. by rewrite Heq'.
Qed.

End Success.

(** ** Children that are missing, and children that are no longer wanted *)

Section Children.
Context `{ResourcesPackage, Lifecycle, Formatting}.
Variable c : Reconciler.

Lemma PersistentVolumeClaims_Create_run ns o w :
  exists r w1,
    PersistentVolumeClaims_Create c ns o w = Done r w1
    /\ trace w1 = (trace w ++ [CreatePersistentVolumeClaim ns o])%list
    /\ builds w1 = builds w /\ functionbuilds w1 = functionbuilds w
    /\ match r with
       | Ok created => created = o /\ pvcs w1 = <[(ns, Name (pvcMeta o)) := o]> (pvcs w)
       | Err _ => pvcs w1 = pvcs w
       end.
Proof.
  unfold PersistentVolumeClaims_Create, mbind, M_bind, issue, setPvcs, mret, M_ret.
  simpl. repeat case_match; eexists _, _; (split; [reflexivity|]); simpl; auto.
Qed.

Lemma Builds_Create_run ns o w :
  exists r w1,
    Builds_Create c ns o w = Done r w1
    /\ trace w1 = (trace w ++ [CreateBuild ns o])%list
    /\ pvcs w1 = pvcs w /\ functionbuilds w1 = functionbuilds w
    /\ match r with
       | Ok created => created = o /\ builds w1 = <[(ns, Name (buildMeta o)) := o]> (builds w)
       | Err _ => builds w1 = builds w
       end.
Proof.
  unfold Builds_Create, mbind, M_bind, issue, setBuilds, mret, M_ret.
  simpl. repeat case_match; eexists _, _; (split; [reflexivity|]); simpl; auto.
Qed.

Lemma PersistentVolumeClaims_Delete_run ns name uid w :
  exists r w1,
    PersistentVolumeClaims_Delete c ns name uid w = Done r w1
    /\ trace w1 = (trace w ++ [DeletePersistentVolumeClaim ns name uid])%list
    /\ builds w1 = builds w /\ functionbuilds w1 = functionbuilds w
    /\ match r with
       | None => pvcs w1 = delete (ns, name) (pvcs w)
       | Some _ => pvcs w1 = pvcs w
       end.
Proof.
  unfold PersistentVolumeClaims_Delete, mbind, M_bind, issue, setPvcs, mret, M_ret.
  simpl. repeat case_match; eexists _, _; (split; [reflexivity|]); simpl; auto.
Qed.

(** X9. A child the lister does not find is created as [MakeBuildCache]
    or [MakeBuild] computes it, in the namespace of the owner, by one
    create call, and the attempt is recorded: a [Created] event when
    the store took the child, a [CreationFailed] event, with the error
    returned and the store untouched, when the create was refused or
    the desired child could not be computed.  When no child is desired
    nothing is called and nothing is recorded. *)
Theorem missing_child_is_created (fb : FunctionBuild) (w : World) (notFound : error)
    (Hnf : IsNotFound notFound = true) :
  (pvcLister_Get c (Namespace (fbMeta fb)) (names_BuildCache fb) w = Done (Err notFound) w ->
   exists r w',
     reconcile_buildCache c fb w = Done (fb, r) w'
     /\ builds w' = builds w /\ functionbuilds w' = functionbuilds w
     /\ match MakeBuildCache fb with
        | Ok None => r = Ok None /\ w' = w
        | Err err =>
            r = Err err
            /\ issued w w'
               = [Eventf "Warning" "CreationFailed"
                    ("Failed to create PersistentVolumeClaim "
                       ++ quote (names_BuildCache fb) ++ ": " ++ Error err)]
            /\ pvcs w' = pvcs w
        | Ok (Some desired) =>
            let create := CreatePersistentVolumeClaim (Namespace (fbMeta fb)) desired in
            match r with
            | Ok created =>
                created = Some desired
                /\ issued w w'
                   = [create;
                      Eventf "Normal" "Created"
                        ("Created PersistentVolumeClaim " ++ quote (names_BuildCache fb))]
                /\ pvcs w'
                   = <[(Namespace (fbMeta fb), Name (pvcMeta desired)) := desired]> (pvcs w)
            | Err err =>
                issued w w'
                = [create;
                   Eventf "Warning" "CreationFailed"
                     ("Failed to create PersistentVolumeClaim "
                        ++ quote (names_BuildCache fb) ++ ": " ++ Error err)]
                /\ pvcs w' = pvcs w
            end
        end)
  /\ (knbuildLister_Get c (Namespace (fbMeta fb)) (names_Build fb) w = Done (Err notFound) w ->
      exists r w',
        reconcile_build c fb w = Done (fb, r) w'
        /\ pvcs w' = pvcs w /\ functionbuilds w' = functionbuilds w
        /\ match MakeBuild fb with
           | Ok None => r = Ok None /\ w' = w
           | Err err =>
               r = Err err
               /\ issued w w'
                  = [Eventf "Warning" "CreationFailed"
                       ("Failed to create Build " ++ quote (names_Build fb)
                          ++ ": " ++ Error err)]
               /\ builds w' = builds w
           | Ok (Some desired) =>
               let create := CreateBuild (Namespace (fbMeta fb)) desired in
               match r with
               | Ok created =>
                   created = Some desired
                   /\ issued w w'
                      = [create;
                         Eventf "Normal" "Created"
                           ("Created Build " ++ quote (names_Build fb))]
                   /\ builds w'
                      = <[(Namespace (fbMeta fb), Name (buildMeta desired)) := desired]>
                          (builds w)
               | Err err =>
                   issued w w'
                   = [create;
                      Eventf "Warning" "CreationFailed"
                        ("Failed to create Build " ++ quote (names_Build fb)
                           ++ ": " ++ Error err)]
                   /\ builds w' = builds w
               end
           end).
Proof.
  split.
  - intros Hget. unfold reconcile_buildCache.
    rewrite (bind_Done _ _ _ _ _ Hget). simpl. rewrite Hnf.
    unfold createBuildCache.
    destruct (MakeBuildCache fb) as [[d|]|e]; simpl.
    + destruct (PersistentVolumeClaims_Create_run (Namespace (fbMeta fb)) d w)
        as (r & w1 & Hc & Ht & Hb & Hf & Hr).
      unfold mbind at 1, M_bind at 1. unfold mbind at 1, M_bind at 1. rewrite Hc. simpl.
      destruct r as [o|e]; simpl; unfold Recorder_Eventf, issue, mbind, M_bind; simpl;
        eexists _, _; (split; [reflexivity|]); simpl;
        (split; [done|]); (split; [done|]).
      * destruct Hr as [-> Hp]. split; [done|]. split; [|done].
        apply issued_app. simpl. by rewrite Ht, <- app_assoc.
      * split; [|done]. apply issued_app. simpl. by rewrite Ht, <- app_assoc.
    + eexists _, _. split; [reflexivity|]. auto.
    + unfold Recorder_Eventf, issue, mbind, M_bind. simpl.
      eexists _, _. split; [reflexivity|]. simpl. repeat split; try done.
      by apply issued_app.
  - intros Hget. unfold reconcile_build.
    rewrite (bind_Done _ _ _ _ _ Hget). simpl. rewrite Hnf.
    unfold createBuild.
    destruct (MakeBuild fb) as [[d|]|e]; simpl.
    + destruct (Builds_Create_run (Namespace (fbMeta fb)) d w)
        as (r & w1 & Hc & Ht & Hp & Hf & Hr).
      unfold mbind at 1, M_bind at 1. unfold mbind at 1, M_bind at 1. rewrite Hc. simpl.
      destruct r as [o|e]; simpl; unfold Recorder_Eventf, issue, mbind, M_bind; simpl;
        eexists _, _; (split; [reflexivity|]); simpl;
        (split; [done|]); (split; [done|]).
      * destruct Hr as [-> Hb]. split; [done|]. split; [|done].
        apply issued_app. simpl. by rewrite Ht, <- app_assoc.
      * split; [|done]. apply issued_app. simpl. by rewrite Ht, <- app_assoc.
    + eexists _, _. split; [reflexivity|]. auto.
    + unfold Recorder_Eventf, issue, mbind, M_bind. simpl.
      eexists _, _. split; [reflexivity|]. simpl. repeat split; try done.
      by apply issued_app.
Qed.

(** X10. A build cache that exists, is controlled by the owner and is no
    longer desired is removed by one delete call for the name of the
    observed claim, guarded by its UID; when the delete goes through
    the claim is gone from the store, a [Deleted] event is recorded and
    the cycle goes on without a build cache; when it is refused the
    error is returned and the store is as it was. *)
Theorem unwanted_build_cache_is_deleted (fb : FunctionBuild) (w : World)
    (buildCache : PersistentVolumeClaim)
    (Hget : pvcLister_Get c (Namespace (fbMeta fb)) (names_BuildCache fb) w
            = Done (Ok buildCache) w)
    (Hctl : IsControlledBy (pvcMeta buildCache) (fbMeta fb) = true)
    (Hmake : MakeBuildCache fb = Ok None) :
  let delete_ := DeletePersistentVolumeClaim (Namespace (fbMeta fb))
                   (Name (pvcMeta buildCache)) (UID (pvcMeta buildCache)) in
  exists r w',
    reconcile_buildCache c fb w = Done (fb, r) w'
    /\ builds w' = builds w /\ functionbuilds w' = functionbuilds w
    /\ match r with
       | Ok kept =>
           kept = None
           /\ issued w w'
              = [delete_;
                 Eventf "Normal" "Deleted"
                   ("Deleted PersistentVolumeClaim " ++ quote (names_BuildCache fb))]
           /\ pvcs w'
              = delete (Namespace (fbMeta fb), Name (pvcMeta buildCache)) (pvcs w)
       | Err _ => issued w w' = [delete_] /\ pvcs w' = pvcs w
       end.
Proof.
  intros delete_. unfold reconcile_buildCache.
  rewrite (bind_Done _ _ _ _ _ Hget). simpl. rewrite Hctl. simpl.
  unfold reconcileBuildCache. rewrite Hmake.
  destruct (PersistentVolumeClaims_Delete_run (Namespace (fbMeta fb))
              (Name (pvcMeta buildCache)) (UID (pvcMeta buildCache)) w)
    as (r & w1 & Hd & Ht & Hb & Hf & Hr).
  unfold mbind at 1, M_bind at 1. unfold mbind at 1, M_bind at 1. rewrite Hd. simpl.
  destruct r as [e|]; simpl.
  - eexists _, _. split; [reflexivity|]. split; [done|]. split; [done|].
    split; [|done]. by apply issued_app.
  - unfold Recorder_Eventf, issue, mbind, M_bind. simpl.
    eexists _, _. split; [reflexivity|]. simpl. split; [done|]. split; [done|].
    split; [done|]. split; [|done]. apply issued_app. simpl. by rewrite Ht, <- app_assoc.
Qed.

End Children.

(** ** Reads that fail, and what the driver records *)

Section Driver.
Context `{ResourcesPackage, Lifecycle, Formatting}.
Variable c : Reconciler.

(** X11. A read that fails with anything but not-found ends the cycle
    with that very error and without a call: for the owner,
    [Reconcile] returns it and the world is as it was; for the build
    cache, the inner pass returns it with nothing but the conditions
    initialized on the status; for the build, the inner pass returns it
    in the world the build-cache step left, with the status that step
    led to. *)
Theorem failed_reads_are_returned (w : World) (err : error)
    (Hother : IsNotFound err = false) :
  (forall key ns name,
      SplitMetaNamespaceKey key = Ok (ns, name) ->
      functionbuildLister_Get c ns name w = Done (Err err) w ->
      Reconcile c key w = Done (Some err) w)
  /\ (forall fb,
        DeletionTimestamp (fbMeta fb) = None ->
        let fb1 := initialized fb in
        pvcLister_Get c (Namespace (fbMeta fb1)) (names_BuildCache fb1) w
          = Done (Err err) w ->
        reconcile c fb w = Done (fb1, Some err) w)
  /\ (forall fb buildCache w0,
        DeletionTimestamp (fbMeta fb) = None ->
        reconcile_buildCache c (initialized fb) w0
          = Done (initialized fb, Ok buildCache) w ->
        let fb2 := withBuildCache (initialized fb) buildCache in
        knbuildLister_Get c (Namespace (fbMeta fb2)) (names_Build fb2) w
          = Done (Err err) w ->
        reconcile c fb w0 = Done (fb2, Some err) w).
Proof.
  split; [|split].
  - intros key ns name Hkey Hget. rewrite Reconcile_then_writeBack, Hkey.
    rewrite (bind_Done _ _ _ _ _ Hget). by rewrite Hother.
  - intros fb Hlive fb1 Hget. rewrite reconcile_unfold by exact Hlive.
    unfold reconcile_buildCache. fold fb1.
    rewrite bind_Done with (a := (fb1, Err err)) (w' := w); [reflexivity|].
    rewrite (bind_Done _ _ _ _ _ Hget). by rewrite Hother.
  - intros fb bc w0 Hlive Hc1 fb2 Hget. rewrite reconcile_unfold by exact Hlive.
    rewrite (bind_Done _ _ _ _ _ Hc1). cbv beta iota. fold fb2.
    rewrite bind_Done with (a := (fb2, Err err)) (w' := w); [reflexivity|].
    unfold reconcile_build. rewrite (bind_Done _ _ _ _ _ Hget). by rewrite Hother.
Qed.

(** X12. What [Reconcile] does after the inner pass, call by call: with
    an unchanged status, nothing; with a changed one, the status write,
    followed by an [UpdateFailed] event when the write is refused, by an
    [Updated] event when it is accepted and the inner pass had returned
    nil, and by nothing when it is accepted after an inner pass that
    failed. *)
Theorem status_write_is_recorded (key ns name : string) (original fb' : FunctionBuild)
    (err : option error) (w w1 : World)
    (Hkey : SplitMetaNamespaceKey key = Ok (ns, name))
    (Hget : functionbuildLister_Get c ns name w = Done (Ok original) w)
    (Hkeyed : keyedByName w)
    (Hrec : reconcile c original w = Done (fb', err) w1) :
  let write := UpdateStatus ns (setStatus original (fbStatus fb')) in
  exists r w',
    Reconcile c key w = Done r w'
    /\ issued w1 w'
       = if bool_decide (fbStatus original = fbStatus fb') then []
         else match reactor c write with
              | Some uErr =>
                  [write;
                   Eventf "Warning" "UpdateFailed"
                     ("Failed to update status for FunctionBuild "
                        ++ quote name ++ ": " ++ Error uErr)]
              | None =>
                  match err with
                  | None => [write; Eventf "Normal" "Updated"
                                      ("Updated FunctionBuild " ++ quote name)]
                  | Some _ => [write]
                  end
              end.
Proof.
  intros write.
  pose proof (functionbuildLister_Get_inv c _ _ _ _ _ Hget) as (_ & _ & Hlook).
  destruct (Hkeyed _ _ _ Hlook) as [Hns Hname].
  pose proof (reconcile_owner_meta c original _ _ _ Hrec) as Hmeta. simpl in Hmeta.
  pose proof (respects_Done _ _ _ _ _ (reconcile_footprint c original) Hrec)
    as (Hf & _ & _ & _). specialize (Hf eq_refl).
  rewrite Reconcile_then_writeBack, Hkey, (bind_Done _ _ _ _ _ Hget). simpl.
  rewrite (bind_Done _ _ _ _ _ Hrec). simpl.
  unfold writeBack, semanticStatus.
  case_bool_decide as Hst.
  { eexists _, _. split; [reflexivity|]. apply issued_refl. }
  assert (Hget1 : functionbuildLister_Get c (Namespace (fbMeta fb')) (Name (fbMeta fb')) w1
                  = Done (Ok original) w1).
  { rewrite Hmeta, Hns, Hname. eapply functionbuildLister_Get_stable; eassumption. }
  unfold updateStatus, mbind, M_bind. rewrite Hget1.
  unfold reflectStatus. rewrite bool_decide_eq_false_2 by exact Hst.
  rewrite Hmeta, Hns, Hname. subst write.
  unfold FunctionBuilds_UpdateStatus, mbind, M_bind, issue, mret, M_ret,
    setFunctionbuilds, Recorder_Eventf. cbn [fbMeta setStatus].
  destruct (reactor c (UpdateStatus ns (setStatus original (fbStatus fb'))))
    as [uErr|]; simpl.
  - eexists _, _. split; [reflexivity|]. apply issued_app. simpl.
    by rewrite <- app_assoc.
  - rewrite Hname, Hf, Hlook. simpl.
    destruct err; simpl; eexists _, _; (split; [reflexivity|]); apply issued_app; simpl;
      [done|by rewrite <- app_assoc].
Qed.

End Driver.

(** ** The key of a cycle *)

Section Keys.
Context `{ResourcesPackage, Lifecycle, Formatting}.
Variable c : Reconciler.

Lemma splitSlash_length (s : string) : length (splitSlash s) = S (slashes s).
Proof.
  induction s as [|a s IH]; simpl; [done|].
  destruct (Ascii.eqb a slash); simpl; [by rewrite IH|].
  destruct (splitSlash s); simpl in *; lia.
Qed.

Lemma splitSlash_plain (s : string) : slashes s = 0%nat -> splitSlash s = [s].
Proof.
  induction s as [|a s IH]; simpl; [done|].
  destruct (Ascii.eqb a slash); simpl; [discriminate|].
  intros Hs. by rewrite IH.
Qed.

Lemma splitSlash_app (ns rest : string) :
  slashes ns = 0%nat ->
  splitSlash (ns ++ String slash rest) = ns :: splitSlash rest.
Proof.
  induction ns as [|a ns IH]; simpl.
  - intros _. by rewrite ?Ascii.eqb_refl.
  - destruct (Ascii.eqb a slash); simpl; [discriminate|].
    intros Hs. by rewrite IH.
Qed.

(** X16. How [Reconcile] reads its key: a key [namespace/name] names the
    owner [name] in [namespace], a key without a slash names an owner in
    the empty namespace, and a key with more than one slash names
    nothing: [Reconcile] then returns nil, so that the key is not queued
    again, and does nothing. *)
Theorem Reconcile_reads_its_key (w : World) :
  (forall ns name,
      slashes ns = 0%nat -> slashes name = 0%nat ->
      SplitMetaNamespaceKey (ns ++ String slash name) = Ok (ns, name))
  /\ (forall name, slashes name = 0%nat -> SplitMetaNamespaceKey name = Ok ("", name))
  /\ (forall key, (2 <= slashes key)%nat -> Reconcile c key w = Done None w).
Proof.
  split; [|split].
  - intros ns name Hns Hname. unfold SplitMetaNamespaceKey.
    by rewrite (splitSlash_app ns name Hns), (splitSlash_plain name Hname).
  - intros name Hname. unfold SplitMetaNamespaceKey.
    by rewrite (splitSlash_plain name Hname).
  - intros key Hkey. unfold Reconcile, SplitMetaNamespaceKey.
    pose proof (splitSlash_length key) as Hlen.
    destruct (splitSlash key) as [|p1 [|p2 [|p3 ps]]]; simpl in Hlen; try lia.
    reflexivity.
Qed.

End Keys.

(** ** Validation of a Processor *)

Module ProcessorFacts.
Import Processor.

Section Validation.
Context `{ValidationPackage}.

Lemma reported_checkBinding field i b errs :
  reported (checkBinding field i b errs)
  = (reported errs
     ++ (if String.eqb (Stream b) ""
         then [ViaFieldIndex (ErrMissingField "stream") field i] else [])
     ++ (if String.eqb (Alias b) ""
         then [ViaFieldIndex (ErrMissingField "alias") field i] else []))%list.
Proof.
  unfold checkBinding.
  destruct (String.eqb (Stream b) ""), (String.eqb (Alias b) ""); simpl;
    by rewrite ?app_nil_r, <- ?app_assoc.
Qed.

(** The loop only adds errors. *)
Lemma reported_checkBindings_prefix field bs : forall i errs,
  exists added, reported (checkBindings field i bs errs) = (reported errs ++ added)%list.
Proof.
  induction bs as [|b bs IH]; intros i errs; simpl.
  - exists []. by rewrite app_nil_r.
  - destruct (IH (S i) (checkBinding field i b errs)) as [added Hadded].
    rewrite Hadded, reported_checkBinding. rewrite <- !app_assoc. by eexists.
Qed.

(** The loop adds none exactly when every binding has a stream and an
    alias. *)
Lemma reported_checkBindings_nil field bs : forall i errs,
  reported (checkBindings field i bs errs) = []
  <-> reported errs = [] /\ forallb bound bs = true.
Proof.
  induction bs as [|b bs IH]; intros i errs; simpl.
  - tauto.
  - rewrite IH, reported_checkBinding, andb_true_iff. unfold bound.
    destruct (String.eqb (Stream b) ""), (String.eqb (Alias b) ""); simpl;
      rewrite ?app_nil_r; split; intros [Ha Hb]; try done.
    all: try (by apply app_eq_nil in Ha as [_ ?]).
    all: try (by destruct Hb).
Qed.

(** Every binding without a stream or without an alias is reported at
    its index. *)
Lemma reported_checkBindings_at field bs : forall i errs j b,
  bs !! j = Some b ->
  (Stream b = "" ->
   ViaFieldIndex (ErrMissingField "stream") field (i + j)
     ∈ reported (checkBindings field i bs errs))
  /\ (Alias b = "" ->
      ViaFieldIndex (ErrMissingField "alias") field (i + j)
        ∈ reported (checkBindings field i bs errs)).
Proof.
  induction bs as [|b0 bs IH]; intros i errs j b Hj; [done|].
  destruct j as [|j]; simpl in *.
  - injection Hj as ->. rewrite Nat.add_0_r.
    destruct (reported_checkBindings_prefix field bs (S i)
                (checkBinding field i b errs)) as [added ->].
    rewrite reported_checkBinding. clear IH.
    split; intros ->; simpl; destruct (String.eqb _ "");
      rewrite !elem_of_app, ?elem_of_cons; intuition auto.
  - replace (i + S j)%nat with (S i + j)%nat by lia. by apply IH.
Qed.

(** X13. [ProcessorSpec.Validate] panics exactly on a spec that is not
    the zero spec and whose template is nil or has no container: it
    relies on the defaulter for the first container. *)
Theorem Validate_panics_iff (s : ProcessorSpec) :
  ProcessorSpec_Validate s = None
  <-> isZero s = false
      /\ match Template s with
         | None => True
         | Some template => Containers template = []
         end.
Proof.
  unfold ProcessorSpec_Validate.
  destruct (isZero s); [split; [discriminate|intros [? _]; discriminate]|].
  destruct (Template s) as [t|]; [|tauto].
  destruct (Containers t); [tauto|].
  split; [discriminate|]. intros [_ ?]. discriminate.
Qed.

Lemma wanted_template `{!DiffLaws} (t : PodSpec) (first : Container) (more : list Container) :
  Containers t = first :: more ->
  Diff (mkPodSpec (ServiceAccountName t) (filterInvalidContainers [first])
          (filterInvalidVolumes (Volumes t)) zeroRest) t = ""
  <-> more = [] /\ Others t = zeroRest.
Proof.
  intros Hc. rewrite Diff_equal. destruct t as [sa cs vs o]. simpl in *. subst cs.
  unfold filterInvalidContainers, filterInvalidVolumes.
  split.
  - intros Heq. injection Heq as <- <-. done.
  - intros [-> ->]. reflexivity.
Qed.

(** X14. [ProcessorSpec.Validate] returns without an error exactly for
    the specs whose template has one container, named [function], and
    no other pod field set, which give either a function reference or
    an image, which have at least one input, and whose inputs and
    outputs all name a stream and an alias; and [Processor.Validate]
    accepts a processor exactly when its spec is accepted. *)
Theorem Validate_accepts_iff `{!DiffLaws} (s : ProcessorSpec) :
  ((exists errs, ProcessorSpec_Validate s = Some errs /\ reported errs = [])
   <-> isValid s = true)
  /\ ((exists errs, Processor_Validate (mkProcessor s) = Some errs /\ reported errs = [])
      <-> isValid s = true).
Proof.
  assert (Hspec : (exists errs, ProcessorSpec_Validate s = Some errs /\ reported errs = [])
                  <-> isValid s = true).
  { unfold ProcessorSpec_Validate, isValid.
    destruct (isZero s) eqn:Hzero.
    { split.
      - intros (errs & Herrs & Hnone). injection Herrs as <-. discriminate.
      - unfold isZero in Hzero. rewrite !andb_true_iff in Hzero.
        destruct Hzero as [_ Ht]. by destruct (Template s). }
    destruct (Template s) as [t|]; [|split; [intros (? & ? & _)|]; discriminate].
    destruct (Containers t) as [|first more] eqn:Hc;
      [split; [intros (? & ? & _)|]; discriminate|].
    pose proof (wanted_template t first more Hc) as Hdiff.
    split.
    - intros (errs & Herrs & Hnone). injection Herrs as <-.
      apply reported_checkBindings_nil in Hnone as [Hnone Hout].
      apply reported_checkBindings_nil in Hnone as [Hnone Hin].
      destruct (String.eqb_spec
                  (Diff (mkPodSpec (ServiceAccountName t) (filterInvalidContainers [first])
                           (filterInvalidVolumes (Volumes t)) zeroRest) t) "")
        as [Hd|Hd]; simpl in Hnone.
      2:{ exfalso. revert Hnone.
          repeat (match goal with |- context [if ?b then _ else _] => destruct b end;
                  simpl); intros Hnone; try discriminate;
            repeat (apply app_eq_nil in Hnone as [Hnone ?]); discriminate. }
      apply Hdiff in Hd as [-> Hrest].
      rewrite (bool_decide_eq_true_2 _ Hrest), Hin, Hout. simpl.
      revert Hnone.
      destruct (String.eqb (cName first) "function"),
        (String.eqb (FunctionRef s) ""), (String.eqb (cImage first) ""),
        (length (Inputs s) =? 0)%nat; simpl; intros Hnone; try reflexivity;
        try discriminate.
    - destruct more; [|discriminate].
      rewrite !andb_true_iff, negb_true_iff, bool_decide_eq_true.
      intros [[[[[Hrest Hname] Hone] Hlen] Hin] Hout].
      eexists. split; [reflexivity|].
      apply reported_checkBindings_nil. split; [|exact Hout].
      apply reported_checkBindings_nil. split; [|exact Hin].
      assert (Hd : Diff (mkPodSpec (ServiceAccountName t) (filterInvalidContainers [first])
                           (filterInvalidVolumes (Volumes t)) zeroRest) t = "")
        by by apply Hdiff.
      rewrite Hd, Hname, Hlen. simpl.
      destruct (String.eqb (FunctionRef s) ""), (String.eqb (cImage first) "");
        simpl in *; done. }
  split; [exact Hspec|].
  rewrite <- Hspec. unfold Processor_Validate. simpl.
  destruct (ProcessorSpec_Validate s) as [specErrs|]; simpl.
  - split.
    + intros (errs & Herrs & Hnone). injection Herrs as <-. simpl in Hnone.
      exists specErrs. split; [done|]. by apply fmap_nil_inv in Hnone.
    + intros (errs & Herrs & Hnone). injection Herrs as <-.
      eexists. split; [reflexivity|]. simpl. by rewrite Hnone.
  - split; intros (? & ? & _); discriminate.
Qed.

(** X15. Validation does not stop at the first error: whenever
    [ProcessorSpec.Validate] returns on a spec that is not the zero
    spec, every input and every output that lacks a stream or an alias
    is reported, under its own index, whatever else is wrong with the
    spec; and a spec without inputs is reported for that. *)
Theorem Validate_reports_every_binding (s : ProcessorSpec) (errs : FieldErrors)
    (Hzero : isZero s = false)
    (Hrun : ProcessorSpec_Validate s = Some errs) :
  (forall i input,
      Inputs s !! i = Some input ->
      (Stream input = "" ->
       ViaFieldIndex (ErrMissingField "stream") "inputs" i ∈ reported errs)
      /\ (Alias input = "" ->
          ViaFieldIndex (ErrMissingField "alias") "inputs" i ∈ reported errs))
  /\ (forall i output,
        Outputs s !! i = Some output ->
        (Stream output = "" ->
         ViaFieldIndex (ErrMissingField "stream") "outputs" i ∈ reported errs)
        /\ (Alias output = "" ->
            ViaFieldIndex (ErrMissingField "alias") "outputs" i ∈ reported errs))
  /\ (Inputs s = [] -> ErrMissingField "inputs" ∈ reported errs).
Proof.
  unfold ProcessorSpec_Validate in Hrun. rewrite Hzero in Hrun.
  destruct (Template s) as [t|]; [|discriminate].
  destruct (Containers t) as [|first more]; [discriminate|].
  injection Hrun as <-.
  match goal with
  | |- context [checkBindings "outputs" 0 (Outputs s)
                  (checkBindings "inputs" 0 (Inputs s) ?e)] => set (before := e)
  end.
  split; [|split].
  - intros i input Hi.
    destruct (reported_checkBindings_prefix "outputs" (Outputs s) 0
                (checkBindings "inputs" 0 (Inputs s) before)) as [added ->].
    destruct (reported_checkBindings_at "inputs" (Inputs s) 0 before i input Hi)
      as [Hs Ha].
    split; intros Hempty; apply elem_of_app; left; auto.
  - intros i output Hi.
    exact (reported_checkBindings_at "outputs" (Outputs s) 0 _ i output Hi).
  - intros Hnone.
    destruct (reported_checkBindings_prefix "outputs" (Outputs s) 0
                (checkBindings "inputs" 0 (Inputs s) before)) as [added ->].
    destruct (reported_checkBindings_prefix "inputs" (Inputs s) 0 before)
      as [added' ->].
    subst before. rewrite Hnone. simpl.
    rewrite !elem_of_app, ?elem_of_cons. intuition auto.
Qed.

End Validation.
End ProcessorFacts.

(** ** No failure goes unreported *)

Ltac accepted_prim :=
  unfold mbind, M_bind, issue, setPvcs, setBuilds, setFunctionbuilds, mret, M_ret;
  simpl; intros Hu; repeat case_match; simplify_eq/=;
  unfold issued, accepted; simpl; rewrite drop_app_length; simpl;
  repeat case_match; simplify_eq/=; done.

Section AcceptedCalls.
Variable c : Reconciler.

Lemma PersistentVolumeClaims_Create_accepted ns o r w w' :
  PersistentVolumeClaims_Create c ns o w = Done (Ok r) w' ->
  forallb (accepted c) (issued w w') = true.
Proof. unfold PersistentVolumeClaims_Create. accepted_prim. Qed.

Lemma PersistentVolumeClaims_Update_accepted ns o r w w' :
  PersistentVolumeClaims_Update c ns o w = Done (Ok r) w' ->
  forallb (accepted c) (issued w w') = true.
Proof. unfold PersistentVolumeClaims_Update. accepted_prim. Qed.

Lemma PersistentVolumeClaims_Delete_accepted ns name uid w w' :
  PersistentVolumeClaims_Delete c ns name uid w = Done None w' ->
  forallb (accepted c) (issued w w') = true.
Proof. unfold PersistentVolumeClaims_Delete. accepted_prim. Qed.

Lemma Builds_Create_accepted ns o r w w' :
  Builds_Create c ns o w = Done (Ok r) w' ->
  forallb (accepted c) (issued w w') = true.
Proof. unfold Builds_Create. accepted_prim. Qed.

Lemma Builds_Update_accepted ns o r w w' :
  Builds_Update c ns o w = Done (Ok r) w' ->
  forallb (accepted c) (issued w w') = true.
Proof. unfold Builds_Update. accepted_prim. Qed.

Lemma FunctionBuilds_UpdateStatus_accepted ns o r w w' :
  FunctionBuilds_UpdateStatus c ns o w = Done (Ok r) w' ->
  forallb (accepted c) (issued w w') = true.
Proof. unfold FunctionBuilds_UpdateStatus. accepted_prim. Qed.

End AcceptedCalls.

Section Unreported.
Context `{ResourcesPackage, Lifecycle, Formatting}.
Variable c : Reconciler.

Lemma issued_event (w : World) (a : Action) :
  issued w (mkWorld (functionbuilds w) (pvcs w) (builds w) (trace w ++ [a])%list) = [a].
Proof. unfold issued. simpl. by rewrite drop_app_length. Qed.

Lemma issued_then_event (w w1 : World) (P : Action -> bool) (a : Action) :
  grows P w w1 ->
  issued w (mkWorld (functionbuilds w1) (pvcs w1) (builds w1) (trace w1 ++ [a])%list)
  = (issued w w1 ++ [a])%list.
Proof. intros Hg. by apply (issued_extend P). Qed.

Lemma pvcLister_Get_world ns name r w w' :
  pvcLister_Get c ns name w = Done r w' -> w' = w.
Proof. unfold pvcLister_Get. intros Hg. repeat case_match; by simplify_eq. Qed.

Lemma knbuildLister_Get_world ns name r w w' :
  knbuildLister_Get c ns name w = Done r w' -> w' = w.
Proof. unfold knbuildLister_Get. intros Hg. repeat case_match; by simplify_eq. Qed.

Lemma reconcile_buildCache_accepted fb fb' bc w w' :
  reconcile_buildCache c fb w = Done (fb', Ok bc) w' ->
  forallb (accepted c) (issued w w') = true.
Proof.
  unfold reconcile_buildCache. intros Hrun.
  apply bind_inv in Hrun as (r & w0 & Hget & Hrun).
  apply pvcLister_Get_world in Hget as ->.
  destruct r as [o|e].
  - destruct (negb _); [discriminate|].
    apply bind_inv in Hrun as (r & w1 & Hconv & Hrun).
    pose proof (respects_Done _ _ _ _ _ (reconcileBuildCache_footprint c fb o) Hconv)
      as (_ & _ & _ & Hg).
    assert (Hacc : (forall e, r <> Err e) ->
                   forallb (accepted c) (issued w w1) = true).
    { intros Hok. unfold reconcileBuildCache in Hconv.
      destruct (MakeBuildCache fb) as [[d|]|e].
      - destruct (buildCacheSemanticEquals d o).
        + injection Hconv as _ <-. by rewrite issued_refl.
        + destruct (SafeDiffPersistentVolumeClaimSpec _ _).
          * apply bind_inv in Hconv as (u & w2 & Hu & Hret). injection Hret as <- <-.
            destruct u as [u|e]; [|by destruct (Hok e)].
            by eapply PersistentVolumeClaims_Update_accepted.
          * injection Hconv as <- _. by edestruct Hok.
      - apply bind_inv in Hconv as (dr & w2 & Hd & Hret). injection Hret as <- <-.
        destruct dr as [e|]; [by destruct (Hok e)|].
        by eapply PersistentVolumeClaims_Delete_accepted.
      - injection Hconv as <- _. by edestruct Hok. }
    destruct r as [[bc'|]|e]; [| |discriminate].
    + injection Hrun as _ _ <-. by apply Hacc.
    + unfold Recorder_Eventf, issue, mbind, M_bind in Hrun. injection Hrun as _ _ <-.
      rewrite (issued_then_event _ _ _ _ Hg), forallb_app, Hacc by done. done.
  - destruct (IsNotFound e); [|discriminate].
    apply bind_inv in Hrun as (r & w1 & Hcreate & Hrun).
    pose proof (respects_Done _ _ _ _ _ (createBuildCache_footprint c fb) Hcreate)
      as (_ & _ & _ & Hg).
    unfold createBuildCache in Hcreate.
    destruct (MakeBuildCache fb) as [[d|]|e0].
    + apply bind_inv in Hcreate as (u & w2 & Hu & Hret). injection Hret as <- <-.
      destruct u as [u|e1].
      2:{ unfold Recorder_Eventf, issue, mbind, M_bind in Hrun. discriminate. }
      unfold Recorder_Eventf, issue, mbind, M_bind in Hrun. injection Hrun as _ _ <-.
      rewrite (issued_then_event _ _ _ _ Hg), forallb_app.
      by rewrite (PersistentVolumeClaims_Create_accepted _ _ _ _ _ _ Hu).
    + injection Hcreate as <- <-. injection Hrun as _ _ <-. by rewrite issued_refl.
    + injection Hcreate as <- <-.
      unfold Recorder_Eventf, issue, mbind, M_bind in Hrun. discriminate.
Qed.

Lemma reconcile_build_accepted fb fb' b w w' :
  reconcile_build c fb w = Done (fb', Ok b) w' ->
  forallb (accepted c) (issued w w') = true.
Proof.
  unfold reconcile_build. intros Hrun.
  apply bind_inv in Hrun as (r & w0 & Hget & Hrun).
  apply knbuildLister_Get_world in Hget as ->.
  destruct r as [o|e].
  - destruct (negb _); [discriminate|].
    apply bind_inv in Hrun as (r & w1 & Hconv & Hrun). injection Hrun as _ -> <-.
    unfold reconcileBuild in Hconv.
    destruct (MakeBuild fb) as [[d|]|e]; [|discriminate|discriminate].
    destruct (buildSemanticEquals d o).
    + injection Hconv as _ <-. by rewrite issued_refl.
    + destruct (SafeDiffBuildSpec _ _); [|discriminate].
      apply bind_inv in Hconv as (u & w2 & Hu & Hret). injection Hret as Hres <-.
      destruct u as [u|e]; [|discriminate].
      by eapply Builds_Update_accepted.
  - destruct (IsNotFound e); [|discriminate].
    apply bind_inv in Hrun as (r & w1 & Hcreate & Hrun).
    pose proof (respects_Done _ _ _ _ _ (createBuild_footprint c fb) Hcreate)
      as (_ & _ & _ & Hg).
    unfold createBuild in Hcreate.
    destruct (MakeBuild fb) as [[d|]|e0].
    + apply bind_inv in Hcreate as (u & w2 & Hu & Hret). injection Hret as <- <-.
      destruct u as [u|e1].
      2:{ unfold Recorder_Eventf, issue, mbind, M_bind in Hrun. discriminate. }
      unfold Recorder_Eventf, issue, mbind, M_bind in Hrun. injection Hrun as _ _ <-.
      rewrite (issued_then_event _ _ _ _ Hg), forallb_app.
      by rewrite (Builds_Create_accepted _ _ _ _ _ _ Hu).
    + injection Hcreate as <- <-. injection Hrun as _ _ <-. by rewrite issued_refl.
    + injection Hcreate as <- <-.
      unfold Recorder_Eventf, issue, mbind, M_bind in Hrun. discriminate.
Qed.

Lemma reconcile_image_accepted fb fb' b w w' :
  reconcile_image c fb (Some b) w = Done (fb', None) w' ->
  forallb (accepted c) (issued w w') = true.
Proof.
  rewrite reconcile_image_cases. cbv zeta. intros Hrun.
  destruct (IsReady _).
  - destruct (resolver c (Image (fbSpec (withBuild fb b)))
                (resolveOptions (withBuild fb b) b) skipRegistries) eqn:Hres;
      [|discriminate].
    injection Hrun as _ <-. unfold withAction. rewrite issued_event.
    unfold accepted, forallb.
    change (Image (fbSpec fb)) with (Image (fbSpec (withBuild fb b))).
    by rewrite Hres.
  - injection Hrun as _ <-. by rewrite issued_refl.
Qed.

(** An inner pass that returns nil met no failure. *)
Lemma reconcile_accepted fb fb' w w' :
  reconcile c fb w = Done (fb', None) w' ->
  forallb (accepted c) (issued w w') = true.
Proof.
  intros Hrec.
  destruct (DeletionTimestamp (fbMeta fb)) as [ts|] eqn:Hlive.
  { rewrite (reconcile_deleted c fb w ts Hlive) in Hrec. injection Hrec as _ <-.
    by rewrite issued_refl. }
  rewrite reconcile_unfold in Hrec by exact Hlive.
  apply bind_inv in Hrec as ([fb1 r1] & w1 & Hc1 & Hrec).
  destruct r1 as [bc|e1]; [|discriminate].
  apply bind_inv in Hrec as ([fb2 r2] & w2 & Hc2 & Hrec).
  destruct r2 as [[b|]|e2]; [|discriminate|discriminate].
  pose proof (respects_Done _ _ _ _ _ (reconcile_buildCache_footprint c _) Hc1)
    as (_ & _ & _ & Hg1).
  pose proof (respects_Done _ _ _ _ _ (reconcile_build_footprint c _) Hc2)
    as (_ & _ & _ & Hg2).
  pose proof (respects_Done _ _ _ _ _ (reconcile_image_footprint c _ _) Hrec)
    as (_ & _ & _ & Hg3).
  assert (Hg12 : grows (fun _ => true) w w2).
  { etransitivity; (eapply grows_weaken; [|eassumption]); done. }
  rewrite (issued_trans _ _ _ _ _ Hg12 Hg3), (issued_trans _ _ _ _ _ Hg1 Hg2).
  rewrite !forallb_app.
  rewrite (reconcile_buildCache_accepted _ _ _ _ _ Hc1).
  rewrite (reconcile_build_accepted _ _ _ _ _ Hc2).
  by rewrite (reconcile_image_accepted _ _ _ _ _ Hrec).
Qed.

Lemma functionbuildLister_Get_world ns name r w w' :
  functionbuildLister_Get c ns name w = Done r w' -> w' = w.
Proof. intros Hg. by apply functionbuildLister_Get_inv in Hg as [-> _]. Qed.

Lemma writeBack_accepted original fb' w w' :
  writeBack c original fb' None w = Done None w' ->
  forallb (accepted c) (issued w w') = true.
Proof.
  unfold writeBack. destruct (semanticStatus _ _).
  { intros Hrun. injection Hrun as <-. by rewrite issued_refl. }
  intros Hrun. apply bind_inv in Hrun as (u & w1 & Hu & Hrun).
  destruct u as [u|e].
  2:{ unfold Recorder_Eventf, issue, mbind, M_bind in Hrun. discriminate. }
  pose proof (respects_Done _ _ _ _ _ (updateStatus_footprint c fb') Hu)
    as (_ & _ & _ & Hg).
  unfold Recorder_Eventf, issue, mbind, M_bind in Hrun. injection Hrun as <-.
  rewrite (issued_then_event _ _ _ _ Hg), forallb_app.
  unfold updateStatus in Hu. apply bind_inv in Hu as (r & w2 & Hget & Hu).
  apply functionbuildLister_Get_world in Hget as ->.
  destruct r as [stored|e]; [|discriminate].
  destruct (reflectStatus _ _).
  - injection Hu as _ <-. by rewrite issued_refl.
  - by rewrite (FunctionBuilds_UpdateStatus_accepted _ _ _ _ _ _ Hu).
Qed.

(** X17. No failure goes unreported: when [Reconcile] returns nil, the
    inner pass, if there was one, had returned nil, no failure was
    induced on any write of the cycle, and the resolver, if it was
    asked, answered with a digest.  So a cycle in which a call fails
    returns an error and is tried again. *)
Theorem nil_means_nothing_failed (key : string) (w w' : World)
    (Hrun : Reconcile c key w = Done None w') :
  forallb (accepted c) (issued w w') = true
  /\ forall ns name original,
       SplitMetaNamespaceKey key = Ok (ns, name) ->
       functionbuildLister_Get c ns name w = Done (Ok original) w ->
       exists fb' w1, reconcile c original w = Done (fb', None) w1.
Proof.
  rewrite Reconcile_then_writeBack in Hrun.
  destruct (SplitMetaNamespaceKey key) as [[ns name]|e] eqn:Hkey.
  2:{ injection Hrun as <-. rewrite issued_refl. split; [done|]. intros; discriminate. }
  apply bind_inv in Hrun as (r & w0 & Hget & Hrun).
  pose proof (functionbuildLister_Get_world _ _ _ _ _ Hget) as ->.
  destruct r as [original|e].
  2:{ assert (w' = w) as ->.
      { destruct (IsNotFound e); [by injection Hrun as <-|discriminate]. }
      rewrite issued_refl. split; [done|].
      intros ns' name' o Hk Hg. injection Hk as <- <-. rewrite Hget in Hg.
      discriminate. }
  apply bind_inv in Hrun as ([fb' err] & w1 & Hrec & Hwb).
  assert (err = None) as ->.
  { destruct err as [e|]; [|done]. exfalso. unfold writeBack in Hwb.
    destruct (semanticStatus _ _); [discriminate|].
    apply bind_inv in Hwb as (u & w2 & _ & Hwb).
    destruct u; unfold Recorder_Eventf, issue, mbind, M_bind in Hwb; discriminate. }
  split.
  - pose proof (respects_Done _ _ _ _ _ (reconcile_footprint c original) Hrec)
      as (_ & _ & _ & Hg1).
    pose proof (respects_Done _ _ _ _ _ (writeBack_footprint c original fb' None) Hwb)
      as (_ & _ & _ & Hg2).
    rewrite (issued_trans _ _ _ _ _ Hg1 Hg2), forallb_app.
    rewrite (reconcile_accepted _ _ _ _ Hrec).
    by rewrite (writeBack_accepted _ _ _ _ Hwb).
  - intros ns' name' o Hk Hg. injection Hk as <- <-. rewrite Hget in Hg.
    injection Hg as <-. eauto.
Qed.

End Unreported.

(** ** The further properties at work *)

Module MoreWitnesses.
Import Example ExampleFacts MoreExamples.

Ltac by_evaluation := vm_compute; reflexivity.

Lemma keyedByName_one (fb : FunctionBuild) p b t :
  keyedByName (mkWorld {[ (Namespace (fbMeta fb), Name (fbMeta fb)) := fb ]} p b t).
Proof.
  intros ns name o Hl. simpl in Hl.
  apply lookup_singleton_Some in Hl as [Hk <-]. by injection Hk as <- <-.
Qed.

(** A first cycle for the test owner: every call goes to its namespace. *)
Lemma calls_stay_in_namespace_witness :
  SplitMetaNamespaceKey testKey = Ok (testNamespace, testName)
  /\ keyedByName (worldWith testFunctionBuild)
  /\ forallb (inNamespace testNamespace)
       (issued (worldWith testFunctionBuild)
          (worldOf (Reconcile reconciler testKey (worldWith testFunctionBuild)))) = true
  /\ length (issued (worldWith testFunctionBuild)
               (worldOf (Reconcile reconciler testKey (worldWith testFunctionBuild))))
     = 6%nat.
Proof.
  assert (Hkey : SplitMetaNamespaceKey testKey = Ok (testNamespace, testName))
    by by_evaluation.
  assert (Hkeyed : keyedByName (worldWith testFunctionBuild))
    by apply (keyedByName_one testFunctionBuild).
  split; [exact Hkey|]. split; [exact Hkeyed|]. split; [|by_evaluation].
  destruct (calls_stay_in_namespace reconciler) as [_ Hdriver].
  exact (Hdriver testKey testNamespace testName _ Hkey Hkeyed).
Defined.

(** The example resources always desire a build: every cycle returns. *)
Lemma reconcile_panics_iff_witness :
  (forall fb, MakeBuild fb <> Ok None)
  /\ exists r w', Reconcile reconciler testKey (worldWith testFunctionBuild) = Done r w'.
Proof.
  assert (Hmake : forall fb, MakeBuild fb <> Ok None) by (intros fb; discriminate).
  split; [exact Hmake|].
  destruct (reconcile_panics_iff reconciler testFunctionBuild (worldWith testFunctionBuild))
    as [_ Hreturns].
  exact (Hreturns Hmake testKey).
Defined.

(** Both children are ready: the cycle returns nil and the stored owner
    has seen generation 1. *)
Lemma success_records_generation_witness :
  let w' := worldOf (Reconcile reconciler testKey readyWorld) in
  Reconcile reconciler testKey readyWorld = Done None w'
  /\ exists stored,
      functionbuilds w' !! (testNamespace, testName) = Some stored
      /\ ObservedGeneration (fbStatus stored) = 1.
Proof.
  intros w'.
  assert (Hrun : Reconcile reconciler testKey readyWorld = Done None w') by by_evaluation.
  split; [exact Hrun|].
  destruct (success_records_generation reconciler testKey testNamespace testName
              testFunctionBuild readyWorld w')
    as (stored & Hlook & _ & _ & Hgen).
  - by_evaluation.
  - by_evaluation.
  - apply (keyedByName_one testFunctionBuild).
  - reflexivity.
  - exact Hrun.
  - exists stored. by split.
Defined.

(** The drifted build cache is converged by one update; converging the
    result again issues nothing. *)
Lemma convergence_takes_one_step_witness :
  let existing := existingBuildCache desiredBuildCache driftedBuildCache in
  let w' := worldOf (reconcileBuildCache reconciler testFunctionBuild driftedBuildCache
                       worldWithDriftedBuildCache) in
  reconcileBuildCache reconciler testFunctionBuild driftedBuildCache
    worldWithDriftedBuildCache = Done (Ok (Some existing)) w'
  /\ reconcileBuildCache reconciler testFunctionBuild existing w'
     = Done (Ok (Some existing)) w'.
Proof.
  intros existing w'.
  assert (Hrun : reconcileBuildCache reconciler testFunctionBuild driftedBuildCache
                   worldWithDriftedBuildCache = Done (Ok (Some existing)) w')
    by by_evaluation.
  split; [exact Hrun|].
  destruct (convergence_takes_one_step reconciler testFunctionBuild
              worldWithDriftedBuildCache w') as [Hcache _].
  by destruct (Hcache driftedBuildCache existing Hrun) as [_ Hagain].
Defined.

(** No build cache in the store: the desired one is created and the
    creation is recorded. *)
Lemma missing_child_is_created_witness :
  exists w',
    reconcile_buildCache reconciler testFunctionBuild (worldWith testFunctionBuild)
    = Done (testFunctionBuild, Ok (Some desiredBuildCache)) w'
    /\ issued (worldWith testFunctionBuild) w'
       = [CreatePersistentVolumeClaim testNamespace desiredBuildCache;
          Eventf "Normal" "Created"
            ("Created PersistentVolumeClaim " ++ quote "build-cache-test-functionbuild")].
Proof.
  destruct (missing_child_is_created reconciler testFunctionBuild
              (worldWith testFunctionBuild)
              (NewNotFound "build-cache-test-functionbuild") eq_refl) as [Hcache _].
  destruct Hcache as (r & w' & Hrun & _ & _ & Hcases); [by_evaluation|].
  change (MakeBuildCache testFunctionBuild) with (Ok (Some desiredBuildCache)) in Hcases.
  cbv zeta in Hcases.
  assert (Hr : r = Ok (Some desiredBuildCache)).
  { assert (Hev : reconcile_buildCache reconciler testFunctionBuild
                    (worldWith testFunctionBuild)
                  = Done (testFunctionBuild, Ok (Some desiredBuildCache))
                      (worldOf (reconcile_buildCache reconciler testFunctionBuild
                                  (worldWith testFunctionBuild)))) by by_evaluation.
    rewrite Hrun in Hev. by injection Hev as ->. }
  subst r. destruct Hcases as (_ & Hissued & _).
  exists w'. split; [exact Hrun|exact Hissued].
Defined.

(** The owner has no image any more: its build cache is deleted, under
    the UID it was observed with. *)
Lemma unwanted_build_cache_is_deleted_witness :
  exists r w',
    reconcile_buildCache reconciler imagelessFunctionBuild worldWithUnwantedBuildCache
    = Done (imagelessFunctionBuild, r) w'
    /\ List.filter touchesPersistentVolumeClaim (issued worldWithUnwantedBuildCache w')
       = [DeletePersistentVolumeClaim testNamespace "build-cache-test-functionbuild" ""].
Proof.
  destruct (unwanted_build_cache_is_deleted reconciler imagelessFunctionBuild
              worldWithUnwantedBuildCache boundBuildCache)
    as (r & w' & Hrun & _ & _ & Hcases); [by_evaluation|by_evaluation|by_evaluation|].
  exists r, w'. split; [exact Hrun|].
  destruct r as [kept|e].
  - destruct Hcases as (_ & -> & _). reflexivity.
  - destruct Hcases as [-> _]. reflexivity.
Defined.

(** The listers fail: the owner's failure ends [Reconcile], the build
    cache's ends the inner pass. *)
Lemma failed_reads_are_returned_witness :
  IsNotFound inducedFailure = false
  /\ Reconcile unreadableReconciler testKey (worldWith testFunctionBuild)
     = Done (Some inducedFailure) (worldWith testFunctionBuild)
  /\ reconcile childlessReconciler testFunctionBuild (worldWith testFunctionBuild)
     = Done (initialized testFunctionBuild, Some inducedFailure)
         (worldWith testFunctionBuild).
Proof.
  split; [reflexivity|]. split.
  - destruct (failed_reads_are_returned unreadableReconciler (worldWith testFunctionBuild)
                inducedFailure eq_refl) as [Howner _].
    apply (Howner testKey testNamespace testName); by_evaluation.
  - destruct (failed_reads_are_returned childlessReconciler (worldWith testFunctionBuild)
                inducedFailure eq_refl) as (_ & Hcache & _).
    apply Hcache; by_evaluation.
Defined.

(** A foreign build cache: the status is written after the inner pass
    failed, and no event follows the write. *)
Lemma status_write_is_recorded_witness :
  let inner := reconcile reconciler testFunctionBuild worldWithForeignBuildCache in
  exists r w',
    Reconcile reconciler testKey worldWithForeignBuildCache = Done r w'
    /\ issued (worldOf inner) w'
       = [UpdateStatus testNamespace
            (setStatus testFunctionBuild (fbStatus (ownerOf inner testFunctionBuild)))].
Proof.
  intros inner.
  destruct (status_write_is_recorded reconciler testKey testNamespace testName
              testFunctionBuild (ownerOf inner testFunctionBuild) (errorOf inner)
              worldWithForeignBuildCache (worldOf inner))
    as (r & w' & Hrun & Hissued).
  - by_evaluation.
  - by_evaluation.
  - apply (keyedByName_one testFunctionBuild).
  - by_evaluation.
  - exists r, w'. split; [exact Hrun|]. rewrite Hissued. by_evaluation.
Defined.

(** A key with two slashes is dropped. *)
Lemma Reconcile_reads_its_key_witness :
  SplitMetaNamespaceKey testKey = Ok (testNamespace, testName)
  /\ Reconcile reconciler "a/b/c" (worldWith testFunctionBuild)
     = Done None (worldWith testFunctionBuild).
Proof.
  destruct (Reconcile_reads_its_key reconciler (worldWith testFunctionBuild))
    as (Hpair & _ & Hdropped).
  split.
  - apply (Hpair testNamespace testName); reflexivity.
  - apply Hdropped. vm_compute. lia.
Defined.

Lemma diff_laws : @Processor.DiffLaws otherFields validationPackage.
Proof. split. intros a b. simpl. by destruct (decide (a = b)). Qed.

(** A processor that names a function, one input and one output. *)
Lemma Validate_accepts_iff_witness :
  Processor.isValid validProcessorSpec = true
  /\ exists errs,
      Processor.Processor_Validate (Processor.mkProcessor validProcessorSpec) = Some errs
      /\ Processor.reported errs = [].
Proof.
  assert (Hvalid : Processor.isValid validProcessorSpec = true) by by_evaluation.
  split; [exact Hvalid|].
  destruct (@ProcessorFacts.Validate_accepts_iff otherFields validationPackage diff_laws
              validProcessorSpec) as [_ Hprocessor].
  by apply Hprocessor.
Defined.

(** A sloppy processor: the input without an alias is reported at index
    1 and the output without a stream at index 0, next to the field
    that is not allowed. *)
Lemma Validate_reports_every_binding_witness :
  exists errs,
    Processor.ProcessorSpec_Validate sloppyProcessorSpec = Some errs
    /\ Processor.ViaFieldIndex (Processor.ErrMissingField "alias") "inputs" 1
         ∈ Processor.reported errs
    /\ Processor.ViaFieldIndex (Processor.ErrMissingField "stream") "outputs" 0
         ∈ Processor.reported errs
    /\ length (Processor.reported errs) = 3%nat.
Proof.
  destruct (Processor.ProcessorSpec_Validate sloppyProcessorSpec) as [errs|] eqn:Hrun;
    [|by vm_compute in Hrun].
  destruct (ProcessorFacts.Validate_reports_every_binding sloppyProcessorSpec errs
              eq_refl Hrun) as (Hin & Hout & _).
  exists errs. split; [reflexivity|].
  split; [by apply (Hin 1%nat (Processor.mkStreamBinding "more" ""))|].
  split; [by apply (Hout 0%nat (Processor.mkStreamBinding "" "out"))|].
  vm_compute in Hrun. injection Hrun as <-. reflexivity.
Defined.

(** Both children are ready: the cycle returns nil, and its two calls,
    the resolution and the status write, met no failure. *)
Lemma nil_means_nothing_failed_witness :
  let w' := worldOf (Reconcile reconciler testKey readyWorld) in
  Reconcile reconciler testKey readyWorld = Done None w'
  /\ forallb (accepted reconciler) (issued readyWorld w') = true
  /\ length (List.filter isWrite (issued readyWorld w')) = 1%nat.
Proof.
  intros w'.
  assert (Hrun : Reconcile reconciler testKey readyWorld = Done None w') by by_evaluation.
  split; [exact Hrun|]. split; [|by_evaluation].
  exact (proj1 (nil_means_nothing_failed reconciler testKey readyWorld w' Hrun)).
Defined.

End MoreWitnesses.
